(** * Livo: real-time job-progress subscriptions

    A shallow embedding of
      - [server/services/websocketService.ts]  (class [WebSocketService]),
      - [server/jobs/videoProcessor.ts]        ([updateJobProgress], [processVideo]),
      - [server/storage.ts]                    ([getJob], [getDocument], [updateJob]),
      - [client/src/hooks/useSocket.ts]        (the subscription-aware [useSocket] hook),
    followed by the properties of the specification that concern them.

    Conventions.  A JavaScript object that is mutated in place and shared
    (a socket, the [subscriptions] object, a [Set]) lives in an explicit
    store, and every handler is a function from store to store.  A handler
    that may throw is a computation in the monad [Run]: its outcome is
    [Returned v] or [Thrown], and, as in JavaScript, the mutations made
    before a throw stay in the store.  Each handler is run to completion:
    the [await] points of the source are sequenced. *)

From Stdlib Require Import Ascii String.
From stdpp Require Import gmap strings list fin_maps pretty.

(* ===================================================================== *)
(** * JavaScript values *)
(* ===================================================================== *)

Module JS.

(** Truthiness of a nullable string: [undefined], [null] and [""] are
    falsy. *)
Definition truthy_str (o : option string) : bool :=
  match o with
  | Some s => negb (String.eqb s "")
  | None => false
  end.

(** Truthiness of a nullable number: [undefined], [null] and [0] are
    falsy (no [NaN] among the integers). *)
Definition truthy_num (o : option Z) : bool :=
  match o with
  | Some n => negb (n =? 0)%Z
  | None => false
  end.

(** Truthiness of an optional boolean field. *)
Definition truthy_bool (o : option bool) : bool :=
  match o with
  | Some b => b
  | None => false
  end.

(** [o || d] where [d] is a string literal. *)
Definition or_str (o : option string) (d : string) : string :=
  match o with
  | Some s => if String.eqb s "" then d else s
  | None => d
  end.

(** [o || d] where [d] is a number literal. *)
Definition or_num (o : option Z) (d : Z) : Z :=
  match o with
  | Some n => if (n =? 0)%Z then d else n
  | None => d
  end.

(** [o || null] on a nullable string. *)
Definition or_null (o : option string) : option string :=
  if truthy_str o then o else None.

(** [n.toString()] on an integer: decimal digits, with a leading minus
    sign for a negative number. *)
Definition toString (n : Z) : string := pretty n.

(** ** [Set<T>]

    A JavaScript [Set] keeps its elements in insertion order and holds
    none twice; [forEach] visits them in that order. *)
Section JSSet.
Context {A : Type} `{EqDecision A}.

Definition set_has (x : A) (s : list A) : bool := bool_decide (x ∈ s).

Definition set_add (x : A) (s : list A) : list A :=
  if set_has x s then s else s ++ [x].

Definition set_delete (x : A) (s : list A) : list A :=
  filter (λ y, y ≠ x) s.

Definition set_size (s : list A) : nat := length s.

(** [new Set(xs)]: the elements of [xs], first occurrences only. *)
Definition set_of_list (xs : list A) : list A :=
  foldl (λ s x, set_add x s) [] xs.
End JSSet.

End JS.

(* ===================================================================== *)
(** * Data model ([shared/schema.ts]) *)
(* ===================================================================== *)

(** [jobStatusEnum] *)
Inductive JobStatus := PENDING | PROCESSING | COMPLETED | FAILED.

#[global] Instance JobStatus_eq_dec : EqDecision JobStatus.
Proof. solve_decision. Defined.

(** A row of the [jobs] table.  [status], [progress], [currentStep] and
    [errorMessage] are nullable columns.  The two timestamp columns are
    left out: no handler below reads them. *)
Module Job.
Record t := mk {
  id : Z;
  userId : string;
  documentId : Z;
  status : option JobStatus;
  progress : option Z;
  currentStep : option string;
  errorMessage : option string;
}.
End Job.

(** A row of the [documents] table, reduced to its key and owner: the
    subscription handler fetches the row and does not read it. *)
Module Document.
Record t := mk {
  id : Z;
  userId : string;
}.
End Document.

(** [Partial<Job>] as [updateJob] receives it: an absent key leaves the
    column alone, a present key overwrites it (with [null] when the value
    is [None]). *)
Module Partial.
Record t := mk {
  status : option (option JobStatus);
  progress : option (option Z);
  currentStep : option (option string);
  errorMessage : option (option string);
}.

Definition field {A : Type} (upd : option (option A)) (old : option A) : option A :=
  match upd with
  | Some v => v
  | None => old
  end.

(** [{ ...row, ...updates }] *)
Definition apply (u : t) (j : Job.t) : Job.t :=
  Job.mk (Job.id j) (Job.userId j) (Job.documentId j)
         (field (status u) (Job.status j))
         (field (progress u) (Job.progress j))
         (field (currentStep u) (Job.currentStep j))
         (field (errorMessage u) (Job.errorMessage j)).
End Partial.

(* ===================================================================== *)
(** * Strings *)
(* ===================================================================== *)

(** The [String.prototype] methods the cookie parser uses.  A string is
    a sequence of one-byte characters. *)
Module JSString.

(** [s.split(sep)] for a one-character separator. *)
Fixpoint split (sep : ascii) (s : string) : list string :=
  match s with
  | EmptyString => [EmptyString]
  | String c rest =>
    match split sep rest with
    | [] => [EmptyString]
    | piece :: pieces =>
      if decide (c = sep) then EmptyString :: piece :: pieces
      else String c piece :: pieces
    end
  end.

(** [parts.join(sep)] *)
Definition join (sep : string) (parts : list string) : string :=
  String.concat sep parts.

(** The white space and line terminators [trim] removes, among the
    characters below 256 (Node hands a header over with one character for
    each byte): tab, line feed, vertical tab, form feed, carriage return,
    space and no-break space. *)
Definition isWhiteSpace (c : ascii) : bool :=
  bool_decide (c ∈ [" "; "009"; "010"; "011"; "012"; "013"; "160"]%char).

Fixpoint trimStart (s : string) : string :=
  match s with
  | EmptyString => EmptyString
  | String c rest => if isWhiteSpace c then trimStart rest else s
  end.

Definition trimEnd (s : string) : string :=
  String.rev (trimStart (String.rev s)).

Definition trim (s : string) : string := trimEnd (trimStart s).

(** [s.startsWith(p)] *)
Definition startsWith (p s : string) : bool := String.prefix p s.

(** [s.slice(n)] for [0 <= n] *)
Fixpoint sliceFrom (n : nat) (s : string) : string :=
  match n, s with
  | O, _ => s
  | S n', String _ rest => sliceFrom n' rest
  | S _, EmptyString => EmptyString
  end.

(** [s.slice(0, n)] for [0 <= n] *)
Fixpoint sliceTo (n : nat) (s : string) : string :=
  match n, s with
  | S n', String c rest => String c (sliceTo n' rest)
  | _, _ => EmptyString
  end.

(** [s.lastIndexOf(c)]: the greatest index of [c] in [s], or [-1]. *)
Fixpoint lastIndexOf (c : ascii) (s : string) : Z :=
  match s with
  | EmptyString => -1
  | String d rest =>
    let i := lastIndexOf c rest in
    if (0 <=? i)%Z then (i + 1)%Z
    else if decide (d = c) then 0%Z else (-1)%Z
  end.

(** [s.includes(p)] *)
Definition includes (p s : string) : bool :=
  match String.index 0 p s with
  | Some _ => true
  | None => false
  end.

End JSString.

(* ===================================================================== *)
(** * Computations that may throw *)
(* ===================================================================== *)

(** The outcome of running a handler: it returned a value, or it threw.
    [Thrown] keeps the [message] property of the thrown value ([None]
    when no handler reads it). *)
Inductive outcome (A : Type) :=
| Returned (a : A)
| Thrown (message : option string).
Arguments Returned {A} a.
Arguments Thrown {A} message.

(** A computation over a store of type [S]. *)
Definition Run (S A : Type) : Type := S → outcome A * S.

Section RunMonad.
Context {S : Type}.

Definition ret {A : Type} (a : A) : Run S A := λ w, (Returned a, w).

Definition bind {A B : Type} (m : Run S A) (k : A → Run S B) : Run S B :=
  λ w, match m w with
       | (Returned a, w') => k a w'
       | (Thrown e, w') => (Thrown e, w')
       end.

(** [throw new Error(message)] *)
Definition throw {A : Type} (message : option string) : Run S A :=
  λ w, (Thrown message, w).

(** [try { body } catch (error) { handler(error.message) }] *)
Definition try_catch {A : Type} (body : Run S A)
    (handler : option string → Run S A) : Run S A :=
  λ w, match body w with
       | (Returned a, w') => (Returned a, w')
       | (Thrown e, w') => handler e w'
       end.

Definition gets {A : Type} (f : S → A) : Run S A := λ w, (Returned (f w), w).

Definition modify (f : S → S) : Run S unit := λ w, (Returned tt, f w).

(** [xs.forEach(body)] *)
Fixpoint forEach {A : Type} (xs : list A) (body : A → Run S unit) : Run S unit :=
  match xs with
  | [] => ret tt
  | x :: rest => bind (body x) (λ _, forEach rest body)
  end.

(** The store a computation ends in, and its outcome. *)
Definition exec {A : Type} (m : Run S A) (w : S) : S := snd (m w).
Definition result {A : Type} (m : Run S A) (w : S) : outcome A := fst (m w).
End RunMonad.

#[global] Instance Run_ret {S : Type} : MRet (Run S) := @ret S.
#[global] Instance Run_bind {S : Type} : MBind (Run S) := λ A B k m, bind m k.

(* ===================================================================== *)
(** * The server's store *)
(* ===================================================================== *)

(** [WebSocket.readyState] *)
Inductive ReadyState := CONNECTING | OPEN | CLOSING | CLOSED.

#[global] Instance ReadyState_eq_dec : EqDecision ReadyState.
Proof. solve_decision. Defined.

(** [AuthenticatedWebSocket].  The three optional fields are the ones the
    interface adds; [readyState] is the transport's state and [sendThrows]
    says whether a call of [ws.send] on this socket raises. *)
Module Socket.
Record t := mk {
  userId : option string;
  isAuthenticated : option bool;
  sessionId : option string;
  readyState : ReadyState;
  sendThrows : bool;
}.
End Socket.

(** The messages the server writes to a socket (the objects it passes to
    [JSON.stringify]). *)
Inductive Message :=
| MError (message : string)
| MSubscribed (jobId : Z) (message : string)
| MUnsubscribed (jobId : Z) (message : string)
| MProgress (jobId : Z) (status : JobStatus) (progress : Z)
            (currentStep : string) (errorMessage : option string)
| MPong.

#[global] Instance Message_eq_dec : EqDecision Message.
Proof. solve_decision. Defined.

(** One call of [ws.send]: the socket, the message, and whether the call
    returned normally (the message went out) or raised. *)
Record SendEvent := mkSend {
  target : nat;
  payload : Message;
  delivered : bool;
}.

#[global] Instance SendEvent_eq_dec : EqDecision SendEvent.
Proof. solve_decision. Defined.

(** The storage calls that may fail (a database error). *)
Inductive DbOp :=
| OpGetJob (id : Z)
| OpGetDocument (id : Z)
| OpUpdateJob (id : Z).

(** A session record as the validator reads it:
    [sessionData.passport?.user], [user.claims.sub], [user.expires_at]. *)
Module Session.
Record Claims := mkClaims { sub : option string }.
Record User := mkUser { claims : option Claims; expires_at : option Z }.
Record Passport := mkPassport { user : option User }.
Record t := mk { passport : option Passport }.
End Session.

(** What [sessionStore.get(sessionId, callback)] does: it calls back with
    an error, calls back with the session (or with nothing, when there is
    none under this id), or raises before calling back. *)
Inductive StoreReply :=
| StoreError
| StoreSession (session : option Session.t)
| StoreRaises.

(** One update of the [jobs] table that went through: the id in its
    [where] clause, the columns it set, and how many calls of [ws.send]
    had been made when it ran, which is its place among the sends. *)
Module Write.
Record t := mk {
  jobId : Z;
  updates : Partial.t;
  sentBefore : nat;
}.
End Write.

(** The store.  Sockets are objects compared by identity: a socket is a
    handle ([nat]) into [sockets].  [subscriptions] is the field of
    [WebSocketService]: an object keyed by [jobId.toString()] whose values
    are sets of sockets.  [jobs] and [documents] are the tables behind
    [storage]; [dbFails] tells which storage calls raise.  [sessionStore]
    is the external session store and [clock] is [Date.now()], in
    milliseconds.  [wire] lists every call of [ws.send], oldest first, and
    [writes] every update of the [jobs] table that went through, oldest
    first: the two logs together give the order of the writes and the
    sends. *)
Record World := mkWorld {
  subscriptions : gmap string (list nat);
  sockets : nat → Socket.t;
  jobs : list Job.t;
  documents : list Document.t;
  dbFails : DbOp → bool;
  sessionStore : string → StoreReply;
  clock : Z;
  wire : list SendEvent;
  writes : list Write.t;
}.

Definition with_subscriptions (f : gmap string (list nat) → gmap string (list nat))
    (w : World) : World :=
  mkWorld (f (subscriptions w)) (sockets w) (jobs w) (documents w) (dbFails w)
          (sessionStore w) (clock w) (wire w) (writes w).

Definition with_jobs (f : list Job.t → list Job.t) (w : World) : World :=
  mkWorld (subscriptions w) (sockets w) (f (jobs w)) (documents w) (dbFails w)
          (sessionStore w) (clock w) (wire w) (writes w).

Definition with_wire (f : list SendEvent → list SendEvent) (w : World) : World :=
  mkWorld (subscriptions w) (sockets w) (jobs w) (documents w) (dbFails w)
          (sessionStore w) (clock w) (f (wire w)) (writes w).

Definition with_socket (ws : nat) (f : Socket.t → Socket.t) (w : World) : World :=
  mkWorld (subscriptions w)
          (λ h, if decide (h = ws) then f (sockets w h) else sockets w h)
          (jobs w) (documents w) (dbFails w) (sessionStore w) (clock w) (wire w)
          (writes w).

Definition with_writes (f : list Write.t → list Write.t) (w : World) : World :=
  mkWorld (subscriptions w) (sockets w) (jobs w) (documents w) (dbFails w)
          (sessionStore w) (clock w) (wire w) (f (writes w)).

(* ===================================================================== *)
(** * Storage ([server/storage.ts]) *)
(* ===================================================================== *)

Module Storage.

(** [select().from(jobs).where(eq(jobs.id, id))], first row. *)
Definition findJob (id : Z) (rows : list Job.t) : option Job.t :=
  head (filter (λ j, Job.id j = id) rows).

Definition findDocument (id : Z) (rows : list Document.t) : option Document.t :=
  head (filter (λ d, Document.id d = id) rows).

(** [update(jobs).set({...updates, updatedAt}).where(eq(jobs.id, id))],
    on the columns of [Job.t]. *)
Definition updateRows (id : Z) (updates : Partial.t) (rows : list Job.t) : list Job.t :=
  (λ j, if decide (Job.id j = id) then Partial.apply updates j else j) <$> rows.

Definition getJob (id : Z) : Run World (option Job.t) :=
  λ w, if dbFails w (OpGetJob id) then (Thrown None, w)
       else (Returned (findJob id (jobs w)), w).

Definition getDocument (id : Z) : Run World (option Document.t) :=
  λ w, if dbFails w (OpGetDocument id) then (Thrown None, w)
       else (Returned (findDocument id (documents w)), w).

(** Returns the first updated row ([undefined] when no row has this
    id: the statement updates nothing and does not raise).  A statement
    that went through is entered in [writes]. *)
Definition updateJob (id : Z) (updates : Partial.t) : Run World (option Job.t) :=
  λ w, if dbFails w (OpUpdateJob id) then (Thrown None, w)
       else let w' := with_writes (λ l, l ++ [Write.mk id updates (length (wire w))])
                        (with_jobs (updateRows id updates) w) in
            (Returned (findJob id (jobs w')), w').

End Storage.

(* ===================================================================== *)
(** * [WebSocketService] ([server/services/websocketService.ts]) *)
(* ===================================================================== *)

Module WebSocketService.

(** [ws.send(JSON.stringify(m))]: the call is recorded on the wire; it
    raises when the socket's transport refuses the write. *)
Definition send (ws : nat) (m : Message) : Run World unit :=
  λ w, let ok := negb (Socket.sendThrows (sockets w ws)) in
       (if ok then Returned tt else Thrown None,
        with_wire (λ l, l ++ [mkSend ws m ok]) w).

(** ** Session validation *)

(** [parseCookies]: the loop body, on one [;]-separated piece.  The
    map holds the own properties of the object [cookies], which starts as
    [{}]: the assignment [cookies[key] = value] makes or replaces an own
    property, except for the key [__proto__], where it calls the setter
    of [Object.prototype], which ignores a string.  The caller reads
    [connect.sid] only, a name [Object.prototype] does not have. *)
Definition parseCookie (cookies : gmap string string) (cookie : string)
    : gmap string string :=
  let parts := JSString.split "=" (JSString.trim cookie) in
  match parts with
  | key :: (_ :: _) as rest =>
    if String.eqb (JSString.trim key) "__proto__" then cookies
    else <[JSString.trim key := JSString.join "=" rest]> cookies
  | _ => cookies
  end.

Definition parseCookies (cookieHeader : string) : gmap string string :=
  if String.eqb cookieHeader "" then ∅
  else foldl parseCookie ∅ (JSString.split ";" cookieHeader).

Section Validator.
(** [decodeURIComponent], a built-in: [None] when it raises
    [URIError]. *)
Variable decodeURIComponent : string → option string.

Definition decodeSessionId (signedCookie : string) : option string :=
  if JSString.startsWith "s:" signedCookie then
    let unsigned := JSString.sliceFrom 2 signedCookie in
    let dotIndex := JSString.lastIndexOf "." unsigned in
    if (0 <? dotIndex)%Z then Some (JSString.sliceTo (Z.to_nat dotIndex) unsigned)
    else None
  else
    match decodeURIComponent signedCookie with
    | Some decoded =>
      if (0 <? String.length decoded)%nat then Some decoded else None
    | None => None
    end.

(** The promise around [sessionStore.get]: an error passed to the
    callback resolves it with [null]; a [get] that raises rejects
    it. *)
Definition getSessionData (sessionId : string) : Run World (option Session.t) :=
  reply ← gets (λ w, sessionStore w sessionId);
  match reply with
  | StoreError => ret None
  | StoreSession session => ret session
  | StoreRaises => throw None
  end.

(** [sessionData.passport?.user] *)
Definition sessionUser (sessionData : Session.t) : option Session.User :=
  Session.passport sessionData ≫= Session.user.

(** [user.claims.sub], when [user], [user.claims] and [user.claims.sub]
    are all truthy. *)
Definition principal (user : option Session.User) : option string :=
  match user with
  | Some u =>
    match Session.claims u with
    | Some c => if JS.truthy_str (Session.sub c) then Session.sub c else None
    | None => None
    end
  | None => None
  end.

(** [user.expires_at && now > user.expires_at] *)
Definition expired (now : Z) (u : Session.User) : bool :=
  JS.truthy_num (Session.expires_at u)
  && bool_decide (now > default 0 (Session.expires_at u))%Z.

(** [cookieHeader] is [req.headers.cookie], absent when the request
    carries no cookie. *)
Definition authenticateConnection (ws : nat) (cookieHeader : option string)
    : Run World bool :=
  try_catch
    (let cookies := parseCookies (JS.or_str cookieHeader "") in
     let sessionCookie := cookies !! "connect.sid" in
     if negb (JS.truthy_str sessionCookie) then ret false
     else
       let sessionId := decodeSessionId (default "" sessionCookie) in
       if negb (JS.truthy_str sessionId) then ret false
       else
         sessionData ← getSessionData (default "" sessionId);
         match sessionData with
         | None => ret false
         | Some sessionData =>
           let user := sessionUser sessionData in
           match user, principal user with
           | Some u, Some sub =>
             now ← gets (λ w, clock w `div` 1000)%Z;
             if expired now u then ret false
             else
               modify (with_socket ws (λ s,
                 Socket.mk (Some sub) (Some true) sessionId
                           (Socket.readyState s) (Socket.sendThrows s)));;
               ret true
           | _, _ => ret false
           end
         end)
    (λ _, ret false).
End Validator.

(** ** Subscriptions *)

Definition msg_auth_required : Message := MError "Authentication required".
Definition msg_job_not_found : Message := MError "Job not found".
Definition msg_unauthorized : Message :=
  MError "Unauthorized: You can only access your own jobs".
Definition msg_subscribe_failed : Message :=
  MError "Failed to subscribe to job updates".
Definition msg_unsubscribe_failed : Message :=
  MError "Failed to unsubscribe from job updates".
Definition msg_subscribed (jobId : Z) : Message :=
  MSubscribed jobId "Successfully subscribed to job updates".
Definition msg_unsubscribed (jobId : Z) : Message :=
  MUnsubscribed jobId "Successfully unsubscribed from job updates".

(** [!ws.isAuthenticated || !ws.userId] *)
Definition notAuthenticated (s : Socket.t) : bool :=
  negb (JS.truthy_bool (Socket.isAuthenticated s))
  || negb (JS.truthy_str (Socket.userId s)).

(** The [currentStatus] object of [handleSubscription]. *)
Definition currentStatus (job : Job.t) : Message :=
  MProgress (Job.id job)
            (default PENDING (Job.status job))
            (JS.or_num (Job.progress job) 0)
            (JS.or_str (Job.currentStep job) "Starting...")
            (JS.or_null (Job.errorMessage job)).

Definition handleSubscription (ws : nat) (jobId : Z) : Run World unit :=
  try_catch
    (sock ← gets (λ w, sockets w ws);
     if notAuthenticated sock then send ws msg_auth_required
     else
       job ← Storage.getJob jobId;
       match job with
       | None => send ws msg_job_not_found
       | Some job =>
         if bool_decide (Some (Job.userId job) ≠ Socket.userId sock)
         then send ws msg_unauthorized
         else
           let jobIdStr := JS.toString jobId in
           subs ← gets subscriptions;
           (if bool_decide (subs !! jobIdStr = None)
            then modify (with_subscriptions (<[jobIdStr := []]>))
            else ret tt);;
           subs ← gets subscriptions;
           match subs !! jobIdStr with
           | None => throw None
           | Some subscribers =>
             (if JS.set_has ws subscribers then ret tt
              else modify (with_subscriptions
                             (<[jobIdStr := JS.set_add ws subscribers]>)));;
             send ws (msg_subscribed jobId);;
             _ ← Storage.getDocument (Job.documentId job);
             send ws (currentStatus job)
           end
       end)
    (λ _, send ws msg_subscribe_failed).

Definition handleUnsubscription (ws : nat) (jobId : Z) : Run World unit :=
  try_catch
    (sock ← gets (λ w, sockets w ws);
     if notAuthenticated sock then send ws msg_auth_required
     else
       let jobIdStr := JS.toString jobId in
       subs ← gets subscriptions;
       match subs !! jobIdStr with
       | Some subscribers =>
         let subscribers' := JS.set_delete ws subscribers in
         modify (with_subscriptions (<[jobIdStr := subscribers']>));;
         (if bool_decide (JS.set_size subscribers' = 0)
          then modify (with_subscriptions (delete jobIdStr))
          else ret tt)
       | None => ret tt
       end;;
       send ws (msg_unsubscribed jobId))
    (λ _, send ws msg_unsubscribe_failed).

(** [Object.keys(this.subscriptions)]: the keys are fixed before the
    loop starts. *)
Definition Object_keys (subs : gmap string (list nat)) : list string :=
  (map_to_list subs).*1.

(** The body of the loop of [cleanupSubscriptions].  Reading a key that
    is not there yields [undefined], and [undefined.delete] raises. *)
Definition cleanupStep (ws : nat) (jobId : string) : Run World unit :=
  subs ← gets subscriptions;
  match subs !! jobId with
  | None => throw None
  | Some subscribers =>
    let subscribers' := JS.set_delete ws subscribers in
    modify (with_subscriptions (<[jobId := subscribers']>));;
    if bool_decide (JS.set_size subscribers' = 0)
    then modify (with_subscriptions (delete jobId))
    else ret tt
  end.

Definition cleanupSubscriptions (ws : nat) : Run World unit :=
  keys ← gets (λ w, Object_keys (subscriptions w));
  forEach keys (cleanupStep ws).

(** The delivery loop of [broadcastProgress]:
    [subscribers.forEach(ws => ...)], with the local set
    [deadConnections] threaded through. *)
Fixpoint deliver (message : Message) (subscribers : list nat)
    (deadConnections : list nat) : Run World (list nat) :=
  match subscribers with
  | [] => ret deadConnections
  | ws :: rest =>
    sock ← gets (λ w, sockets w ws);
    dead ← (if bool_decide (Socket.readyState sock = OPEN)
            then try_catch (send ws message;; ret deadConnections)
                           (λ _, ret (JS.set_add ws deadConnections))
            else ret (JS.set_add ws deadConnections));
    deliver message rest dead
  end.

(** [subscribers.delete(ws)] on the set stored under [jobIdStr]. *)
Definition prune (jobIdStr : string) (ws : nat) : Run World unit :=
  modify (with_subscriptions (alter (JS.set_delete ws) jobIdStr)).

Definition broadcastProgress (jobId : Z) (progress : Message) : Run World unit :=
  let jobIdStr := JS.toString jobId in
  subs ← gets subscriptions;
  match subs !! jobIdStr with
  | None => ret tt
  | Some subscribers =>
    if bool_decide (JS.set_size subscribers = 0) then ret tt
    else
      deadConnections ← deliver progress subscribers [];
      forEach deadConnections (prune jobIdStr);;
      subs ← gets subscriptions;
      match subs !! jobIdStr with
      | None => throw None
      | Some subscribers =>
        if bool_decide (JS.set_size subscribers = 0)
        then modify (with_subscriptions (delete jobIdStr))
        else ret tt
      end
  end.

Definition getSubscriberCount (jobId : Z) (w : World) : nat :=
  match subscriptions w !! JS.toString jobId with
  | Some subscribers => JS.set_size subscribers
  | None => 0
  end.

End WebSocketService.

(* ===================================================================== *)
(** * The pipeline ([server/jobs/videoProcessor.ts]) *)
(* ===================================================================== *)

Module VideoProcessor.

(** [error ? 'FAILED' : (progress === 100 ? 'COMPLETED' : 'PROCESSING')] *)
Definition statusOf (progress : Z) (error : option string) : JobStatus :=
  if JS.truthy_str error then FAILED
  else if bool_decide (progress = 100%Z) then COMPLETED else PROCESSING.

(** The object passed to [storage.updateJob]. *)
Definition progressFields (progress : Z) (currentStep : string)
    (error : option string) : Partial.t :=
  Partial.mk (Some (Some (statusOf progress error)))
             (Some (Some progress))
             (Some (Some currentStep))
             (Some (JS.or_null error)).

(** The object passed to [websocketService.broadcastProgress]. *)
Definition progressEvent (jobId progress : Z) (currentStep : string)
    (error : option string) : Message :=
  MProgress jobId (statusOf progress error) progress currentStep (JS.or_null error).

Definition updateJobProgress (jobId progress : Z) (currentStep : string)
    (error : option string) : Run World unit :=
  try_catch
    (_ ← Storage.updateJob jobId (progressFields progress currentStep error);
     WebSocketService.broadcastProgress jobId
       (progressEvent jobId progress currentStep error))
    (λ _, ret tt).

(** What the services called between two progress updates do, as far as
    the jobs table, the registry and the sockets go: they return, or one
    of them throws an error with this [message].  What they write
    themselves (the saved file, the content and status of the document's
    row, the user's hours) is state this development does not hold: of a
    document it keeps the key and the owner, which they leave alone. *)
Inductive Stage :=
| Passes
| Fails (message : option string).

Definition stage (s : Stage) : Run World unit :=
  match s with
  | Passes => ret tt
  | Fails message => throw message
  end.

(** The services [processVideo] calls, in the order of the source:
    video analysis with the hour-limit check, transcript extraction with
    the length check, content structuring, document generation, saving,
    the two database writes of step 6, and the write that marks the
    document as failed in the [catch] block. *)
Record Services := mkServices {
  analyze : Stage;
  transcript : Stage;
  structure : Stage;
  generate : Stage;
  save : Stage;
  finalize : Stage;
  markFailed : Stage;
}.

(** Returns the [success] field of the result. *)
Definition processVideo (env : Services) (jobId : Z) : Run World bool :=
  try_catch
    (updateJobProgress jobId 10 "Analyzing YouTube video..." None;;
     stage (analyze env);;
     updateJobProgress jobId 30 "Extracting video captions..." None;;
     stage (transcript env);;
     updateJobProgress jobId 60 "Structuring content with AI..." None;;
     stage (structure env);;
     updateJobProgress jobId 80 "Generating document..." None;;
     stage (generate env);;
     updateJobProgress jobId 90 "Saving document..." None;;
     stage (save env);;
     stage (finalize env);;
     updateJobProgress jobId 100 "Document created successfully!" None;;
     ret true)
    (λ message,
     stage (markFailed env);;
     updateJobProgress jobId 0 "Processing failed" message;;
     ret false).

End VideoProcessor.

(* ===================================================================== *)
(** * The client ([client/src/hooks/useSocket.ts]) *)
(* ===================================================================== *)

Module Client.

Inductive ConnectionState := disconnected | connecting | connected | authenticated.

#[global] Instance ConnectionState_eq_dec : EqDecision ConnectionState.
Proof. solve_decision. Defined.

(** The requests the client writes to its socket. *)
Inductive Request :=
| Subscribe (jobId : Z)
| Unsubscribe (jobId : Z).

#[global] Instance Request_eq_dec : EqDecision Request.
Proof. solve_decision. Defined.

(** The state of one [useSocket] instance.  [socket] is the React state
    of that name, with the [readyState] of the socket it holds;
    [pendingSubscriptions], [activeSubscriptions], [reconnectAttempts]
    and [connectionReady] are the refs.  [reconnectTimeout] and
    [subscriptionReadyTimeout] are the two timers: the delay of the
    timer that is armed, or [None].  [sendThrows] says whether a call of
    [send] on the socket raises, and [sent] lists the calls of [send],
    oldest first, each with whether it returned normally. *)
Record State := mkState {
  socket : option ReadyState;
  isConnected : bool;
  connectionState : ConnectionState;
  reconnectAttempts : nat;
  pendingSubscriptions : list Z;
  activeSubscriptions : list Z;
  connectionReady : bool;
  reconnectTimeout : option Z;
  subscriptionReadyTimeout : option Z;
  sendThrows : bool;
  sent : list (Request * bool);
}.

Definition maxReconnectAttempts : nat := 5.

Definition with_pending (f : list Z → list Z) (s : State) : State :=
  mkState (socket s) (isConnected s) (connectionState s) (reconnectAttempts s)
          (f (pendingSubscriptions s)) (activeSubscriptions s) (connectionReady s)
          (reconnectTimeout s) (subscriptionReadyTimeout s) (sendThrows s) (sent s).

Definition with_active (f : list Z → list Z) (s : State) : State :=
  mkState (socket s) (isConnected s) (connectionState s) (reconnectAttempts s)
          (pendingSubscriptions s) (f (activeSubscriptions s)) (connectionReady s)
          (reconnectTimeout s) (subscriptionReadyTimeout s) (sendThrows s) (sent s).

Definition with_sent (f : list (Request * bool) → list (Request * bool))
    (s : State) : State :=
  mkState (socket s) (isConnected s) (connectionState s) (reconnectAttempts s)
          (pendingSubscriptions s) (activeSubscriptions s) (connectionReady s)
          (reconnectTimeout s) (subscriptionReadyTimeout s) (sendThrows s) (f (sent s)).

(** [ws.send(JSON.stringify(r))] *)
Definition send (r : Request) : Run State unit :=
  λ s, let ok := negb (sendThrows s) in
       (if ok then Returned tt else Thrown None,
        with_sent (λ l, l ++ [(r, ok)]) s).

(** [Math.min(1000 * Math.pow(2, attempts), 30000)] *)
Definition reconnectDelay (attempts : nat) : Z :=
  Z.min (1000 * 2 ^ Z.of_nat attempts) 30000.

(** [connect()], up to the construction of the socket.  It runs on mount
    and when the reconnect timer fires, so no reconnect timer is armed
    once it has run. *)
Definition connect (s : State) : State :=
  mkState (socket s) (isConnected s) connecting (reconnectAttempts s)
          (pendingSubscriptions s) (activeSubscriptions s) (connectionReady s)
          None (subscriptionReadyTimeout s) (sendThrows s) (sent s).

(** [ws.onopen]: the settling timer is cleared and armed again. *)
Definition onopen (s : State) : State :=
  mkState (Some OPEN) true connected 0
          (pendingSubscriptions s) (activeSubscriptions s) (connectionReady s)
          (reconnectTimeout s) (Some 200%Z) (sendThrows s) (sent s).

(** The body of [allSubs.forEach] in the settling timer's callback. *)
Definition resubscribe (jobId : Z) : Run State unit :=
  try_catch (send (Subscribe jobId))
            (λ _, modify (with_pending (JS.set_add jobId))).

(** The callback of the settling timer. *)
Definition onSubscriptionReady : Run State unit :=
  modify (λ s,
    mkState (socket s) (isConnected s) authenticated (reconnectAttempts s)
            (pendingSubscriptions s) (activeSubscriptions s) true
            (reconnectTimeout s) None (sendThrows s) (sent s));;
  pendingSubs ← gets pendingSubscriptions;
  activeSubs ← gets activeSubscriptions;
  let allSubs := JS.set_of_list (pendingSubs ++ activeSubs) in
  modify (with_pending (λ _, []));;
  forEach allSubs resubscribe.

(** [ws.onmessage], on a payload that [JSON.parse] accepted (one it
    rejects is logged and dropped).  The registered handler of the
    message's type is the caller's and is not run here. *)
Definition onmessage (message : Message) (s : State) : State :=
  let s1 :=
    match message with
    | MSubscribed jobId _ =>
      if JS.truthy_num (Some jobId)
      then with_pending (JS.set_delete jobId) (with_active (JS.set_add jobId) s)
      else s
    | _ => s
    end in
  match message with
  | MError text =>
    if JSString.includes "Authentication" text
    then mkState (socket s1) (isConnected s1) disconnected (reconnectAttempts s1)
                 (pendingSubscriptions s1) (activeSubscriptions s1) false
                 (reconnectTimeout s1) (subscriptionReadyTimeout s1)
                 (sendThrows s1) (sent s1)
    else s1
  | _ => s1
  end.

(** [ws.onclose], for a close event with this [code]. *)
Definition onclose (code : Z) (s : State) : State :=
  let pending :=
    foldl (λ p jobId, JS.set_add jobId p) (pendingSubscriptions s)
          (activeSubscriptions s) in
  let retry :=
    bool_decide (code ≠ 1000%Z)
    && bool_decide (reconnectAttempts s < maxReconnectAttempts) in
  let attempts := if retry then S (reconnectAttempts s) else reconnectAttempts s in
  mkState None false disconnected attempts pending [] false
          (if retry then Some (reconnectDelay attempts) else reconnectTimeout s)
          None (sendThrows s) (sent s).

(** [socket && socket.readyState === WebSocket.OPEN] *)
Definition socketOpen (s : State) : bool :=
  bool_decide (socket s = Some OPEN).

Definition sendMessage (message : Request) : Run State bool :=
  s ← gets id;
  if socketOpen s && connectionReady s
  then send message;; ret true
  else ret false.

Definition subscribeToJob (jobId : Z) : Run State bool :=
  modify (with_active (JS.set_add jobId));;
  s ← gets id;
  if socketOpen s && connectionReady s
     && bool_decide (connectionState s = authenticated)
  then
    success ← sendMessage (Subscribe jobId);
    (if success : bool
     then modify (with_pending (JS.set_delete jobId))
     else modify (with_pending (JS.set_add jobId)));;
    ret success
  else
    modify (with_pending (JS.set_add jobId));;
    ret false.

Definition unsubscribeFromJob (jobId : Z) : Run State unit :=
  modify (with_active (JS.set_delete jobId));;
  modify (with_pending (JS.set_delete jobId));;
  s ← gets id;
  if socketOpen s && connectionReady s
  then _ ← sendMessage (Unsubscribe jobId); ret tt
  else ret tt.

Definition isSubscriptionPending (jobId : Z) (s : State) : bool :=
  JS.set_has jobId (pendingSubscriptions s).

Definition isSubscriptionActive (jobId : Z) (s : State) : bool :=
  JS.set_has jobId (activeSubscriptions s).

End Client.

(* ===================================================================== *)
(** * The connection's handlers ([setupConnectionHandlers]) *)
(* ===================================================================== *)

Module ConnectionHandlers.

(** What [JSON.parse(message.toString())] gives the message handler:
    it raises (also covers [null], on which reading [data.type] raises),
    or it yields a value whose [type] and [jobId] properties are read;
    a [jobId] that is present is a number. *)
Inductive Payload :=
| Unparseable
| Parsed (type : option string) (jobId : option Z).

Definition msg_invalid_format : Message := MError "Invalid message format".

(** [ws.on('message', ...)] *)
Definition onMessage (ws : nat) (message : Payload) : Run World unit :=
  try_catch
    (match message with
     | Unparseable => throw None
     | Parsed type jobId =>
       if bool_decide (type = Some "subscribe"%string) && JS.truthy_num jobId
       then WebSocketService.handleSubscription ws (default 0%Z jobId)
       else if bool_decide (type = Some "unsubscribe"%string) && JS.truthy_num jobId
       then WebSocketService.handleUnsubscription ws (default 0%Z jobId)
       else if bool_decide (type = Some "ping"%string)
       then WebSocketService.send ws MPong
       else ret tt
     end)
    (λ _, WebSocketService.send ws msg_invalid_format).

(** [ws.on('close', ...)] and [ws.on('error', ...)] *)
Definition onClose (ws : nat) : Run World unit :=
  WebSocketService.cleanupSubscriptions ws.

Definition onError (ws : nat) : Run World unit :=
  WebSocketService.cleanupSubscriptions ws.

(** [getAllSubscriptions]: the size of every subscriber set, by key. *)
Definition getAllSubscriptions (w : World) : gmap string nat :=
  foldl (λ result jobId,
           match subscriptions w !! jobId with
           | Some subscribers => <[jobId := JS.set_size subscribers]> result
           | None => result
           end)
        ∅ (WebSocketService.Object_keys (subscriptions w)).

End ConnectionHandlers.

(* ===================================================================== *)
(** * The HTTP side ([server/middleware/auth.ts], [server/routes.ts]) *)
(* ===================================================================== *)

Module AuthMiddleware.

(** What the middleware does with the request: it calls [next()], or it
    answers with a status and a message. *)
Inductive Outcome :=
| Next
| Status (code : Z) (message : string).

(** [requireAuth]; [user] is [req.user] and [clock] is [Date.now()]. *)
Definition requireAuth (user : option Session.User) (clock : Z) : Outcome :=
  match user with
  | None => Status 401 "Unauthorized"
  | Some u =>
    match Session.claims u with
    | None => Status 401 "Unauthorized"
    | Some _ =>
      let now := (clock `div` 1000)%Z in
      if JS.truthy_num (Session.expires_at u)
         && bool_decide (now > default 0 (Session.expires_at u))%Z
      then Status 401 "Token expired"
      else Next
    end
  end.

End AuthMiddleware.

Module Routes.

(** The body of the progress route's answer. *)
Record JobProgress := mkJobProgress {
  jobId : Z;
  status : option JobStatus;
  progress : option Z;
  currentStep : option string;
  errorMessage : option string;
  document : option Document.t;
}.

(** [res.json(...)] is status 200. *)
Inductive Response :=
| Ok (body : JobProgress)
| Error (code : Z) (error : option string).

(** [GET /api/jobs/:jobId/progress], for a request that carries a
    principal: [userId] is its [claims.sub], and [jobId] the number
    [parseInt] read from the path. *)
Definition getJobProgress (userId : option string) (jobId : Z) : Run World Response :=
  try_catch
    (job ← Storage.getJob jobId;
     match job with
     | None => ret (Error 404 (Some "Job not found"%string))
     | Some job =>
       if bool_decide (Some (Job.userId job) ≠ userId)
       then ret (Error 404 (Some "Job not found"%string))
       else
         document ← Storage.getDocument (Job.documentId job);
         ret (Ok (mkJobProgress (Job.id job) (Job.status job) (Job.progress job)
                                (Job.currentStep job) (Job.errorMessage job)
                                document))
     end)
    (λ message, ret (Error 500 message)).

End Routes.

(* ===================================================================== *)
(** * The progress display ([ProcessingSteps], [Processing]) *)
(* ===================================================================== *)

Module ProcessingSteps.

Record Step := mkStep {
  id : string;
  title : string;
  description : string;
  minProgress : Z;
}.

Definition steps : list Step :=
  [ mkStep "analyzing" "Video Analysis"
           "Extracting video metadata and validating content" 10;
    mkStep "extracting" "Transcript Extraction"
           "Downloading and processing video captions" 30;
    mkStep "structuring" "AI Content Structuring"
           "Analyzing content and creating chapters and sections" 60;
    mkStep "generating" "Document Generation"
           "Formatting and styling your final document" 80;
    mkStep "finalizing" "Final Review"
           "Quality check and document finalization" 90 ].

Inductive StepStatus := completed | active | pending.

#[global] Instance StepStatus_eq_dec : EqDecision StepStatus.
Proof. solve_decision. Defined.

(** [c.toLowerCase()] on a one-byte character: the letters [A] to [Z]. *)
Definition lowerChar (c : ascii) : ascii :=
  let n := nat_of_ascii c in
  if (65 <=? n)%nat && (n <=? 90)%nat then ascii_of_nat (n + 32) else c.

Fixpoint toLowerCase (s : string) : string :=
  match s with
  | EmptyString => EmptyString
  | String c rest => String (lowerChar c) (toLowerCase rest)
  end.

(** The test that makes a step the current one. *)
Definition isCurrent (currentStepLower : string) (step : Step) : bool :=
  JSString.includes (id step) currentStepLower
  || (String.eqb (id step) "analyzing" && JSString.includes "analyz" currentStepLower)
  || (String.eqb (id step) "extracting" && JSString.includes "extract" currentStepLower)
  || (String.eqb (id step) "structuring" && JSString.includes "structur" currentStepLower)
  || (String.eqb (id step) "generating" && JSString.includes "generat" currentStepLower)
  || (String.eqb (id step) "finalizing" && JSString.includes "final" currentStepLower).

(** [getStepStatus], with the component's props as arguments. *)
Definition getStepStatus (currentStep : option string) (progress : Z)
    (status : string) (errorMessage : option string) (step : Step) : StepStatus :=
  if String.eqb status "FAILED" && JS.truthy_str errorMessage
  then (if (minProgress step <=? progress)%Z then completed else pending)
  else if (100 <=? progress)%Z then completed
  else if (minProgress step <=? progress)%Z then completed
  else
    let currentStepLower := JS.or_str (toLowerCase <$> currentStep) "" in
    if isCurrent currentStepLower step then active else pending.

(** A status as it is written in a message. *)
Definition statusName (s : JobStatus) : string :=
  match s with
  | PENDING => "PENDING"
  | PROCESSING => "PROCESSING"
  | COMPLETED => "COMPLETED"
  | FAILED => "FAILED"
  end.

End ProcessingSteps.

(** ** The processing page ([client/src/pages/Processing.tsx]) *)

Module ProcessingPage.

(** The status the page shows for a step once a progress message is the
    job it renders: the props it passes to [ProcessingSteps] are
    [job?.currentStep], [job?.progress || 0], [job?.status || 'PENDING']
    and [job?.errorMessage]. *)
Definition stepStatus (m : Message) (step : ProcessingSteps.Step)
    : option ProcessingSteps.StepStatus :=
  match m with
  | MProgress _ status progress currentStep errorMessage =>
    Some (ProcessingSteps.getStepStatus (Some currentStep) (JS.or_num (Some progress) 0)
            (JS.or_str (Some (ProcessingSteps.statusName status)) "PENDING")
            errorMessage step)
  | _ => None
  end.

End ProcessingPage.

(* ===================================================================== *)
(** * Durations ([youtubeService.formatDuration], and the same function
      in [client/src/components/Processing/VideoInfo.tsx]) *)
(* ===================================================================== *)

Module VideoInfo.

(** [Math.floor(seconds / 3600)], [Math.floor((seconds % 3600) / 60)]
    and [seconds % 60], for a whole number of seconds (the column
    [video_duration] is an integer).  [%] takes the sign of the
    dividend. *)
Definition hours (seconds : Z) : Z := (seconds `div` 3600)%Z.
Definition minutes (seconds : Z) : Z := ((seconds `rem` 3600) `div` 60)%Z.
Definition secs (seconds : Z) : Z := (seconds `rem` 60)%Z.

Definition formatDuration (seconds : Z) : string :=
  if (0 <? hours seconds)%Z
  then JS.toString (hours seconds) ++ "h " ++ JS.toString (minutes seconds) ++ "m "
       ++ JS.toString (secs seconds) ++ "s"
  else if (0 <? minutes seconds)%Z
  then JS.toString (minutes seconds) ++ "m " ++ JS.toString (secs seconds) ++ "s"
  else JS.toString (secs seconds) ++ "s".

End VideoInfo.

(* ===================================================================== *)
(** * The hook's message handlers ([useSocket.onMessage]) *)
(* ===================================================================== *)

Module MessageHandlers.

(** The [type] field of a message of the server. *)
Definition messageType (m : Message) : string :=
  match m with
  | MError _ => "error"
  | MSubscribed _ _ => "subscribed"
  | MUnsubscribed _ _ => "unsubscribed"
  | MProgress _ _ _ _ _ => "progress"
  | MPong => "pong"
  end.

Section Registry.
(** The callbacks. *)
Context {Handler : Type}.

(** [messageHandlersRef.current], a [Map] from message types to
    callbacks. *)
Definition Registry : Type := gmap string Handler.

(** [onMessage(type, handler)]: the map after the call, and the cleanup
    function it returns. *)
Definition onMessage (type : string) (handler : Handler) (handlers : Registry)
    : Registry * (Registry → Registry) :=
  (<[type := handler]> handlers, delete type).

(** [onProgressUpdate(handler)] registers a wrapper of [handler] under
    ['progress']; the wrapper calls [handler] on a message of this
    type. *)
Definition onProgressUpdate (handler : Handler) (handlers : Registry)
    : Registry * (Registry → Registry) :=
  onMessage "progress" handler handlers.

(** The callback [ws.onmessage] calls for a message, if any. *)
Definition handlerFor (m : Message) (handlers : Registry) : option Handler :=
  handlers !! messageType m.
End Registry.

End MessageHandlers.

(* ===================================================================== *)
(** * Vocabulary of the properties, and the scenarios they are run on *)
(* ===================================================================== *)

(** The connection [ws] carries the identity of user [U], as
    [authenticateConnection] leaves it. *)
Definition authenticatedAs (w : World) (ws : nat) (U : string) : Prop :=
  Socket.isAuthenticated (sockets w ws) = Some true
  ∧ Socket.userId (sockets w ws) = Some U
  ∧ U ≠ ""%string.

(** The subscriber set of a job (empty when the registry has no entry). *)
Definition subscribersOf (jobId : Z) (w : World) : list nat :=
  default [] (subscriptions w !! JS.toString jobId).

(** The transport of [ws] is open, the test of [broadcastProgress]. *)
Definition transportOpen (w : World) (ws : nat) : Prop :=
  Socket.readyState (sockets w ws) = OPEN.

(** A message written to [ws] goes out: the transport is open and
    [send] returns. *)
Definition deliverable (w : World) (ws : nat) : Prop :=
  Socket.readyState (sockets w ws) = OPEN
  ∧ Socket.sendThrows (sockets w ws) = false.

(** What one pass of [cleanupSubscriptions] for [ws] leaves of a
    subscriber set: the set without [ws], or no entry when that is
    empty. *)
Definition withoutSocket (ws : nat) (subscribers : list nat) : option (list nat) :=
  let subscribers' := JS.set_delete ws subscribers in
  if bool_decide (JS.set_size subscribers' = 0) then None else Some subscribers'.

#[global] Instance deliverable_dec w ws : Decision (deliverable w ws).
Proof. unfold deliverable. apply _. Defined.

#[global] Instance transportOpen_dec w ws : Decision (transportOpen w ws).
Proof. unfold transportOpen. apply _. Defined.

(** The store with another registry and a longer wire. *)
Definition rewire (subs : gmap string (list nat)) (events : list SendEvent)
    (w : World) : World :=
  mkWorld subs (sockets w) (jobs w) (documents w) (dbFails w)
          (sessionStore w) (clock w) (wire w ++ events) (writes w).

(** The sockets the delivery loop of [broadcastProgress] marks dead,
    starting from [dead]. *)
Definition marked (w : World) (subscribers dead : list nat) : list nat :=
  foldl (λ d ws, if decide (deliverable w ws) then d else JS.set_add ws d)
        dead subscribers.

(** The calls of [send] the delivery loop makes: one for each subscriber
    whose transport is open, in the order of the set. *)
Definition attempts (w : World) (message : Message) (subscribers : list nat)
    : list SendEvent :=
  (λ ws, mkSend ws message (negb (Socket.sendThrows (sockets w ws))))
    <$> filter (transportOpen w) subscribers.

(** The store [updateJob] leaves when the write of a progress update
    succeeds. *)
Definition persisted (jobId progress : Z) (currentStep : string)
    (error : option string) (w : World) : World :=
  let fields := VideoProcessor.progressFields progress currentStep error in
  with_writes (λ l, l ++ [Write.mk jobId fields (length (wire w))])
              (with_jobs (Storage.updateRows jobId fields) w).

(** The columns a progress message reports, as an update of the job's
    row. *)
Definition eventFields (m : Message) : option Partial.t :=
  match m with
  | MProgress _ status progress currentStep errorMessage =>
    Some (Partial.mk (Some (Some status)) (Some (Some progress))
                     (Some (Some currentStep)) (Some errorMessage))
  | _ => None
  end.

(** What the row of a job holds when the send number [sends] of the
    wire (counted from 0) is made: the columns set by the last write to
    this row that ran before this send. *)
Definition storedAt (log : list Write.t) (jobId : Z) (sends : nat) : option Partial.t :=
  Write.updates
    <$> last (filter (λ write, Write.jobId write = jobId ∧ Write.sentBefore write ≤ sends)
                     log).

(** A progress update as [processVideo] issues it: the arguments of
    [updateJobProgress] after the job id. *)
Definition Update : Type := Z * string * option string.

Definition updateStatus (u : Update) : JobStatus :=
  VideoProcessor.statusOf u.1.1 u.2.

Definition runUpdate (jobId : Z) (w : World) (u : Update) : World :=
  exec (VideoProcessor.updateJobProgress jobId u.1.1 u.1.2 u.2) w.

(** The progress updates of one run of [processVideo], read off its
    text: a stage that fails cuts the run short, and the update of the
    [catch] block follows unless marking the document fails first. *)
Definition progressUpdates (env : VideoProcessor.Services) : list Update :=
  let failed (message : option string) : list Update :=
    match VideoProcessor.markFailed env with
    | VideoProcessor.Passes => [(0%Z, "Processing failed"%string, message)]
    | VideoProcessor.Fails _ => []
    end in
  let after (s : VideoProcessor.Stage) (rest : list Update) : list Update :=
    match s with
    | VideoProcessor.Passes => rest
    | VideoProcessor.Fails message => failed message
    end in
  (10%Z, "Analyzing YouTube video..."%string, None) ::
  after (VideoProcessor.analyze env)
    ((30%Z, "Extracting video captions..."%string, None) ::
     after (VideoProcessor.transcript env)
       ((60%Z, "Structuring content with AI..."%string, None) ::
        after (VideoProcessor.structure env)
          ((80%Z, "Generating document..."%string, None) ::
           after (VideoProcessor.generate env)
             ((90%Z, "Saving document..."%string, None) ::
              after (VideoProcessor.save env)
                (after (VideoProcessor.finalize env)
                   [(100%Z, "Document created successfully!"%string, None)]))))).

(** The expiry test passes: there is no timestamp, or it is [0] (which
    the test takes for absent), or it is not before [now]. *)
Definition notExpired (now : Z) (u : Session.User) : Prop :=
  Session.expires_at u = None
  ∨ Session.expires_at u = Some 0%Z
  ∨ ∃ e, Session.expires_at u = Some e ∧ (now ≤ e)%Z.

(** What a verified identity rests on: the cookie header holds a
    non-empty session cookie, the cookie decodes to a session id, the
    store has a session under this id, the session holds a principal with
    a user id, and the principal's expiry test passes. *)
Definition Validated (decodeURIComponent : string → option string) (w : World)
    (cookieHeader : option string) (userId sessionId : string) : Prop :=
  ∃ cookie session user,
    WebSocketService.parseCookies (JS.or_str cookieHeader "") !! "connect.sid"%string
      = Some cookie
    ∧ cookie ≠ ""%string
    ∧ WebSocketService.decodeSessionId decodeURIComponent cookie = Some sessionId
    ∧ sessionId ≠ ""%string
    ∧ sessionStore w sessionId = StoreSession (Some session)
    ∧ WebSocketService.sessionUser session = Some user
    ∧ WebSocketService.principal (Some user) = Some userId
    ∧ notExpired (clock w `div` 1000)%Z user.

(** The client holds job id [j] in one of its two sets. *)
Definition tracked (j : Z) (s : Client.State) : Prop :=
  j ∈ Client.pendingSubscriptions s ∨ j ∈ Client.activeSubscriptions s.

(** No job id is in both of the client's sets. *)
Definition exclusive (s : Client.State) : Prop :=
  ∀ j, ¬ (j ∈ Client.pendingSubscriptions s ∧ j ∈ Client.activeSubscriptions s).

(** The requests a handler has added to the client's log. *)
Definition subscribeRequests (s : Client.State) (jobIds : list Z)
    : list (Client.Request * bool) :=
  (λ j, (Client.Subscribe j, negb (Client.sendThrows s))) <$> jobIds.

Module Scenario.

Definition alice : Socket.t :=
  Socket.mk (Some "alice"%string) (Some true) (Some "sid-a"%string) OPEN false.

Definition bob : Socket.t :=
  Socket.mk (Some "bob"%string) (Some true) (Some "sid-b"%string) OPEN false.

Definition gone : Socket.t :=
  Socket.mk (Some "alice"%string) (Some true) (Some "sid-c"%string) CLOSED false.

(** Sockets 1 and 3 are Alice's (3 has closed), every other one is
    Bob's. *)
Definition sockets (h : nat) : Socket.t :=
  match h with
  | 1 => alice
  | 3 => gone
  | _ => bob
  end.

(** Job 7 is Alice's and under way; job 42 is Bob's and has no field
    set yet. *)
Definition job7 : Job.t :=
  Job.mk 7 "alice" 70 (Some PROCESSING) (Some 60%Z)
         (Some "Structuring content with AI..."%string) None.

Definition job42 : Job.t := Job.mk 42 "bob" 420 None None None None.

Definition noFault (_ : DbOp) : bool := false.

(** The fetch of document 70 fails, nothing else does. *)
Definition documentFault (op : DbOp) : bool :=
  match op with
  | OpGetDocument 70 => true
  | _ => false
  end.

Definition noSession (_ : string) : StoreReply := StoreSession None.

Definition world (subs : gmap string (list nat)) (faults : DbOp → bool) : World :=
  mkWorld subs sockets [job7; job42] [Document.mk 70 "alice"; Document.mk 420 "bob"]
          faults noSession 1700000000000 [] [].

(** Nobody has subscribed yet. *)
Definition fresh : World := world ∅ noFault.

(** Alice's socket 1 is already among the subscribers of Bob's job 42
    (the job changed hands after she subscribed). *)
Definition handedOver : World := world {[ "42"%string := [1] ]} noFault.

(** Document 70 cannot be fetched. *)
Definition documentDown : World := world ∅ documentFault.

(** Job 7 has one live and one closed subscriber, job 42 a live one. *)
Definition crowded : World :=
  world {[ "7"%string := [1; 3]; "42"%string := [2] ]} noFault.

(** Job 7 is finished and socket 1 follows it. *)
Definition finished : World :=
  mkWorld {[ "7"%string := [1] ]} sockets
          [Job.mk 7 "alice" 70 (Some COMPLETED) (Some 100%Z)
                  (Some "Document created successfully!"%string) None]
          [Document.mk 70 "alice"] noFault noSession 1700000000000 [] [].

(** A session store with one session, ["abc"]: Alice's, with an expiry
    timestamp of 0 (1 January 1970). *)
Definition epochUser : Session.User :=
  Session.mkUser (Some (Session.mkClaims (Some "alice"%string))) (Some 0%Z).

Definition epochStore (sessionId : string) : StoreReply :=
  if String.eqb sessionId "abc"
  then StoreSession (Some (Session.mk (Some (Session.mkPassport (Some epochUser)))))
  else StoreSession None.

(** The clock reads 14 November 2023. *)
Definition epochWorld : World :=
  mkWorld ∅ sockets [] [] noFault epochStore 1700000000000 [] [].

Definition epochCookie : option string :=
  Some "theme=dark; connect.sid=s:abc.c2lnbmF0dXJl"%string.

(** A session store with one session, ["live"]: Alice's, good until
    2027; the store fails on the id ["down"]. *)
Definition liveUser : Session.User :=
  Session.mkUser (Some (Session.mkClaims (Some "alice"%string))) (Some 1800000000%Z).

Definition liveStore (sessionId : string) : StoreReply :=
  if String.eqb sessionId "live"
  then StoreSession (Some (Session.mk (Some (Session.mkPassport (Some liveUser)))))
  else if String.eqb sessionId "down" then StoreError
  else StoreSession None.

Definition liveWorld : World :=
  mkWorld ∅ sockets [] [] noFault liveStore 1700000000000 [] [].

Definition liveCookie : option string :=
  Some "connect.sid=s:live.c2lnbmF0dXJl; theme=dark"%string.

Definition downCookie : option string := Some "connect.sid=s:down.c2lnbmF0dXJl"%string.

(** Nothing is percent-encoded in the scenarios. *)
Definition plainDecode (s : string) : option string := Some s.

(** A client that has just mounted: nothing connected, nothing
    subscribed. *)
Definition mounted : Client.State :=
  Client.mkState None false Client.disconnected 0 [] [] false None None false [].

(** A client in the authenticated state that follows jobs 7 and 9. *)
Definition following : Client.State :=
  Client.mkState (Some OPEN) true Client.authenticated 0 [] [7; 9]%Z true None None
                 false [].

End Scenario.

(* ===================================================================== *)
(** * Further vocabulary *)
(* ===================================================================== *)

(** The registry holds no empty set, and no set holds a socket twice. *)
Definition wellFormed (subs : gmap string (list nat)) : Prop :=
  ∀ key subscribers, subs !! key = Some subscribers →
                     subscribers ≠ [] ∧ NoDup subscribers.

(** What [handleUnsubscription] leaves of the registry for a socket that
    passes its authentication test. *)
Definition unsubscribed (ws : nat) (jobId : Z) (subs : gmap string (list nat))
    : gmap string (list nat) :=
  match subs !! JS.toString jobId with
  | Some subscribers =>
    match withoutSocket ws subscribers with
    | Some subscribers' => <[JS.toString jobId := subscribers']> subs
    | None => delete (JS.toString jobId) subs
    end
  | None => subs
  end.

(** The calls of [send] a handler has added to the wire. *)
Definition emitted (w w' : World) : list SendEvent :=
  drop (length (wire w)) (wire w').

(** The client behind socket [ws] takes in the messages that went out to
    it, in order. *)
Definition receive (ws : nat) (events : list SendEvent) (s : Client.State)
    : Client.State :=
  foldl (λ s e, if delivered e && bool_decide (target e = ws)
                then Client.onmessage (payload e) s else s)
        s events.

(** One reconnect: the close handler, the reconnect timer, the open
    handler and the settling timer, in this order. *)
Definition reconnectCycle (code : Z) (s : Client.State) : Client.State :=
  exec Client.onSubscriptionReady (Client.onopen (Client.connect (Client.onclose code s))).

(** The job ids of the subscribe requests in a log. *)
Definition subscribeIds (log : list (Client.Request * bool)) : list Z :=
  omap (λ e, match e.1 with
             | Client.Subscribe j => Some j
             | Client.Unsubscribe _ => None
             end) log.

(** The event of a progress update. *)
Definition updateEvent (jobId : Z) (u : Update) : Message :=
  VideoProcessor.progressEvent jobId u.1.1 u.1.2 u.2.

(** No stage of the pipeline fails. *)
Definition allPass (env : VideoProcessor.Services) : Prop :=
  VideoProcessor.analyze env = VideoProcessor.Passes
  ∧ VideoProcessor.transcript env = VideoProcessor.Passes
  ∧ VideoProcessor.structure env = VideoProcessor.Passes
  ∧ VideoProcessor.generate env = VideoProcessor.Passes
  ∧ VideoProcessor.save env = VideoProcessor.Passes
  ∧ VideoProcessor.finalize env = VideoProcessor.Passes.

(** The message of the first stage that fails, in the order in which
    [processVideo] runs the stages. *)
Definition firstFailure (env : VideoProcessor.Services) : option (option string) :=
  let next (s : VideoProcessor.Stage) (rest : option (option string)) :=
    match s with
    | VideoProcessor.Passes => rest
    | VideoProcessor.Fails message => Some message
    end in
  next (VideoProcessor.analyze env)
    (next (VideoProcessor.transcript env)
       (next (VideoProcessor.structure env)
          (next (VideoProcessor.generate env)
             (next (VideoProcessor.save env)
                (next (VideoProcessor.finalize env) None))))).

(** Text that can stand in a cookie pair: no [;] and no white space. *)
Definition cookieText (s : string) : Prop :=
  Forall (λ c, c ≠ ";"%char ∧ JSString.isWhiteSpace c = false) (list_ascii_of_string s).

(** What happens to the server once connections are set up: a message
    comes in on a connection, a connection closes or fails, or the
    pipeline reports progress for a job.  Each handler runs to its end
    before the next event is taken. *)
Inductive ServerEvent :=
| Incoming (ws : nat) (message : ConnectionHandlers.Payload)
| Closed (ws : nat)
| Failed (ws : nat)
| Reported (jobId progress : Z) (currentStep : string) (error : option string).

Definition serverStep (e : ServerEvent) : Run World unit :=
  match e with
  | Incoming ws message => ConnectionHandlers.onMessage ws message
  | Closed ws => ConnectionHandlers.onClose ws
  | Failed ws => ConnectionHandlers.onError ws
  | Reported jobId progress currentStep error =>
    VideoProcessor.updateJobProgress jobId progress currentStep error
  end.

Definition serverRun (events : list ServerEvent) (w : World) : World :=
  foldl (λ w e, exec (serverStep e) w) w events.

(** The connection passes the authentication test, and the job is
    stored under the connection's user id. *)
Definition ownerOf (w : World) (ws : nat) (jobId : Z) : Prop :=
  WebSocketService.notAuthenticated (sockets w ws) = false
  ∧ ∃ job, Storage.findJob jobId (jobs w) = Some job
           ∧ Socket.userId (sockets w ws) = Some (Job.userId job).

(** Every subscriber of a job is a connection of the job's owner. *)
Definition ownersOnly (w : World) : Prop :=
  ∀ jobId ws, ws ∈ subscribersOf jobId w → ownerOf w ws jobId.

(** The job a message reports progress for. *)
Definition progressFor (m : Message) : option Z :=
  match m with
  | MProgress jobId _ _ _ _ => Some jobId
  | _ => None
  end.

(** A step of the server that leaves the sockets and the owners of the
    stored jobs alone, adds no subscriber but connections of a job's
    owner, and sends progress for a job only to its subscribers and to
    connections of its owner. *)
Definition guarded (w w' : World) : Prop :=
  sockets w' = sockets w
  ∧ (∀ id, Job.userId <$> Storage.findJob id (jobs w')
           = Job.userId <$> Storage.findJob id (jobs w))
  ∧ (∀ jobId ws, ws ∈ subscribersOf jobId w' →
                 ws ∈ subscribersOf jobId w ∨ ownerOf w ws jobId)
  ∧ ∃ new, wire w' = wire w ++ new
           ∧ ∀ e jobId, e ∈ new → progressFor (payload e) = Some jobId →
                        target e ∈ subscribersOf jobId w ∨ ownerOf w (target e) jobId.

(** The reconnect timer fires and the new socket closes without having
    opened. *)
Definition failedReconnect (code : Z) (s : Client.State) : Client.State :=
  Client.onclose code (Client.connect s).
(* ===================================================================== *)
(** * Properties of the subscription manager *)
(* ===================================================================== *)

Ltac run_unfold :=
  unfold exec, result, try_catch, mbind, Run_bind, bind, gets, modify, ret, throw,
    mret, Run_ret in *.

Section SubscriptionManager.
Import WebSocketService.

Lemma authenticatedAs_check w ws U :
  authenticatedAs w ws U → notAuthenticated (sockets w ws) = false.
Proof.
  intros (Ha & Hu & Hne). unfold notAuthenticated. rewrite Ha, Hu. simpl.
  by destruct (String.eqb_spec U "").
Qed.

Lemma findJob_id jobId rows job :
  Storage.findJob jobId rows = Some job → Job.id job = jobId.
Proof.
  unfold Storage.findJob. intros H.
  apply head_Some_elem_of in H. by apply list_elem_of_filter in H as [? _].
Qed.

Lemma set_add_has {A} `{EqDecision A} (x : A) (s : list A) :
  JS.set_has x (JS.set_add x s) = true.
Proof.
  unfold JS.set_has at 1. apply bool_decide_eq_true.
  unfold JS.set_add, JS.set_has. case_bool_decide; set_solver.
Qed.

Lemma set_add_id {A} `{EqDecision A} (x : A) (s : list A) :
  JS.set_has x s = true → JS.set_add x s = s.
Proof. unfold JS.set_add. by intros ->. Qed.

Lemma set_add_size {A} `{EqDecision A} (x : A) (s : list A) :
  JS.set_size (JS.set_add x s) ≤ S (JS.set_size s).
Proof.
  unfold JS.set_add, JS.set_size. case_match; [lia|].
  rewrite length_app. simpl. lia.
Qed.

(** The handler touches the registry and the wire only. *)
Lemma handleSubscription_frame ws jobId w :
  let w' := exec (handleSubscription ws jobId) w in
  sockets w' = sockets w ∧ jobs w' = jobs w ∧ documents w' = documents w
  ∧ dbFails w' = dbFails w.
Proof.
  unfold handleSubscription, Storage.getJob, Storage.getDocument, send.
  run_unfold. simpl.
  repeat (case_match; simpl in *; simplify_eq; try done).
Qed.

(** The run of the handler for the owner of a stored job: the
    connection is in the subscriber set afterwards, whatever happens to
    the confirmation and to the snapshot. *)
Lemma handleSubscription_owner ws jobId U job w :
  authenticatedAs w ws U →
  dbFails w (OpGetJob jobId) = false →
  Storage.findJob jobId (jobs w) = Some job →
  Job.userId job = U →
  let w' := exec (handleSubscription ws jobId) w in
  let raises := Socket.sendThrows (sockets w ws) in
  let fetchFails := dbFails w (OpGetDocument (Job.documentId job)) in
  subscriptions w'
    = <[JS.toString jobId := JS.set_add ws (subscribersOf jobId w)]> (subscriptions w)
  ∧ wire w' = wire w ++
      (if raises
       then [mkSend ws (msg_subscribed jobId) false; mkSend ws msg_subscribe_failed false]
       else if fetchFails
       then [mkSend ws (msg_subscribed jobId) true; mkSend ws msg_subscribe_failed true]
       else [mkSend ws (msg_subscribed jobId) true; mkSend ws (currentStatus job) true])
  ∧ result (handleSubscription ws jobId) w
      = (if raises then Thrown None else Returned tt).
Proof.
  intros Hauth Hdb Hjob Hown w' raises fetchFails. subst w' raises fetchFails.
  pose proof (authenticatedAs_check _ _ _ Hauth) as Hchk.
  destruct Hauth as (_ & Hu & _).
  unfold handleSubscription, Storage.getJob, Storage.getDocument, send, subscribersOf.
  run_unfold. simpl.
  rewrite Hchk, Hdb, Hjob.
  rewrite bool_decide_false by (rewrite Hu, Hown; intros ?; done).
  destruct (subscriptions w !! JS.toString jobId) as [subscribers|] eqn:Hsub; simpl.
  - rewrite Hsub.
    destruct (JS.set_has ws subscribers) eqn:Hhas; simpl.
    + rewrite (set_add_id _ _ Hhas), (insert_id _ _ _ Hsub).
      destruct (Socket.sendThrows (sockets w ws)) eqn:Hs; simpl;
        [|destruct (dbFails w (OpGetDocument _)); simpl];
        rewrite ?Hs; simpl; by rewrite <- ?app_assoc.
    + destruct (Socket.sendThrows (sockets w ws)) eqn:Hs; simpl;
        [|destruct (dbFails w (OpGetDocument _)); simpl];
        rewrite ?Hs; simpl; by rewrite <- ?app_assoc.
  - rewrite lookup_insert_eq. simpl.
    destruct (Socket.sendThrows (sockets w ws)) eqn:Hs; simpl;
      [|destruct (dbFails w (OpGetDocument _)); simpl];
      rewrite ?Hs; simpl; by rewrite ?insert_insert_eq, <- ?app_assoc.
Qed.


(** C1.  A subscribe request for a stored job that belongs to another
    user is answered with the authorization error, and the registry is
    left as it was: the connection is not inserted.  The comparison is
    made on the job as it is stored now, in every store, also one in
    which the connection is already among the job's subscribers.  ([raises]
    tells whether the socket refuses the write; the handler then tries to
    report the failure and the request ends there.) *)
Theorem subscribe_foreign_job_rejected ws jobId U job w :
  authenticatedAs w ws U →
  dbFails w (OpGetJob jobId) = false →
  Storage.findJob jobId (jobs w) = Some job →
  Job.userId job ≠ U →
  let w' := exec (handleSubscription ws jobId) w in
  let raises := Socket.sendThrows (sockets w ws) in
  subscriptions w' = subscriptions w
  ∧ wire w' = wire w ++ mkSend ws msg_unauthorized (negb raises)
                     :: (if raises then [mkSend ws msg_subscribe_failed false] else [])
  ∧ (raises = false → result (handleSubscription ws jobId) w = Returned tt).
Proof.
  intros Hauth Hdb Hjob Hown w' raises. subst w' raises.
  pose proof (authenticatedAs_check _ _ _ Hauth) as Hchk.
  destruct Hauth as (_ & Hu & _).
  unfold handleSubscription, Storage.getJob, send. run_unfold.
  rewrite Hchk, Hdb, Hjob.
  rewrite bool_decide_true by (rewrite Hu; congruence).
  destruct (Socket.sendThrows (sockets w ws)) eqn:Hs; simpl.
  - rewrite Hs. simpl. by rewrite <- app_assoc.
  - done.
Qed.

(** Alice's socket, already a subscriber of job 42, asks again once the
    job is Bob's: she gets the error and the set is the same. *)
Lemma subscribe_foreign_job_rejected_witness :
  let w' := exec (handleSubscription 1 42) Scenario.handedOver in
  subscriptions w' = subscriptions Scenario.handedOver
  ∧ wire w' = [mkSend 1 msg_unauthorized true]
  ∧ (false = false → result (handleSubscription 1 42) Scenario.handedOver = Returned tt).
Proof.
  apply (subscribe_foreign_job_rejected 1 42 "alice" Scenario.job42 Scenario.handedOver).
  - repeat split; done.
  - reflexivity.
  - reflexivity.
  - discriminate.
Defined.

(** C2, as stated, fails when the fetch of the job's document fails: the
    owner of job 7 is confirmed and then told of a failure, and no
    snapshot is written. *)
Lemma subscribe_snapshot_counterexample :
  authenticatedAs Scenario.documentDown 1 "alice"
  ∧ Storage.findJob 7 (jobs Scenario.documentDown) = Some Scenario.job7
  ∧ Job.userId Scenario.job7 = "alice"%string
  ∧ wire (exec (handleSubscription 1 7) Scenario.documentDown)
    = [mkSend 1 (msg_subscribed 7) true; mkSend 1 msg_subscribe_failed true]
  ∧ mkSend 1 (currentStatus Scenario.job7) true
    ∉ wire (exec (handleSubscription 1 7) Scenario.documentDown).
Proof.
  split; [repeat split; done|].
  split; [reflexivity|]. split; [reflexivity|].
  split; [reflexivity|].
  vm_compute. intros H. repeat (apply elem_of_cons in H as [H|H]; [discriminate|]).
  by apply elem_of_nil in H.
Qed.

(** C2, amended.  When the owner of a stored job subscribes, the
    connection is a subscriber afterwards, the job's set has grown by at
    most one, and the registry is unchanged if the connection was a
    subscriber already; a second request right after the first leaves the
    registry as the first left it.  If moreover the socket accepts the
    writes and the fetch of the job's document succeeds, each of the two
    requests writes the confirmation and, right after it, a snapshot of
    the stored job: its status, progress, step and error, with [PENDING],
    [0] and ["Starting..."] in place of a status, progress or step that is
    null or empty. *)
Theorem subscribe_owner_idempotent ws jobId U job w :
  authenticatedAs w ws U →
  dbFails w (OpGetJob jobId) = false →
  Storage.findJob jobId (jobs w) = Some job →
  Job.userId job = U →
  let w1 := exec (handleSubscription ws jobId) w in
  let w2 := exec (handleSubscription ws jobId) w1 in
  let snapshot :=
    MProgress jobId (default PENDING (Job.status job))
              (JS.or_num (Job.progress job) 0)
              (JS.or_str (Job.currentStep job) "Starting...")
              (JS.or_null (Job.errorMessage job)) in
  let replies := [mkSend ws (msg_subscribed jobId) true; mkSend ws snapshot true] in
  subscriptions w1
  = <[JS.toString jobId := JS.set_add ws (subscribersOf jobId w)]> (subscriptions w)
  ∧ JS.set_has ws (subscribersOf jobId w1) = true
  ∧ JS.set_size (subscribersOf jobId w1) ≤ S (JS.set_size (subscribersOf jobId w))
  ∧ (JS.set_has ws (subscribersOf jobId w) = true
     → subscriptions w1 = subscriptions w)
  ∧ subscriptions w2 = subscriptions w1
  ∧ JS.set_size (subscribersOf jobId w2) ≤ S (JS.set_size (subscribersOf jobId w))
  ∧ (Socket.sendThrows (sockets w ws) = false →
     dbFails w (OpGetDocument (Job.documentId job)) = false →
     wire w1 = wire w ++ replies
     ∧ wire w2 = wire w1 ++ replies
     ∧ result (handleSubscription ws jobId) w = Returned tt
     ∧ result (handleSubscription ws jobId) w1 = Returned tt).
Proof.
  intros Hauth Hdb Hjob Hown w1 w2 snapshot replies.
  destruct (handleSubscription_owner ws jobId U job w Hauth Hdb Hjob Hown)
    as (Hsub1 & Hwire1 & Hres1).
  destruct (handleSubscription_frame ws jobId w) as (Hsk & Hjb & Hdc & Hfl).
  fold w1 in Hsub1, Hwire1, Hsk, Hjb, Hdc, Hfl.
  assert (Hauth1 : authenticatedAs w1 ws U) by (unfold authenticatedAs; by rewrite Hsk).
  assert (Hdb1 : dbFails w1 (OpGetJob jobId) = false) by (by rewrite Hfl).
  assert (Hjob1 : Storage.findJob jobId (jobs w1) = Some job) by (by rewrite Hjb).
  destruct (handleSubscription_owner ws jobId U job w1 Hauth1 Hdb1 Hjob1 Hown)
    as (Hsub2 & Hwire2 & Hres2).
  fold w2 in Hsub2, Hwire2.
  assert (Hsnap : currentStatus job = snapshot).
  { unfold currentStatus, snapshot. by rewrite (findJob_id _ _ _ Hjob). }
  assert (Hset1 : subscribersOf jobId w1 = JS.set_add ws (subscribersOf jobId w)).
  { unfold subscribersOf at 1. by rewrite Hsub1, lookup_insert_eq. }
  assert (Hhas1 : JS.set_has ws (subscribersOf jobId w1) = true).
  { rewrite Hset1. apply set_add_has. }
  assert (Hsame : subscriptions w2 = subscriptions w1).
  { rewrite Hsub2, (set_add_id _ _ Hhas1). apply insert_id.
    by rewrite Hset1, Hsub1, lookup_insert_eq. }
  split; [done|]. split; [done|].
  split; [rewrite Hset1; apply set_add_size|].
  split.
  { intros Hin. rewrite Hsub1, (set_add_id _ _ Hin). apply insert_id.
    unfold subscribersOf in *. destruct (subscriptions w !! JS.toString jobId); [done|].
    by vm_compute in Hin. }
  split; [done|]. split.
  { unfold subscribersOf at 1. rewrite Hsame. fold (subscribersOf jobId w1).
    rewrite Hset1. apply set_add_size. }
  intros Hsend Hdoc.
  rewrite Hsk, Hfl, Hsend, Hdoc, Hsnap in Hwire2. rewrite Hsk, Hsend in Hres2.
  rewrite Hsend, Hdoc, Hsnap in Hwire1. rewrite Hsend in Hres1.
  done.
Qed.

(** Alice subscribes twice to her job 7, stored as [PROCESSING] at 60. *)
Lemma subscribe_owner_idempotent_witness :
  let w1 := exec (handleSubscription 1 7) Scenario.fresh in
  let w2 := exec (handleSubscription 1 7) w1 in
  let replies :=
    [mkSend 1 (msg_subscribed 7) true;
     mkSend 1 (MProgress 7 PROCESSING 60 "Structuring content with AI..." None) true] in
  wire w1 = replies
  ∧ wire w2 = replies ++ replies
  ∧ subscriptions w1 = {[ "7"%string := [1] ]}
  ∧ subscriptions w2 = subscriptions w1.
Proof.
  pose proof (subscribe_owner_idempotent 1 7 "alice" Scenario.job7 Scenario.fresh) as H.
  simpl in H.
  destruct H as (H3 & _ & _ & _ & H4 & _ & Hwire);
    [repeat split; done|reflexivity..|].
  destruct Hwire as (H1 & H2 & _); [reflexivity..|].
  split; [exact H1|]. split; [rewrite H2, H1; reflexivity|].
  split; [rewrite H3; reflexivity|exact H4].
Defined.

(** C10.  When the owner of a stored job subscribes and the fetch of the
    job's document fails (the fetch is reached: the socket took the
    confirmation), the connection has been inserted and stays inserted,
    it has received the confirmation, and it then receives the error
    message in place of the snapshot; the handler returns. *)
Theorem subscribe_not_rolled_back ws jobId U job w :
  authenticatedAs w ws U →
  dbFails w (OpGetJob jobId) = false →
  Storage.findJob jobId (jobs w) = Some job →
  Job.userId job = U →
  Socket.sendThrows (sockets w ws) = false →
  dbFails w (OpGetDocument (Job.documentId job)) = true →
  let w' := exec (handleSubscription ws jobId) w in
  JS.set_has ws (subscribersOf jobId w') = true
  ∧ subscriptions w'
    = <[JS.toString jobId := JS.set_add ws (subscribersOf jobId w)]> (subscriptions w)
  ∧ wire w' = wire w ++ [mkSend ws (msg_subscribed jobId) true;
                          mkSend ws msg_subscribe_failed true]
  ∧ result (handleSubscription ws jobId) w = Returned tt.
Proof.
  intros Hauth Hdb Hjob Hown Hsend Hdoc w'.
  destruct (handleSubscription_owner ws jobId U job w Hauth Hdb Hjob Hown)
    as (Hsub & Hwire & Hres).
  fold w' in Hsub, Hwire. rewrite Hsend, Hdoc in Hwire. rewrite Hsend in Hres.
  repeat split; try done.
  unfold subscribersOf at 1. rewrite Hsub, lookup_insert_eq. apply set_add_has.
Qed.

(** Alice subscribes to job 7 while document 70 cannot be fetched. *)
Lemma subscribe_not_rolled_back_witness :
  let w' := exec (handleSubscription 1 7) Scenario.documentDown in
  JS.set_has 1 (subscribersOf 7 w') = true
  ∧ subscriptions w' = <[ "7"%string := [1] ]> ∅
  ∧ wire w' = [mkSend 1 (msg_subscribed 7) true; mkSend 1 msg_subscribe_failed true]
  ∧ result (handleSubscription 1 7) Scenario.documentDown = Returned tt.
Proof.
  apply (subscribe_not_rolled_back 1 7 "alice" Scenario.job7 Scenario.documentDown).
  - repeat split; done.
  - reflexivity.
  - reflexivity.
  - reflexivity.
  - reflexivity.
  - reflexivity.
Defined.

End SubscriptionManager.

(* ===================================================================== *)
(** * Properties of the registry and of the broadcast *)
(* ===================================================================== *)

Section Registry.
Import WebSocketService.

Lemma rewire_rewire subs1 subs2 ev1 ev2 w :
  rewire subs2 ev2 (rewire subs1 ev1 w) = rewire subs2 (ev1 ++ ev2) w.
Proof. unfold rewire. simpl. by rewrite app_assoc. Qed.

Lemma rewire_id w : rewire (subscriptions w) [] w = w.
Proof. destruct w. unfold rewire. simpl. by rewrite app_nil_r. Qed.

#[local] Arguments marked : simpl never.
#[local] Arguments attempts : simpl never.

(** The delivery loop writes to the wire and to nothing else: it leaves
    the registry alone, and it returns. *)
Lemma deliver_spec message subscribers dead w :
  deliver message subscribers dead w
  = (Returned (marked w subscribers dead),
     rewire (subscriptions w) (attempts w message subscribers) w).
Proof.
  revert dead w. induction subscribers as [|ws rest IH]; intros dead w.
  - simpl. unfold attempts. simpl. by rewrite rewire_id.
  - change (marked w (ws :: rest) dead)
      with (marked w rest (if decide (deliverable w ws) then dead
                           else JS.set_add ws dead)).
    cbn [deliver]. unfold send. run_unfold. cbn beta.
    unfold attempts.
    destruct (decide (deliverable w ws)) as [[Ho Hs]|Hnd].
    + rewrite filter_cons_True; [|exact Ho].
      rewrite bool_decide_true by done. rewrite Hs. simpl.
      rewrite IH. unfold rewire, attempts. simpl. rewrite Hs, <- app_assoc.
      reflexivity.
    + destruct (decide (Socket.readyState (sockets w ws) = OPEN)) as [Ho|Hc].
      * rewrite filter_cons_True; [|exact Ho].
        rewrite bool_decide_true by done.
        destruct (Socket.sendThrows (sockets w ws)) eqn:Hs;
          [|exfalso; by apply Hnd].
        simpl. rewrite IH. unfold rewire, attempts. simpl.
        rewrite Hs, <- app_assoc. unfold marked.
        destruct (decide (deliverable w ws)); [done|reflexivity].
      * rewrite filter_cons_False; [|exact Hc].
        rewrite bool_decide_false by done. by rewrite IH.
Qed.

Lemma elem_of_set_add {A} `{EqDecision A} (x y : A) (s : list A) :
  y ∈ JS.set_add x s ↔ y = x ∨ y ∈ s.
Proof. unfold JS.set_add, JS.set_has. case_bool_decide; set_solver. Qed.

Lemma elem_of_set_delete {A} `{EqDecision A} (x y : A) (s : list A) :
  y ∈ JS.set_delete x s ↔ y ≠ x ∧ y ∈ s.
Proof. unfold JS.set_delete. by rewrite list_elem_of_filter. Qed.

Lemma elem_of_marked w subscribers dead ws :
  ws ∈ marked w subscribers dead
  ↔ ws ∈ dead ∨ (ws ∈ subscribers ∧ ¬ deliverable w ws).
Proof.
  unfold marked. revert dead. induction subscribers as [|c rest IH]; intros dead; simpl.
  - set_solver.
  - rewrite IH. destruct (decide (deliverable w c)).
    + set_solver.
    + rewrite elem_of_set_add. set_solver.
Qed.

(** Removing a list of sockets from a set, one [delete] at a time. *)
Lemma foldl_set_delete (dead s : list nat) :
  foldl (λ acc ws, JS.set_delete ws acc) s dead = filter (λ ws, ws ∉ dead) s.
Proof.
  revert s. induction dead as [|d rest IH]; intros s; simpl.
  - induction s as [|x s IHs]; [done|].
    rewrite filter_cons_True by set_solver. by rewrite <- IHs.
  - rewrite IH. unfold JS.set_delete. rewrite list_filter_filter.
    apply list_filter_iff. intros x. set_solver.
Qed.

Lemma forEach_prune key dead w :
  forEach dead (prune key) w
  = (Returned tt,
     rewire (alter (λ s, foldl (λ acc ws, JS.set_delete ws acc) s dead) key
                   (subscriptions w)) [] w).
Proof.
  revert w. induction dead as [|d rest IH]; intros w; simpl.
  - unfold ret. f_equal. rewrite <- (rewire_id w) at 1. f_equal.
    apply map_eq. intros k. rewrite lookup_alter.
    case_decide; subst; by destruct (subscriptions w !! _).
  - unfold prune at 1. run_unfold. rewrite IH. f_equal.
    unfold rewire. simpl. f_equal.
    apply map_eq. intros k. rewrite !lookup_alter.
    repeat case_decide; subst; try done. by destruct (subscriptions w !! _).
Qed.

Lemma filter_ext_elem {A} (P Q : A → Prop) `{∀ x, Decision (P x)}
    `{∀ x, Decision (Q x)} (l : list A) :
  (∀ x, x ∈ l → (P x ↔ Q x)) → filter P l = filter Q l.
Proof.
  induction l as [|x l IH]; intros Hl; [done|].
  assert (Hx : P x ↔ Q x) by (apply Hl; left).
  assert (Hrest : filter P l = filter Q l) by (apply IH; intros y Hy; apply Hl; by right).
  destruct (decide (P x)) as [HP|HP].
  - rewrite !filter_cons_True by tauto. by rewrite Hrest.
  - rewrite !filter_cons_False by tauto. done.
Qed.

Lemma pruned_is_live w (subscribers : list nat) :
  filter (λ ws, ws ∉ marked w subscribers []) subscribers
  = filter (deliverable w) subscribers.
Proof.
  apply filter_ext_elem. intros ws Hin.
  rewrite elem_of_marked. split.
  - intros Hnot. destruct (decide (deliverable w ws)); [done|].
    exfalso. apply Hnot. by right.
  - intros Hd [Hnil|[_ Hnd]]; [by apply elem_of_nil in Hnil|done].
Qed.

(** A sweep over any part of the subscriber set leaves the [jobs] table
    alone. *)
Lemma deliver_jobs message subscribers dead w :
  jobs (exec (deliver message subscribers dead) w) = jobs w.
Proof. unfold exec. by rewrite deliver_spec. Qed.

(** The whole run of [broadcastProgress]. *)
Lemma broadcastProgress_spec jobId (event : Message) w :
  broadcastProgress jobId event w
  = (Returned tt,
     match subscriptions w !! JS.toString jobId with
     | None => w
     | Some [] => w
     | Some subscribers =>
       rewire (match filter (deliverable w) subscribers with
               | [] => delete (JS.toString jobId) (subscriptions w)
               | live => <[JS.toString jobId := live]> (subscriptions w)
               end)
              (attempts w event subscribers) w
     end).
Proof.
  unfold broadcastProgress. set (key := JS.toString jobId). run_unfold. simpl.
  destruct (subscriptions w !! key) as [subscribers|] eqn:Hsub; [|done].
  destruct subscribers as [|c rest]; [done|].
  set (subscribers := c :: rest) in *.
  rewrite bool_decide_false by done.
  rewrite deliver_spec. simpl.
  rewrite forEach_prune. simpl.
  rewrite lookup_alter, decide_True by done. rewrite Hsub. simpl.
  rewrite foldl_set_delete, pruned_is_live.
  unfold JS.set_size.
  destruct (filter (deliverable w) subscribers) as [|l ls] eqn:Hlive; simpl.
  - unfold rewire, with_subscriptions. simpl. rewrite app_nil_r. do 2 f_equal.
    apply map_eq. intros k. rewrite lookup_delete.
    case_decide; subst; [by rewrite lookup_delete_eq|].
    by rewrite lookup_delete_ne, lookup_alter_ne.
  - unfold rewire. simpl. rewrite app_nil_r. do 2 f_equal.
    apply map_eq. intros k. rewrite lookup_alter, lookup_insert.
    case_decide; subst; [|done].
    rewrite Hsub. simpl. by rewrite foldl_set_delete, pruned_is_live, Hlive.
Qed.

(** C3.  [broadcastProgress] always returns.  With no subscriber set
    for the job it leaves the store as it is: no entry appears.  Otherwise
    it calls [send] once on every subscriber whose transport is open, in
    the order of the set; the delivery loop marks the subscribers that are
    not open or whose [send] raised and does not touch the registry; after
    the loop the marked ones are removed, so that the live subscribers
    remain, and the entry is deleted when none remains. *)
Theorem broadcast_delivers_and_prunes jobId (event : Message) w :
  let key := JS.toString jobId in
  let w' := exec (broadcastProgress jobId event) w in
  result (broadcastProgress jobId event) w = Returned tt
  ∧ match subscriptions w !! key with
    | None => w' = w
    | Some [] => w' = w
    | Some subscribers =>
      let sweep := deliver event subscribers [] in
      let live := filter (deliverable w) subscribers in
      (∃ dead, result sweep w = Returned dead
               ∧ ∀ ws, ws ∈ dead ↔ ws ∈ subscribers ∧ ¬ deliverable w ws)
      ∧ subscriptions (exec sweep w) = subscriptions w
      ∧ wire (exec sweep w) = wire w ++ attempts w event subscribers
      ∧ wire w' = wire w ++ attempts w event subscribers
      ∧ subscriptions w'
        = match live with
          | [] => delete key (subscriptions w)
          | _ => <[key := live]> (subscriptions w)
          end
    end.
Proof.
  intros key w'. subst key w'. unfold exec, result.
  rewrite broadcastProgress_spec. simpl. split; [done|].
  destruct (subscriptions w !! JS.toString jobId) as [[|c rest]|]; [done| |done].
  rewrite deliver_spec. simpl. split.
  { exists (marked w (c :: rest) []). split; [done|].
    intros ws. rewrite elem_of_marked. split.
    - intros [Hnil|?]; [by apply elem_of_nil in Hnil|done].
    - by right. }
  repeat split; try done.
  by destruct (filter (deliverable w) (c :: rest)).
Qed.

(** Job 7 has the subscribers 1 (open) and 3 (closed): the event goes
    to 1, and 3 is removed; job 42 is not concerned. *)
Lemma broadcast_delivers_and_prunes_witness :
  let event := MProgress 7 COMPLETED 100 "Document created successfully!" None in
  let w' := exec (broadcastProgress 7 event) Scenario.crowded in
  result (broadcastProgress 7 event) Scenario.crowded = Returned tt
  ∧ wire w' = [mkSend 1 event true]
  ∧ subscriptions w' = <[ "7"%string := [1] ]> (subscriptions Scenario.crowded).
Proof.
  intros event w'.
  destruct (broadcast_delivers_and_prunes 7 event Scenario.crowded) as [Hres Hrun].
  change (subscriptions Scenario.crowded !! JS.toString 7) with (Some [1; 3]) in Hrun.
  destruct Hrun as (_ & _ & _ & Hwire & Hsubs).
  split; [exact Hres|]. split; [exact Hwire|exact Hsubs].
Defined.

(** One step of the cleanup loop, on a key the registry holds. *)
Lemma cleanupStep_spec ws key subscribers w :
  subscriptions w !! key = Some subscribers →
  cleanupStep ws key w
  = (Returned tt,
     rewire (match withoutSocket ws subscribers with
             | Some s => <[key := s]> (subscriptions w)
             | None => delete key (subscriptions w)
             end) [] w).
Proof.
  intros Hsub. unfold cleanupStep, withoutSocket. run_unfold. rewrite Hsub.
  case_bool_decide; simpl; unfold rewire, with_subscriptions; simpl;
    rewrite app_nil_r; [|done].
  by rewrite delete_insert_eq.
Qed.

(** The cleanup loop over keys the registry holds, each once: every
    step returns, and the visited entries are replaced by what
    [withoutSocket] leaves of them. *)
Lemma forEach_cleanup ws keys w :
  NoDup keys →
  (∀ k, k ∈ keys → is_Some (subscriptions w !! k)) →
  ∃ subs',
    forEach keys (cleanupStep ws) w = (Returned tt, rewire subs' [] w)
    ∧ ∀ k, subs' !! k = if decide (k ∈ keys)
                        then subscriptions w !! k ≫= withoutSocket ws
                        else subscriptions w !! k.
Proof.
  revert w. induction keys as [|key rest IH]; intros w Hnd Hkeys.
  - exists (subscriptions w). split; [by rewrite rewire_id|].
    intros k. by rewrite decide_False by set_solver.
  - apply NoDup_cons in Hnd as [Hfresh Hnd].
    destruct (Hkeys key) as [subscribers Hsub]; [left|].
    cbn [forEach]. unfold bind. rewrite (cleanupStep_spec _ _ _ _ Hsub).
    set (subs1 := match withoutSocket ws subscribers with
                  | Some s => <[key := s]> (subscriptions w)
                  | None => delete key (subscriptions w)
                  end).
    assert (Hother : ∀ k, k ≠ key → subs1 !! k = subscriptions w !! k).
    { intros k Hk. unfold subs1. destruct (withoutSocket ws subscribers).
      - by rewrite lookup_insert_ne.
      - by rewrite lookup_delete_ne. }
    assert (Hkey : subs1 !! key = withoutSocket ws subscribers).
    { unfold subs1. destruct (withoutSocket ws subscribers).
      - by rewrite lookup_insert_eq.
      - by rewrite lookup_delete_eq. }
    destruct (IH (rewire subs1 [] w) Hnd) as (subs' & Hrun & Hlook).
    { intros k Hk. simpl. rewrite Hother by (intros ->; done).
      apply Hkeys. by right. }
    exists subs'. split.
    + rewrite Hrun. by rewrite rewire_rewire.
    + intros k. rewrite Hlook. simpl.
      destruct (decide (k = key)) as [->|Hne].
      * rewrite decide_False by done. rewrite decide_True by left.
        by rewrite Hkey, Hsub.
      * rewrite Hother by done.
        destruct (decide (k ∈ rest)).
        ** by rewrite decide_True by (by right).
        ** rewrite decide_False; [done|]. set_solver.
Qed.

Lemma cleanupSubscriptions_spec ws w :
  cleanupSubscriptions ws w
  = (Returned tt, rewire (omap (withoutSocket ws) (subscriptions w)) [] w).
Proof.
  unfold cleanupSubscriptions, Object_keys. run_unfold.
  destruct (forEach_cleanup ws (map_to_list (subscriptions w)).*1 w)
    as (subs' & Hrun & Hlook).
  { apply NoDup_fst_map_to_list. }
  { intros k Hk. apply list_elem_of_fmap in Hk as ([k' s] & -> & Hin).
    apply elem_of_map_to_list in Hin. by exists s. }
  rewrite Hrun. do 2 f_equal.
  apply map_eq. intros k. rewrite Hlook, lookup_omap.
  case_decide as Hin; [done|].
  destruct (subscriptions w !! k) as [s|] eqn:Hk; [|done].
  exfalso. apply Hin. apply list_elem_of_fmap. exists (k, s).
  split; [done|]. by apply elem_of_map_to_list.
Qed.

Lemma withoutSocket_again ws (s s' : list nat) :
  withoutSocket ws s = Some s' → withoutSocket ws s' = Some s'.
Proof.
  unfold withoutSocket, JS.set_size. case_bool_decide as Hlen; [done|].
  intros [= <-].
  assert (Hidem : JS.set_delete ws (JS.set_delete ws s) = JS.set_delete ws s).
  { unfold JS.set_delete. rewrite list_filter_filter.
    apply list_filter_iff. tauto. }
  rewrite Hidem. by rewrite bool_decide_false.
Qed.

(** C4.  [cleanupSubscriptions] returns; afterwards the connection is in
    no subscriber set and no job id maps to an empty set; running it again
    for the same connection leaves the store exactly as it is. *)
Theorem cleanup_removes_everywhere ws w :
  let w' := exec (cleanupSubscriptions ws) w in
  result (cleanupSubscriptions ws) w = Returned tt
  ∧ (∀ key subscribers,
       subscriptions w' !! key = Some subscribers →
       (ws ∉ subscribers) ∧ (subscribers ≠ []))
  ∧ exec (cleanupSubscriptions ws) w' = w'
  ∧ result (cleanupSubscriptions ws) w' = Returned tt.
Proof.
  intros w'. subst w'. unfold exec, result.
  rewrite !cleanupSubscriptions_spec. simpl.
  split; [done|]. split.
  - intros key subscribers. rewrite lookup_omap.
    destruct (subscriptions w !! key) as [s|]; [|done]. simpl.
    unfold withoutSocket, JS.set_size. case_bool_decide as Hlen; [done|].
    intros [= <-]. split.
    + rewrite elem_of_set_delete. tauto.
    + intros Hnil. by rewrite Hnil in Hlen.
  - split; [|done]. unfold rewire. simpl. rewrite !app_nil_r. f_equal.
    apply map_eq. intros key. rewrite !lookup_omap.
    destruct (subscriptions w !! key) as [s|]; [|done]. simpl.
    destruct (withoutSocket ws s) as [s'|] eqn:Hs; [|done]. simpl.
    by apply (withoutSocket_again ws s).
Qed.

(** Socket 2 is the only subscriber of job 42: its cleanup returns and
    is final. *)
Lemma cleanup_removes_everywhere_witness :
  let w' := exec (cleanupSubscriptions 2) Scenario.crowded in
  result (cleanupSubscriptions 2) Scenario.crowded = Returned tt
  ∧ exec (cleanupSubscriptions 2) w' = w'.
Proof.
  destruct (cleanup_removes_everywhere 2 Scenario.crowded) as (Hres & _ & Hagain & _).
  split; [exact Hres|exact Hagain].
Defined.

End Registry.

(* ===================================================================== *)
(** * Properties of the pipeline's progress updates *)
(* ===================================================================== *)

Section Pipeline.
Import WebSocketService VideoProcessor.

Lemma findJob_updateRows jobId updates rows :
  Storage.findJob jobId (Storage.updateRows jobId updates rows)
  = Partial.apply updates <$> Storage.findJob jobId rows.
Proof.
  unfold Storage.findJob, Storage.updateRows.
  induction rows as [|row rows IH]; [done|].
  rewrite fmap_cons. destruct (decide (Job.id row = jobId)) as [Hid|Hid].
  - rewrite !filter_cons_True; [done|done|]. by destruct row.
  - by rewrite !filter_cons_False.
Qed.

(** The whole run of [updateJobProgress]: it always returns; when the
    write fails nothing else happens, and otherwise the broadcast runs on
    the store the write left. *)
Lemma updateJobProgress_spec jobId progress currentStep error w :
  updateJobProgress jobId progress currentStep error w
  = (Returned tt,
     if dbFails w (OpUpdateJob jobId) then w
     else exec (broadcastProgress jobId (progressEvent jobId progress currentStep error))
               (persisted jobId progress currentStep error w)).
Proof.
  unfold updateJobProgress, Storage.updateJob, persisted, exec. run_unfold.
  destruct (dbFails w (OpUpdateJob jobId)); [done|].
  by rewrite broadcastProgress_spec.
Qed.

Lemma broadcastProgress_jobs jobId event w :
  jobs (exec (broadcastProgress jobId event) w) = jobs w.
Proof.
  unfold exec. rewrite broadcastProgress_spec. simpl.
  by destruct (subscriptions w !! JS.toString jobId) as [[|c rest]|].
Qed.

(** The write that precedes a send is the one the store reports at that
    send. *)
Lemma storedAt_last (log : list Write.t) jobId (fields : Partial.t) (stamp sends : nat) :
  stamp ≤ sends →
  storedAt (log ++ [Write.mk jobId fields stamp]) jobId sends = Some fields.
Proof.
  intros Hle. unfold storedAt. rewrite filter_app.
  rewrite (filter_cons_True _ (Write.mk jobId fields stamp)) by done.
  rewrite filter_nil. by rewrite last_snoc.
Qed.

(** C5.  [updateJobProgress] always returns.  If the write to storage
    fails, the store is unchanged: nothing is broadcast.  Otherwise the
    call makes one write to the job's row, with the status, progress, step
    and error of the event, and this write runs before the first [send] of
    the call: it is entered in the log of writes at the length the wire
    had when the call began.  Every [send] of the call carries the event,
    once for each subscriber with an open transport, and at each of them
    the last write to the row is this one, so the stored job already
    holds what the event reports.  Nothing else is written to the table. *)
Theorem persist_then_broadcast jobId progress currentStep error w :
  let event := progressEvent jobId progress currentStep error in
  let fields := progressFields progress currentStep error in
  let run := updateJobProgress jobId progress currentStep error in
  let w' := exec run w in
  result run w = Returned tt
  ∧ (if dbFails w (OpUpdateJob jobId)
     then w' = w
     else
       writes w' = writes w ++ [Write.mk jobId fields (length (wire w))]
       ∧ wire w' = wire w ++ attempts w event (subscribersOf jobId w)
       ∧ jobs w' = Storage.updateRows jobId fields (jobs w)
       ∧ eventFields event = Some fields
       ∧ (∀ i e, length (wire w) ≤ i → wire w' !! i = Some e →
                 payload e = event ∧ storedAt (writes w') jobId i = Some fields)
       ∧ match Storage.findJob jobId (jobs w) with
         | Some job =>
           ∃ job', Storage.findJob jobId (jobs w') = Some job'
                   ∧ Job.status job' = Some (statusOf progress error)
                   ∧ Job.progress job' = Some progress
                   ∧ Job.currentStep job' = Some currentStep
                   ∧ Job.errorMessage job' = JS.or_null error
                   ∧ event = MProgress (Job.id job') (statusOf progress error)
                                       progress currentStep (JS.or_null error)
         | None => jobs w' = jobs w
         end).
Proof.
  intros event fields run w'.
  pose proof (updateJobProgress_spec jobId progress currentStep error w) as Hspec.
  fold run event in Hspec.
  assert (Hres : result run w = Returned tt) by (unfold result; by rewrite Hspec).
  assert (Hexec : w' = if dbFails w (OpUpdateJob jobId) then w
                       else exec (broadcastProgress jobId event)
                                 (persisted jobId progress currentStep error w))
    by (unfold w', exec at 1; by rewrite Hspec).
  split; [done|].
  destruct (dbFails w (OpUpdateJob jobId)) eqn:Hdb; [done|].
  set (stored := persisted jobId progress currentStep error w) in *.
  assert (Hwrites : writes w' = writes w ++ [Write.mk jobId fields (length (wire w))]).
  { rewrite Hexec. unfold exec. rewrite broadcastProgress_spec. simpl.
    by destruct (subscriptions w !! JS.toString jobId) as [[|c rest]|]. }
  assert (Hwire : wire w' = wire w ++ attempts w event (subscribersOf jobId w)).
  { rewrite Hexec. unfold exec. rewrite broadcastProgress_spec. simpl.
    unfold subscribersOf.
    destruct (subscriptions w !! JS.toString jobId) as [[|c rest]|]; simpl;
      unfold attempts; by rewrite ?app_nil_r. }
  assert (Hjobs : jobs w' = Storage.updateRows jobId fields (jobs w)).
  { rewrite Hexec. by rewrite broadcastProgress_jobs. }
  split; [exact Hwrites|]. split; [exact Hwire|]. split; [exact Hjobs|].
  split; [done|]. split.
  - intros i e Hi He. split.
    + rewrite Hwire in He. rewrite lookup_app_r in He by done.
      apply list_elem_of_lookup_2 in He. unfold attempts in He.
      by apply list_elem_of_fmap in He as (ws & -> & _).
    + rewrite Hwrites. by apply storedAt_last.
  - rewrite Hjobs, findJob_updateRows.
    destruct (Storage.findJob jobId (jobs w)) as [job|] eqn:Hjob.
    + eexists. split; [done|]. simpl. repeat split; try done.
      unfold event, progressEvent. by rewrite (findJob_id _ _ _ Hjob).
    + unfold Storage.updateRows. clear -Hjob.
      unfold Storage.findJob in Hjob.
      induction (jobs w) as [|row rows IH]; [done|].
      rewrite fmap_cons. destruct (decide (Job.id row = jobId)) as [Hid|Hid].
      * by rewrite filter_cons_True in Hjob.
      * rewrite filter_cons_False in Hjob by done. by rewrite IH.
Qed.

(** Job 7 moves to 80 per cent while sockets 1 and 3 follow it: the row
    is written before anything is sent, and the event goes to the open
    socket 1. *)
Lemma persist_then_broadcast_witness :
  let run := updateJobProgress 7 80 "Generating document..." None in
  let fields := progressFields 80 "Generating document..." None in
  result run Scenario.crowded = Returned tt
  ∧ writes (exec run Scenario.crowded) = [Write.mk 7 fields 0]
  ∧ wire (exec run Scenario.crowded)
    = [mkSend 1 (MProgress 7 PROCESSING 80 "Generating document..." None) true]
  ∧ jobs (exec run Scenario.crowded)
    = [Job.mk 7 "alice" 70 (Some PROCESSING) (Some 80%Z)
              (Some "Generating document..."%string) None;
       Scenario.job42]
  ∧ storedAt (writes (exec run Scenario.crowded)) 7 0 = Some fields.
Proof.
  intros run fields.
  destruct (persist_then_broadcast 7 80 "Generating document..." None Scenario.crowded)
    as [Hres Hrun].
  change (dbFails Scenario.crowded (OpUpdateJob 7)) with false in Hrun.
  destruct Hrun as (Hwrites & Hwire & Hjobs & _ & Hsends & _).
  split; [exact Hres|]. split; [exact Hwrites|]. split; [exact Hwire|].
  split; [exact Hjobs|].
  exact (proj2 (Hsends 0 (mkSend 1 (MProgress 7 PROCESSING 80 "Generating document..."
                                              None) true)
                       (le_n 0) eq_refl)).
Defined.

Lemma updateJobProgress_run jobId progress currentStep error w :
  updateJobProgress jobId progress currentStep error w
  = (Returned tt, runUpdate jobId w (progress, currentStep, error)).
Proof.
  unfold runUpdate, exec. simpl. by rewrite updateJobProgress_spec.
Qed.

(** A run of [processVideo] is the sequence of its progress updates, as
    far as the store goes. *)
Lemma processVideo_updates env jobId w :
  exec (processVideo env jobId) w = foldl (runUpdate jobId) w (progressUpdates env).
Proof.
  unfold exec, processVideo, progressUpdates, stage. run_unfold.
  destruct env as [a t s g sv f m]. cbn [analyze transcript structure generate save
                                          finalize markFailed].
  rewrite updateJobProgress_run.
  destruct a; [|destruct m; cbn; by rewrite ?updateJobProgress_run].
  cbn. rewrite updateJobProgress_run.
  destruct t; [|destruct m; cbn; by rewrite ?updateJobProgress_run].
  cbn. rewrite updateJobProgress_run.
  destruct s; [|destruct m; cbn; by rewrite ?updateJobProgress_run].
  cbn. rewrite updateJobProgress_run.
  destruct g; [|destruct m; cbn; by rewrite ?updateJobProgress_run].
  cbn. rewrite updateJobProgress_run.
  destruct sv; [|destruct m; cbn; by rewrite ?updateJobProgress_run].
  destruct f; [|destruct m; cbn; by rewrite ?updateJobProgress_run].
  cbn. by rewrite updateJobProgress_run.
Qed.

(** Every progress update of a run but the last one writes
    [PROCESSING]. *)
Lemma progressUpdates_terminal_last env :
  Forall (λ u, updateStatus u = PROCESSING) (removelast (progressUpdates env)).
Proof.
  destruct env as [a t s g sv f m]. unfold progressUpdates.
  cbn [analyze transcript structure generate save finalize markFailed].
  destruct a, t, s, g, sv, f, m; cbn; repeat constructor.
Qed.

(** C6, as stated, fails: job 7 is stored as [COMPLETED] and socket 1
    follows it; one more progress update rewrites the stored job and is
    broadcast. *)
Lemma terminal_update_counterexample :
  let w := Scenario.finished in
  let w' := exec (updateJobProgress 7 10 "Analyzing YouTube video..." None) w in
  (Job.status <$> Storage.findJob 7 (jobs w)) = Some (Some COMPLETED)
  ∧ Storage.findJob 7 (jobs w')
    = Some (Job.mk 7 "alice" 70 (Some PROCESSING) (Some 10%Z)
                   (Some "Analyzing YouTube video..."%string) None)
  ∧ jobs w' ≠ jobs w
  ∧ wire w' = wire w ++ [mkSend 1 (MProgress 7 PROCESSING 10
                                     "Analyzing YouTube video..." None) true].
Proof.
  repeat split; try reflexivity. discriminate.
Qed.

(** C6, amended.  [updateJobProgress] does not look at the stored
    status: for a stored job in any status, [COMPLETED] and [FAILED]
    included, a call whose write succeeds replaces the job's status,
    progress, step and error by those of the call and sends the event to
    every subscriber with an open transport.  A terminal status is final
    in this sense only: in a run of [processVideo] every progress update
    but the last writes [PROCESSING], so no update follows the one that
    writes [COMPLETED] or [FAILED]. *)
Theorem terminal_status_unguarded jobId progress currentStep error job w :
  dbFails w (OpUpdateJob jobId) = false →
  Storage.findJob jobId (jobs w) = Some job →
  let w' := exec (updateJobProgress jobId progress currentStep error) w in
  Storage.findJob jobId (jobs w')
  = Some (Job.mk (Job.id job) (Job.userId job) (Job.documentId job)
                 (Some (statusOf progress error)) (Some progress)
                 (Some currentStep) (JS.or_null error))
  ∧ wire w' = wire w ++ attempts w (progressEvent jobId progress currentStep error)
                                 (subscribersOf jobId w)
  ∧ ∀ env w0,
      exec (processVideo env jobId) w0
      = foldl (runUpdate jobId) w0 (progressUpdates env)
      ∧ Forall (λ u, updateStatus u = PROCESSING) (removelast (progressUpdates env)).
Proof.
  intros Hdb Hjob w'. subst w'. unfold exec at 1 2.
  rewrite updateJobProgress_spec, Hdb. simpl.
  rewrite broadcastProgress_jobs. simpl. rewrite findJob_updateRows, Hjob.
  split; [done|]. split.
  - unfold exec. rewrite broadcastProgress_spec. simpl. unfold subscribersOf.
    destruct (subscriptions w !! JS.toString jobId) as [[|c rest]|]; simpl;
      unfold attempts; by rewrite ?app_nil_r.
  - intros env w0. split; [apply processVideo_updates|].
    apply progressUpdates_terminal_last.
Qed.

(** The finished job 7 is updated once more. *)
Lemma terminal_status_unguarded_witness :
  let w' := exec (updateJobProgress 7 10 "Analyzing YouTube video..." None)
                 Scenario.finished in
  Storage.findJob 7 (jobs w')
  = Some (Job.mk 7 "alice" 70 (Some PROCESSING) (Some 10%Z)
                 (Some "Analyzing YouTube video..."%string) None)
  ∧ wire w' = [mkSend 1 (MProgress 7 PROCESSING 10 "Analyzing YouTube video..." None)
                      true].
Proof.
  destruct (terminal_status_unguarded 7 10 "Analyzing YouTube video..." None
              (Job.mk 7 "alice" 70 (Some COMPLETED) (Some 100%Z)
                      (Some "Document created successfully!"%string) None)
              Scenario.finished) as (H1 & H2 & _); [reflexivity|reflexivity|].
  split; [exact H1|exact H2].
Defined.

End Pipeline.

(* ===================================================================== *)
(** * Properties of the session validator *)
(* ===================================================================== *)

Section SessionValidator.
Import WebSocketService.
Variable decodeURIComponent : string → option string.

Lemma truthy_str_Some s : JS.truthy_str (Some s) = true ↔ s ≠ ""%string.
Proof. simpl. destruct (String.eqb_spec s ""); naive_solver. Qed.

Lemma expired_false now u : expired now u = false ↔ notExpired now u.
Proof.
  unfold expired, notExpired. destruct (Session.expires_at u) as [e|]; simpl.
  - destruct (Z.eqb_spec e 0) as [->|Hne]; simpl.
    + naive_solver.
    + case_bool_decide as Hlate; split; try done.
      * intros [|[[= ->]|(e' & [= <-] & ?)]]; [done|done|lia].
      * intros _. right. right. exists e. split; [done|lia].
  - naive_solver.
Qed.

Ltac reject :=
  right; split;
  [intros (u' & sid' & c' & s' & usr' & Hc' & Hne1 & Hd' & Hne2 & Hst' & Hu' & Hp' & Hx');
   simplify_eq; try congruence
  |done].

(** The run of the validator, by cases on what it finds. *)
Lemma authenticateConnection_cases ws cookieHeader w :
  let run := authenticateConnection decodeURIComponent ws cookieHeader in
  (∃ userId sessionId,
     Validated decodeURIComponent w cookieHeader userId sessionId
     ∧ run w = (Returned true,
                with_socket ws (λ s, Socket.mk (Some userId) (Some true) (Some sessionId)
                                               (Socket.readyState s)
                                               (Socket.sendThrows s)) w))
  ∨ ((¬ ∃ userId sessionId, Validated decodeURIComponent w cookieHeader userId sessionId)
     ∧ run w = (Returned false, w)).
Proof.
  intros run. subst run.
  unfold authenticateConnection, getSessionData, Validated. run_unfold.
  destruct (parseCookies (JS.or_str cookieHeader "") !! "connect.sid"%string)
    as [cookie|] eqn:Hcookie; [|reject].
  destruct (JS.truthy_str (Some cookie)) eqn:Hc; cycle 1.
  { reject. apply truthy_str_Some in Hne1. congruence. }
  apply truthy_str_Some in Hc. cbn [negb default from_option id].
  destruct (decodeSessionId decodeURIComponent cookie) as [sid|] eqn:Hsid;
    [|reject].
  destruct (JS.truthy_str (Some sid)) eqn:Hs; cycle 1.
  { reject. apply truthy_str_Some in Hne2. congruence. }
  apply truthy_str_Some in Hs. cbn [negb default from_option id].
  destruct (sessionStore w sid) as [|[session|]|] eqn:Hstore; try reject.
  cbn -[principal expired sessionUser].
  destruct (sessionUser session) as [user|] eqn:Huser; [|reject].
  destruct (principal (Some user)) as [sub|] eqn:Hsub; [|reject].
  destruct (expired (clock w `div` 1000) user) eqn:Hexp.
  - reject. apply expired_false in Hx'. congruence.
  - left. exists sub, sid. split; [|done].
    exists cookie, session, user. apply expired_false in Hexp. naive_solver.
Qed.

Lemma Validated_functional w cookieHeader u1 s1 u2 s2 :
  Validated decodeURIComponent w cookieHeader u1 s1 →
  Validated decodeURIComponent w cookieHeader u2 s2 →
  u1 = u2 ∧ s1 = s2.
Proof.
  intros (c1 & x1 & y1 & Hc1 & _ & Hd1 & _ & Hst1 & Hu1 & Hp1 & _)
         (c2 & x2 & y2 & Hc2 & _ & Hd2 & _ & Hst2 & Hu2 & Hp2 & _).
  simplify_eq. rewrite Hst1 in Hst2. simplify_eq. done.
Qed.

Lemma decodeSessionId_not_empty cookie sessionId :
  decodeSessionId decodeURIComponent cookie = Some sessionId → sessionId ≠ ""%string.
Proof.
  unfold decodeSessionId. destruct (JSString.startsWith "s:" cookie).
  - generalize (JSString.sliceFrom 2 cookie). intros unsigned.
    destruct (Z.ltb_spec 0 (JSString.lastIndexOf "." unsigned)) as [Hpos|]; [|done].
    intros [= <-]. destruct unsigned as [|c rest]; [simpl in Hpos; lia|].
    destruct (Z.to_nat (JSString.lastIndexOf "." (String c rest))) eqn:Hn; [lia|done].
  - destruct (decodeURIComponent cookie) as [decoded|]; [|done].
    destruct (Nat.ltb_spec 0 (String.length decoded)) as [Hlen|]; [|done].
    intros [= <-] ->. simpl in Hlen. lia.
Qed.

(** X26.  What the validator decides, in every store.  It never raises:
    it answers [true] or [false].  It answers [true] exactly when the
    cookie header holds a non-empty session cookie that decodes to a
    session id, the store has a session under this id, the session holds
    a principal with a user id, and the expiry test of the code passes
    (the timestamp is absent, or falsy, or not before the current
    second); the socket then carries this user id and session id.  In
    every other case, a store that reports an error or raises included,
    it answers [false] and leaves the socket, and everything else, as it
    was. *)
Theorem authenticateConnection_decides ws cookieHeader w :
  let run := authenticateConnection decodeURIComponent ws cookieHeader in
  (result run w = Returned true ∨ result run w = Returned false)
  ∧ (result run w = Returned true
     ↔ ∃ userId sessionId, Validated decodeURIComponent w cookieHeader userId sessionId)
  ∧ (∀ userId sessionId,
       Validated decodeURIComponent w cookieHeader userId sessionId →
       Socket.isAuthenticated (sockets (exec run w) ws) = Some true
       ∧ Socket.userId (sockets (exec run w) ws) = Some userId
       ∧ Socket.sessionId (sockets (exec run w) ws) = Some sessionId)
  ∧ (result run w = Returned false → exec run w = w)
  ∧ (∀ cookie sessionId,
       parseCookies (JS.or_str cookieHeader "") !! "connect.sid"%string = Some cookie →
       decodeSessionId decodeURIComponent cookie = Some sessionId →
       sessionStore w sessionId = StoreError
       ∨ sessionStore w sessionId = StoreRaises
       ∨ sessionStore w sessionId = StoreSession None →
       result run w = Returned false).
Proof.
  intros run. unfold exec, result.
  destruct (authenticateConnection_cases ws cookieHeader w)
    as [(u & s & Hval & Hrun)|[Hnone Hrun]]; fold run in Hrun; rewrite Hrun; simpl.
  - split; [by left|]. split; [naive_solver|]. split.
    + intros u' s' Hval'.
      destruct (Validated_functional _ _ _ _ _ _ Hval Hval') as [<- <-].
      by rewrite decide_True.
    + split; [done|]. intros cookie sid Hc Hd Hst. exfalso.
      destruct Hval as (c1 & x1 & y1 & Hc1 & _ & Hd1 & _ & Hst1 & _).
      simplify_eq. rewrite Hst1 in Hst. naive_solver.
  - split; [by right|]. split; [naive_solver|]. split; [naive_solver|]. done.
Qed.

(** C7.  The code breaks the claim on an expiry timestamp of 0.  Take a
    header whose session cookie decodes to the id of a stored session
    with a principal that has a user id, and let the principal's expiry
    timestamp be 0, which lies in the past: the validator answers [true]
    and marks the socket as authenticated under this user id and session
    id, where the claim has the connection rejected.  The expiry test is
    [user.expires_at && now > user.expires_at], and 0 is falsy: the same
    principal with any other timestamp in the past is taken for expired. *)
Theorem authenticate_accepts_epoch_expiry ws cookieHeader cookie sessionId session
    user userId w :
  parseCookies (JS.or_str cookieHeader "") !! "connect.sid"%string = Some cookie →
  cookie ≠ ""%string →
  decodeSessionId decodeURIComponent cookie = Some sessionId →
  sessionStore w sessionId = StoreSession (Some session) →
  sessionUser session = Some user →
  principal (Some user) = Some userId →
  Session.expires_at user = Some 0%Z →
  (0 < clock w `div` 1000)%Z →
  let run := authenticateConnection decodeURIComponent ws cookieHeader in
  let now := (clock w `div` 1000)%Z in
  result run w = Returned true
  ∧ Socket.isAuthenticated (sockets (exec run w) ws) = Some true
  ∧ Socket.userId (sockets (exec run w) ws) = Some userId
  ∧ Socket.sessionId (sockets (exec run w) ws) = Some sessionId
  ∧ expired now user = false
  ∧ (∀ e, e ≠ 0%Z → (e < now)%Z →
          expired now (Session.mkUser (Session.claims user) (Some e)) = true).
Proof.
  intros Hcookie Hne Hdecode Hstore Huser Hprincipal Hzero Hpast run now.
  assert (Hval : Validated decodeURIComponent w cookieHeader userId sessionId).
  { exists cookie, session, user.
    split; [done|]. split; [done|]. split; [done|].
    split; [by apply decodeSessionId_not_empty in Hdecode|].
    split; [done|]. split; [done|]. split; [done|]. right. by left. }
  unfold exec, result.
  destruct (authenticateConnection_cases ws cookieHeader w)
    as [(u & s & Hval' & Hrun)|[Hnone _]]; [|exfalso; apply Hnone; eauto].
  destruct (Validated_functional _ _ _ _ _ _ Hval Hval') as [<- <-].
  fold run in Hrun. rewrite Hrun. simpl. rewrite decide_True by done. simpl.
  split; [done|]. split; [done|]. split; [done|]. split; [done|]. split.
  - unfold expired. by rewrite Hzero.
  - intros e He Hlt. unfold expired. simpl.
    rewrite (proj2 (Z.eqb_neq e 0) He). simpl. apply bool_decide_eq_true. lia.
Qed.

End SessionValidator.

(** Alice's session is in the store and good until 2027: her connection
    is authenticated under her user id and session id.  With a cookie for
    the id the store fails on, the connection is rejected. *)
Lemma authenticateConnection_decides_witness :
  let run := WebSocketService.authenticateConnection Scenario.plainDecode 9 in
  result (run Scenario.liveCookie) Scenario.liveWorld = Returned true
  ∧ Socket.userId (sockets (exec (run Scenario.liveCookie) Scenario.liveWorld) 9)
    = Some "alice"%string
  ∧ Socket.sessionId (sockets (exec (run Scenario.liveCookie) Scenario.liveWorld) 9)
    = Some "live"%string
  ∧ result (run Scenario.downCookie) Scenario.liveWorld = Returned false.
Proof.
  intros run.
  destruct (authenticateConnection_decides Scenario.plainDecode 9 Scenario.liveCookie
              Scenario.liveWorld) as (_ & Hiff & Hid & _).
  destruct (authenticateConnection_decides Scenario.plainDecode 9 Scenario.downCookie
              Scenario.liveWorld) as (_ & _ & _ & _ & Hdown).
  assert (Hval : Validated Scenario.plainDecode Scenario.liveWorld Scenario.liveCookie
                           "alice" "live").
  { exists "s:live.c2lnbmF0dXJl"%string,
           (Session.mk (Some (Session.mkPassport (Some Scenario.liveUser)))),
           Scenario.liveUser.
    split; [reflexivity|]. split; [discriminate|]. split; [reflexivity|].
    split; [discriminate|]. split; [reflexivity|]. split; [reflexivity|].
    split; [reflexivity|]. right. right. exists 1800000000%Z.
    split; [reflexivity|]. vm_compute. discriminate. }
  destruct (Hid _ _ Hval) as (_ & Hu & Hs).
  split; [apply Hiff; by exists "alice"%string, "live"%string|].
  split; [exact Hu|]. split; [exact Hs|].
  apply (Hdown "s:down.c2lnbmF0dXJl"%string "down"%string);
    [reflexivity|reflexivity|by left].
Defined.

(** Alice's session in the store has the expiry timestamp 0, the clock
    reads 14 November 2023, and socket 9 comes in with the cookie of this
    session: it is authenticated as Alice. *)
Lemma authenticate_accepts_epoch_expiry_witness :
  let run := WebSocketService.authenticateConnection Scenario.plainDecode 9
               Scenario.epochCookie in
  result run Scenario.epochWorld = Returned true
  ∧ Socket.isAuthenticated (sockets (exec run Scenario.epochWorld) 9) = Some true
  ∧ Socket.userId (sockets (exec run Scenario.epochWorld) 9) = Some "alice"%string
  ∧ Socket.sessionId (sockets (exec run Scenario.epochWorld) 9) = Some "abc"%string
  ∧ Session.expires_at Scenario.epochUser = Some 0%Z
  ∧ (0 < clock Scenario.epochWorld `div` 1000)%Z.
Proof.
  intros run.
  assert (Hpast : (0 < clock Scenario.epochWorld `div` 1000)%Z) by (vm_compute; done).
  destruct (authenticate_accepts_epoch_expiry Scenario.plainDecode 9 Scenario.epochCookie
              "s:abc.c2lnbmF0dXJl" "abc"
              (Session.mk (Some (Session.mkPassport (Some Scenario.epochUser))))
              Scenario.epochUser "alice" Scenario.epochWorld
              eq_refl ltac:(discriminate) eq_refl eq_refl eq_refl eq_refl eq_refl Hpast)
    as (Hres & Hauth & Huid & Hsid & _).
  split; [exact Hres|]. split; [exact Hauth|]. split; [exact Huid|].
  split; [exact Hsid|]. split; [reflexivity|exact Hpast].
Defined.

(* ===================================================================== *)
(** * Properties of the client *)
(* ===================================================================== *)

Section ClientProtocol.
Import Client.

Lemma elem_of_foldl_set_add (xs acc : list Z) (j : Z) :
  j ∈ foldl (λ p x, JS.set_add x p) acc xs ↔ j ∈ acc ∨ j ∈ xs.
Proof.
  revert acc. induction xs as [|x xs IH]; intros acc; simpl.
  - set_solver.
  - rewrite IH, elem_of_set_add. set_solver.
Qed.

Lemma NoDup_set_add (x : Z) (s : list Z) : NoDup s → NoDup (JS.set_add x s).
Proof.
  intros Hnd. unfold JS.set_add, JS.set_has. case_bool_decide as Hin; [done|].
  apply NoDup_app. split; [done|]. split; [|apply NoDup_singleton].
  intros y Hy Hx. apply list_elem_of_singleton in Hx. by subst.
Qed.

Lemma NoDup_foldl_set_add (xs acc : list Z) :
  NoDup acc → NoDup (foldl (λ p x, JS.set_add x p) acc xs).
Proof.
  revert acc. induction xs as [|x xs IH]; intros acc Hnd; [done|].
  simpl. apply IH. by apply NoDup_set_add.
Qed.

Lemma elem_of_set_of_list (xs : list Z) (j : Z) : j ∈ JS.set_of_list xs ↔ j ∈ xs.
Proof.
  unfold JS.set_of_list. rewrite elem_of_foldl_set_add. set_solver.
Qed.

Lemma NoDup_set_of_list (xs : list Z) : NoDup (JS.set_of_list xs).
Proof. apply NoDup_foldl_set_add. constructor. Qed.

(** The loop of the settling timer's callback: one [send] for each id,
    and an id whose [send] raised goes back to the pending set. *)
Lemma forEach_resubscribe (jobIds : list Z) s :
  forEach jobIds resubscribe s
  = (Returned tt,
     with_sent (λ l, l ++ subscribeRequests s jobIds)
       (with_pending (λ p, if sendThrows s
                           then foldl (λ p x, JS.set_add x p) p jobIds
                           else p) s)).
Proof.
  revert s. induction jobIds as [|j rest IH]; intros s.
  - destruct s as [? ? ? ? ? ? ? ? ? [] ?]; unfold subscribeRequests; simpl;
      unfold with_sent, with_pending; simpl; by rewrite app_nil_r.
  - cbn [forEach]. unfold bind, resubscribe, try_catch, send, modify.
    destruct s as [? ? ? ? p a ? ? ? [] l]; simpl; rewrite IH;
      unfold subscribeRequests, with_sent, with_pending; simpl;
      by rewrite <- app_assoc.
Qed.

Lemma onSubscriptionReady_spec s :
  let allSubs := JS.set_of_list (pendingSubscriptions s ++ activeSubscriptions s) in
  onSubscriptionReady s
  = (Returned tt,
     mkState (socket s) (isConnected s) authenticated (reconnectAttempts s)
             (if sendThrows s then foldl (λ p x, JS.set_add x p) [] allSubs else [])
             (activeSubscriptions s) true (reconnectTimeout s) None (sendThrows s)
             (sent s ++ subscribeRequests s allSubs)).
Proof.
  intros allSubs. subst allSubs. unfold onSubscriptionReady. run_unfold. simpl.
  rewrite forEach_resubscribe. by destruct s as [? ? ? ? ? ? ? ? ? [] ?].
Qed.

Lemma reconnectDelay_values :
  reconnectDelay 1 = 2000%Z ∧ reconnectDelay 2 = 4000%Z ∧ reconnectDelay 3 = 8000%Z
  ∧ reconnectDelay 4 = 16000%Z ∧ reconnectDelay 5 = 30000%Z.
Proof. repeat split; reflexivity. Qed.

Lemma reconnectDelay_doubles (n : nat) :
  reconnectDelay (S n) = Z.min (2 * (1000 * 2 ^ Z.of_nat n)) 30000.
Proof.
  unfold reconnectDelay. rewrite Nat2Z.inj_succ, Z.pow_succ_r by lia.
  f_equal. lia.
Qed.

(** C8.  On a close with a code other than 1000, every active job id
    moves to the pending set and the active set is emptied.  While fewer
    than 5 attempts have been made since the last open, the attempt is
    counted and a reconnect is armed after
    [min (1000 * 2 ^ attempt) 30000] ms, the delay doubling from one
    attempt to the next up to the cap; from the fifth attempt on nothing
    more is armed and the count stays.  When the client then reaches the
    authenticated state, it calls [send] with a subscribe request exactly
    once for each job id of the union of the pending and the active
    set. *)
Theorem reconnect_and_resubscribe (code : Z) (s : State) :
  code ≠ 1000%Z →
  let closed := onclose code s in
  let n := reconnectAttempts s in
  let ready := exec onSubscriptionReady s in
  let allSubs := JS.set_of_list (pendingSubscriptions s ++ activeSubscriptions s) in
  activeSubscriptions closed = []
  ∧ (∀ j, j ∈ pendingSubscriptions closed
          ↔ j ∈ pendingSubscriptions s ∨ j ∈ activeSubscriptions s)
  ∧ (if decide (n < 5)
     then reconnectAttempts closed = S n
          ∧ reconnectTimeout closed = Some (Z.min (1000 * 2 ^ Z.of_nat (S n)) 30000)
          ∧ reconnectDelay (S (S n)) = Z.min (2 * (1000 * 2 ^ Z.of_nat (S n))) 30000
          ∧ (1000 < reconnectDelay (S n) ≤ 30000)%Z
     else reconnectAttempts closed = n
          ∧ reconnectTimeout closed = reconnectTimeout s)
  ∧ reconnectAttempts (onopen closed) = 0
  ∧ result onSubscriptionReady s = Returned tt
  ∧ connectionState ready = authenticated
  ∧ sent ready = sent s ++ subscribeRequests s allSubs
  ∧ NoDup allSubs
  ∧ (∀ j, j ∈ allSubs ↔ j ∈ pendingSubscriptions s ∨ j ∈ activeSubscriptions s).
Proof.
  intros Hcode closed n ready allSubs. subst closed n ready allSubs.
  unfold exec, result. rewrite onSubscriptionReady_spec. simpl.
  split; [done|]. split; [apply elem_of_foldl_set_add|].
  rewrite bool_decide_true by done. unfold maxReconnectAttempts. simpl.
  split.
  { destruct (decide (reconnectAttempts s < 5)) as [Hlt|Hge].
    - rewrite bool_decide_true by done.
      split; [done|]. split; [done|]. split; [apply reconnectDelay_doubles|].
      unfold reconnectDelay.
      assert (2 ^ 1 ≤ 2 ^ Z.of_nat (S (reconnectAttempts s)))%Z
        by (apply Z.pow_le_mono_r; lia).
      lia.
    - by rewrite bool_decide_false by done. }
  do 4 (split; [done|]). split; [apply NoDup_set_of_list|].
  intros j. rewrite elem_of_set_of_list. apply elem_of_app.
Qed.

(** The client follows jobs 7 and 9; the connection drops with code
    1006; after the reconnect and the settling delay it asks for 7 and 9,
    once each. *)
Lemma reconnect_and_resubscribe_witness :
  let closed := onclose 1006 Scenario.following in
  let reopened := onopen (connect closed) in
  activeSubscriptions closed = []
  ∧ pendingSubscriptions closed = [7; 9]%Z
  ∧ reconnectTimeout closed = Some 2000%Z
  ∧ sent (exec onSubscriptionReady reopened) = [(Subscribe 7, true); (Subscribe 9, true)].
Proof.
  destruct (reconnect_and_resubscribe 1006 Scenario.following) as (H1 & _ & H3 & _);
    [discriminate|].
  destruct H3 as (_ & H3 & _).
  split; [exact H1|]. split; [reflexivity|]. split; [exact H3|]. reflexivity.
Defined.

(** C9, as stated, fails: a client that is not connected yet asks for
    job 7, and 7 is in the pending set and in the active set at once. *)
Lemma subscribe_both_sets_counterexample :
  let s := exec (subscribeToJob 7) Scenario.mounted in
  pendingSubscriptions s = [7%Z]
  ∧ activeSubscriptions s = [7%Z]
  ∧ (7%Z ∈ pendingSubscriptions s ∧ 7%Z ∈ activeSubscriptions s)
  ∧ ¬ exclusive s.
Proof.
  split; [reflexivity|]. split; [reflexivity|].
  assert (Hboth : 7%Z ∈ [7%Z] ∧ 7%Z ∈ [7%Z]) by (split; apply list_elem_of_singleton; done).
  split; [exact Hboth|]. intros Hex. exact (Hex 7%Z Hboth).
Qed.

Lemma subscribeToJob_sets (jobId : Z) (s : State) :
  let s' := exec (subscribeToJob jobId) s in
  activeSubscriptions s' = JS.set_add jobId (activeSubscriptions s)
  ∧ match result (subscribeToJob jobId) s with
    | Returned true =>
      pendingSubscriptions s' = JS.set_delete jobId (pendingSubscriptions s)
    | Returned false =>
      pendingSubscriptions s' = JS.set_add jobId (pendingSubscriptions s)
    | Thrown _ => pendingSubscriptions s' = pendingSubscriptions s
    end.
Proof.
  unfold subscribeToJob, sendMessage, send, socketOpen, exec, result. run_unfold.
  destruct s as [sk ? cs ? p a rdy ? ? thr ?]. simpl.
  destruct sk as [[]|], rdy, cs, thr; simpl; auto.
Qed.

Lemma unsubscribeFromJob_sets (jobId : Z) (s : State) :
  let s' := exec (unsubscribeFromJob jobId) s in
  activeSubscriptions s' = JS.set_delete jobId (activeSubscriptions s)
  ∧ pendingSubscriptions s' = JS.set_delete jobId (pendingSubscriptions s).
Proof.
  unfold unsubscribeFromJob, sendMessage, send, socketOpen, exec. run_unfold.
  destruct s as [sk ? cs ? p a rdy ? ? thr ?]. simpl.
  by destruct sk as [[]|], rdy, thr.
Qed.

Lemma onmessage_sets (message : Message) (s : State) :
  let s' := onmessage message s in
  match message with
  | MSubscribed jobId _ =>
    if decide (jobId = 0%Z)
    then activeSubscriptions s' = activeSubscriptions s
         ∧ pendingSubscriptions s' = pendingSubscriptions s
    else activeSubscriptions s' = JS.set_add jobId (activeSubscriptions s)
         ∧ pendingSubscriptions s' = JS.set_delete jobId (pendingSubscriptions s)
  | _ => activeSubscriptions s' = activeSubscriptions s
         ∧ pendingSubscriptions s' = pendingSubscriptions s
  end.
Proof.
  destruct message as [text|jobId ?| | |]; simpl; try done.
  - by destruct (JSString.includes _ text).
  - destruct (Z.eqb_spec jobId 0) as [->|Hne]; simpl.
    + done.
    + by rewrite decide_False.
Qed.

(** C9, amended.  Under [subscribeToJob], [unsubscribeFromJob], a
    subscription confirmation and the close handler, a job id held in one
    of the two sets stays in one of them, except the id that
    [unsubscribeFromJob] drops from both; [subscribeToJob] puts its id in
    the active set, whatever the connection's state.  The two sets may
    overlap: [subscribeToJob] answers [false] and adds its id to the
    pending set as well whenever the connection is not open, not settled or
    not in the authenticated state; when it answers [true] the id is not
    pending.  The sets do not overlap after the close handler (the active
    set is empty), [unsubscribeFromJob] and a confirmation keep them from
    overlapping, and a confirmation for a job leaves its id in the active
    set only. *)
Theorem pending_active_membership (j k code : Z) (message : Message) (s : State) :
  (j ∈ activeSubscriptions (exec (subscribeToJob j) s)
   ∧ (tracked k s → tracked k (exec (subscribeToJob j) s))
   ∧ (result (subscribeToJob j) s = Returned true →
      j ∉ pendingSubscriptions (exec (subscribeToJob j) s))
   ∧ (result (subscribeToJob j) s = Returned false →
      j ∈ pendingSubscriptions (exec (subscribeToJob j) s))
   ∧ (socketOpen s && connectionReady s
        && bool_decide (connectionState s = authenticated) = false →
      result (subscribeToJob j) s = Returned false))
  ∧ (¬ tracked j (exec (unsubscribeFromJob j) s)
     ∧ (k ≠ j → tracked k s → tracked k (exec (unsubscribeFromJob j) s))
     ∧ (exclusive s → exclusive (exec (unsubscribeFromJob j) s)))
  ∧ ((tracked k s → tracked k (onmessage message s))
     ∧ (exclusive s → exclusive (onmessage message s))
     ∧ (j ≠ 0%Z →
        j ∈ activeSubscriptions (onmessage (MSubscribed j "") s)
        ∧ j ∉ pendingSubscriptions (onmessage (MSubscribed j "") s)))
  ∧ ((tracked k s → tracked k (onclose code s))
     ∧ exclusive (onclose code s)
     ∧ activeSubscriptions (onclose code s) = []).
Proof.
  destruct (subscribeToJob_sets j s) as [Hsa Hsp].
  destruct (unsubscribeFromJob_sets j s) as [Hua Hup].
  pose proof (onmessage_sets message s) as Hm.
  pose proof (onmessage_sets (MSubscribed j "") s) as Hmj.
  cbv zeta in *. unfold tracked, exclusive.
  split; [|split; [|split]].
  - rewrite Hsa. split; [apply elem_of_set_add; by left|]. split; [|split; [|split]].
    + destruct (result (subscribeToJob j) s) as [[]|]; rewrite Hsp;
        rewrite ?elem_of_set_add, ?elem_of_set_delete; [|tauto..].
      destruct (decide (k = j)); tauto.
    + intros Hres. rewrite Hres in Hsp. rewrite Hsp, elem_of_set_delete. tauto.
    + intros Hres. rewrite Hres in Hsp. rewrite Hsp, elem_of_set_add. by left.
    + clear Hsp Hsa.
      unfold subscribeToJob, sendMessage, send, socketOpen, exec, result. run_unfold.
      destruct s as [sk ? cs ? p a rdy ? ? thr ?]. simpl.
      destruct sk as [[]|], rdy, cs, thr; simpl; done.
  - rewrite Hua, Hup. setoid_rewrite elem_of_set_delete. split; [tauto|].
    split; [tauto|]. intros Hex x. specialize (Hex x). tauto.
  - split; [|split].
    + destruct message as [text|jobId ?| | |]; try (destruct Hm as [-> ->]; tauto).
      destruct (decide (jobId = 0%Z)); destruct Hm as [-> ->]; [tauto|].
      rewrite elem_of_set_add, elem_of_set_delete.
      destruct (decide (k = jobId)); tauto.
    + intros Hex x. specialize (Hex x).
      destruct message as [text|jobId ?| | |]; try (destruct Hm as [-> ->]; tauto).
      destruct (decide (jobId = 0%Z)); destruct Hm as [-> ->]; [tauto|].
      rewrite elem_of_set_add, elem_of_set_delete. tauto.
    + intros Hj. cbn beta iota in Hmj.
      rewrite decide_False in Hmj by done. destruct Hmj as [-> ->].
      rewrite elem_of_set_add, elem_of_set_delete. tauto.
  - simpl. rewrite elem_of_foldl_set_add. split; [tauto|]. split; [|done].
    intros x [_ Hx]. by apply elem_of_nil in Hx.
Qed.

(** A client that is not connected asks for job 7 (7 is then in both
    sets); the confirmation that arrives later leaves 7 in the active set
    only, and a close moves it to the pending set. *)
Lemma pending_active_membership_witness :
  let asked := exec (subscribeToJob 7) Scenario.mounted in
  (7%Z ∈ activeSubscriptions asked ∧ 7%Z ∈ pendingSubscriptions asked)
  ∧ (7%Z ∈ activeSubscriptions (onmessage (MSubscribed 7 "") asked)
     ∧ 7%Z ∉ pendingSubscriptions (onmessage (MSubscribed 7 "") asked))
  ∧ exclusive (onclose 1006 asked).
Proof.
  intros asked.
  destruct (pending_active_membership 7 7 1006 MPong Scenario.mounted)
    as ((Hact & _ & _ & Hpend & Hanswer) & _).
  destruct (pending_active_membership 7 7 1006 MPong asked)
    as (_ & _ & (_ & _ & Hconf) & (_ & Hex & _)).
  split; [split; [exact Hact|apply Hpend, Hanswer; reflexivity]|].
  split; [by apply Hconf|exact Hex].
Defined.

End ClientProtocol.

(* ===================================================================== *)
(** * Further properties of the subscription handlers *)
(* ===================================================================== *)

Section Handlers.
Import WebSocketService.

Lemma withoutSocket_lookup ws (s s' : list nat) :
  withoutSocket ws s = Some s' → s' = JS.set_delete ws s ∧ s' ≠ [].
Proof.
  unfold withoutSocket, JS.set_size. case_bool_decide as Hlen; [done|].
  intros [= <-]. split; [done|]. intros Hnil. by rewrite Hnil in Hlen.
Qed.

Lemma set_delete_absent (ws : nat) (s : list nat) :
  ws ∉ s → JS.set_delete ws s = s.
Proof.
  intros Hin. unfold JS.set_delete. induction s as [|x s IH]; [done|].
  rewrite filter_cons_True by set_solver. f_equal. apply IH. set_solver.
Qed.

Lemma set_delete_added (ws : nat) (s : list nat) :
  ws ∉ s → JS.set_delete ws (JS.set_add ws s) = s.
Proof.
  intros Hin. unfold JS.set_add, JS.set_has. rewrite bool_decide_false by done.
  unfold JS.set_delete. rewrite filter_app. simpl.
  rewrite filter_cons_False by (intros ?; done). rewrite filter_nil, app_nil_r.
  by apply set_delete_absent.
Qed.

(** The run of [handleUnsubscription] for a socket that passes the
    authentication test. *)
Lemma handleUnsubscription_spec ws jobId w :
  notAuthenticated (sockets w ws) = false →
  let raises := Socket.sendThrows (sockets w ws) in
  handleUnsubscription ws jobId w
  = (if raises then Thrown None else Returned tt,
     rewire (unsubscribed ws jobId (subscriptions w))
            (mkSend ws (msg_unsubscribed jobId) (negb raises)
             :: (if raises then [mkSend ws msg_unsubscribe_failed false] else []))
            w).
Proof.
  intros Hchk raises. subst raises.
  unfold handleUnsubscription, send, unsubscribed, withoutSocket. run_unfold.
  rewrite Hchk. simpl.
  destruct (subscriptions w !! JS.toString jobId) as [subscribers|] eqn:Hsub; simpl.
  - case_bool_decide as Hlen; simpl;
      destruct (Socket.sendThrows (sockets w ws)) eqn:Hs; simpl; rewrite ?Hs; simpl;
      unfold rewire, with_wire, with_subscriptions; simpl;
      rewrite <- ?app_assoc, ?delete_insert_eq; done.
  - destruct (Socket.sendThrows (sockets w ws)) eqn:Hs; simpl; rewrite ?Hs; simpl;
      unfold rewire, with_wire; simpl; rewrite <- ?app_assoc; by destruct w.
Qed.

Lemma handleUnsubscription_unauthenticated ws jobId w :
  notAuthenticated (sockets w ws) = true →
  let raises := Socket.sendThrows (sockets w ws) in
  handleUnsubscription ws jobId w
  = (if raises then Thrown None else Returned tt,
     rewire (subscriptions w)
            (mkSend ws msg_auth_required (negb raises)
             :: (if raises then [mkSend ws msg_unsubscribe_failed false] else []))
            w).
Proof.
  intros Hchk raises. subst raises.
  unfold handleUnsubscription, send. run_unfold. rewrite Hchk. simpl.
  destruct (Socket.sendThrows (sockets w ws)) eqn:Hs; simpl; rewrite ?Hs; simpl;
    unfold rewire, with_wire; simpl; rewrite <- ?app_assoc; by destruct w.
Qed.

Lemma unsubscribed_lookup ws jobId subs key :
  unsubscribed ws jobId subs !! key
  = if decide (key = JS.toString jobId) then (subs !! key ≫= withoutSocket ws)
    else subs !! key.
Proof.
  unfold unsubscribed.
  destruct (subs !! JS.toString jobId) as [s|] eqn:Hs.
  - destruct (withoutSocket ws s) as [s'|] eqn:Hw.
    + rewrite lookup_insert. case_decide; subst.
      * rewrite decide_True by done. by rewrite Hs; simpl.
      * by rewrite decide_False by done.
    + rewrite lookup_delete. case_decide; subst.
      * rewrite decide_True by done. by rewrite Hs; simpl.
      * by rewrite decide_False by done.
  - case_decide; subst; [by rewrite Hs|done].
Qed.

Lemma unsubscribed_again ws jobId subs :
  unsubscribed ws jobId (unsubscribed ws jobId subs) = unsubscribed ws jobId subs.
Proof.
  apply map_eq. intros key. rewrite !unsubscribed_lookup.
  case_decide; [|done].
  destruct (subs !! key) as [s|]; [|done]. simpl.
  destruct (withoutSocket ws s) as [s'|] eqn:Hs; [|done]. simpl.
  by apply (withoutSocket_again ws s).
Qed.

(** X1.  [handleUnsubscription], for an authenticated socket that
    accepts the write: it returns and writes the confirmation, once,
    whether or not the socket was subscribed; the socket is not among the
    job's subscribers afterwards; the job's entry is its set without the
    socket, or is gone when that set is empty; every other entry is as it
    was; the registry is unchanged when the socket was not in a non-empty
    set; and a second request leaves the registry as the first left it and
    is confirmed again. *)
Theorem unsubscribe_confirms_and_is_idempotent ws jobId U w :
  authenticatedAs w ws U →
  Socket.sendThrows (sockets w ws) = false →
  let w1 := exec (handleUnsubscription ws jobId) w in
  let w2 := exec (handleUnsubscription ws jobId) w1 in
  result (handleUnsubscription ws jobId) w = Returned tt
  ∧ wire w1 = wire w ++ [mkSend ws (msg_unsubscribed jobId) true]
  ∧ (ws ∉ subscribersOf jobId w1)
  ∧ subscriptions w1 !! JS.toString jobId
    = (subscriptions w !! JS.toString jobId ≫= withoutSocket ws)
  ∧ (∀ key, key ≠ JS.toString jobId →
            subscriptions w1 !! key = subscriptions w !! key)
  ∧ (ws ∉ subscribersOf jobId w →
     subscriptions w !! JS.toString jobId ≠ Some [] →
     subscriptions w1 = subscriptions w)
  ∧ subscriptions w2 = subscriptions w1
  ∧ wire w2 = wire w1 ++ [mkSend ws (msg_unsubscribed jobId) true].
Proof.
  intros Hauth Hsend w1 w2.
  pose proof (authenticatedAs_check _ _ _ Hauth) as Hchk.
  pose proof (handleUnsubscription_spec ws jobId w Hchk) as Hrun.
  cbv zeta in Hrun. rewrite Hsend in Hrun.
  assert (Hw1 : w1 = rewire (unsubscribed ws jobId (subscriptions w))
                            [mkSend ws (msg_unsubscribed jobId) true] w)
    by (unfold w1, exec; by rewrite Hrun).
  assert (Hchk1 : notAuthenticated (sockets w1 ws) = false) by (by rewrite Hw1).
  pose proof (handleUnsubscription_spec ws jobId w1 Hchk1) as Hrun1.
  cbv zeta in Hrun1.
  assert (Hsend1 : Socket.sendThrows (sockets w1 ws) = false) by (by rewrite Hw1).
  rewrite Hsend1 in Hrun1.
  assert (Hw2 : w2 = rewire (unsubscribed ws jobId (subscriptions w1))
                            [mkSend ws (msg_unsubscribed jobId) true] w1)
    by (unfold w2, exec; by rewrite Hrun1).
  split; [unfold result; by rewrite Hrun|].
  split; [by rewrite Hw1|].
  assert (Hkey : subscriptions w1 !! JS.toString jobId
                 = (subscriptions w !! JS.toString jobId ≫= withoutSocket ws)).
  { rewrite Hw1. simpl. by rewrite unsubscribed_lookup, decide_True. }
  split.
  { unfold subscribersOf. rewrite Hkey.
    destruct (subscriptions w !! JS.toString jobId) as [s|]; simpl;
      [|apply not_elem_of_nil].
    destruct (withoutSocket ws s) as [s'|] eqn:Hs; simpl; [|apply not_elem_of_nil].
    apply withoutSocket_lookup in Hs as [-> _]. rewrite elem_of_set_delete. tauto. }
  split; [done|]. split.
  { intros key Hne. rewrite Hw1. simpl. by rewrite unsubscribed_lookup, decide_False. }
  split.
  { intros Hin Hnonempty. rewrite Hw1. simpl. unfold unsubscribed, subscribersOf in *.
    destruct (subscriptions w !! JS.toString jobId) as [s|] eqn:Hs; [|done].
    simpl in Hin. unfold withoutSocket. rewrite (set_delete_absent _ _ Hin).
    unfold JS.set_size. rewrite bool_decide_false.
    - by apply insert_id.
    - destruct s; [done|]. simpl. lia. }
  split.
  - rewrite Hw2. simpl. rewrite Hw1. simpl. apply unsubscribed_again.
  - by rewrite Hw2.
Qed.

(** Sockets 1 and 3 follow job 7 and socket 1 leaves; then socket 1,
    which never followed job 42, asks to leave it. *)
Lemma unsubscribe_confirms_and_is_idempotent_witness :
  let w1 := exec (handleUnsubscription 1 7) Scenario.crowded in
  wire w1 = [mkSend 1 (msg_unsubscribed 7) true]
  ∧ subscriptions w1 !! "7"%string = Some [3]
  ∧ subscriptions (exec (handleUnsubscription 1 42) Scenario.crowded)
    = subscriptions Scenario.crowded.
Proof.
  intros w1.
  destruct (unsubscribe_confirms_and_is_idempotent 1 7 "alice" Scenario.crowded)
    as (_ & Hwire & _ & Hkey & _); [repeat split; done|reflexivity|].
  destruct (unsubscribe_confirms_and_is_idempotent 1 42 "alice" Scenario.crowded)
    as (_ & _ & _ & _ & _ & Hsame & _); [repeat split; done|reflexivity|].
  split; [exact Hwire|]. split; [exact Hkey|].
  apply Hsame.
  - vm_compute. intros Hin. apply list_elem_of_singleton in Hin. discriminate.
  - discriminate.
Defined.

(** What [handleSubscription] can do to the registry, in any store. *)
Lemma handleSubscription_registry ws jobId w :
  let w' := exec (handleSubscription ws jobId) w in
  subscriptions w' = subscriptions w
  ∨ subscriptions w'
    = <[JS.toString jobId := JS.set_add ws (subscribersOf jobId w)]> (subscriptions w).
Proof.
  unfold handleSubscription, Storage.getJob, Storage.getDocument, send, subscribersOf.
  run_unfold. simpl.
  destruct (notAuthenticated (sockets w ws)); simpl;
    [left; by destruct (Socket.sendThrows (sockets w ws))|].
  destruct (dbFails w (OpGetJob jobId)); simpl;
    [left; by destruct (Socket.sendThrows (sockets w ws))|].
  destruct (Storage.findJob jobId (jobs w)) as [job|]; simpl;
    [|left; by destruct (Socket.sendThrows (sockets w ws))].
  case_bool_decide; simpl; [left; by destruct (Socket.sendThrows (sockets w ws))|].
  right.
  destruct (subscriptions w !! JS.toString jobId) as [subscribers|] eqn:Hsub; simpl.
  - rewrite Hsub.
    destruct (JS.set_has ws subscribers) eqn:Hhas; simpl.
    + rewrite (set_add_id _ _ Hhas), (insert_id _ _ _ Hsub).
      destruct (Socket.sendThrows (sockets w ws)) eqn:Hs; simpl;
        [|destruct (dbFails w (OpGetDocument _)); simpl];
        rewrite ?Hs; simpl; done.
    + destruct (Socket.sendThrows (sockets w ws)) eqn:Hs; simpl;
        [|destruct (dbFails w (OpGetDocument _)); simpl];
        rewrite ?Hs; simpl; done.
  - rewrite lookup_insert_eq. simpl.
    destruct (Socket.sendThrows (sockets w ws)) eqn:Hs; simpl;
      [|destruct (dbFails w (OpGetDocument _)); simpl];
      rewrite ?Hs; simpl; by rewrite ?insert_insert_eq.
Qed.

(** X2.  Subscribing and then unsubscribing gives the registry back:
    when the owner of a stored job subscribes on a socket that was not a
    subscriber (the job's set, if there is one, not being empty) and then
    unsubscribes, the registry is exactly what it was. *)
Theorem subscribe_then_unsubscribe ws jobId U job w :
  authenticatedAs w ws U →
  dbFails w (OpGetJob jobId) = false →
  Storage.findJob jobId (jobs w) = Some job →
  Job.userId job = U →
  ws ∉ subscribersOf jobId w →
  subscriptions w !! JS.toString jobId ≠ Some [] →
  let w1 := exec (handleSubscription ws jobId) w in
  let w2 := exec (handleUnsubscription ws jobId) w1 in
  ws ∈ subscribersOf jobId w1
  ∧ subscriptions w2 = subscriptions w.
Proof.
  intros Hauth Hdb Hjob Hown Hnew Hne w1 w2.
  destruct (handleSubscription_owner ws jobId U job w Hauth Hdb Hjob Hown)
    as (Hsub1 & _ & _).
  destruct (handleSubscription_frame ws jobId w) as (Hsk & _).
  fold w1 in Hsub1, Hsk.
  assert (Hchk1 : notAuthenticated (sockets w1 ws) = false).
  { rewrite Hsk. by apply (authenticatedAs_check _ _ U). }
  pose proof (handleUnsubscription_spec ws jobId w1 Hchk1) as Hrun.
  cbv zeta in Hrun.
  assert (Hw2 : subscriptions w2 = unsubscribed ws jobId (subscriptions w1))
    by (unfold w2, exec; by rewrite Hrun).
  split.
  - unfold subscribersOf at 1. rewrite Hsub1, lookup_insert_eq. simpl.
    apply elem_of_set_add. by left.
  - rewrite Hw2, Hsub1. unfold unsubscribed. rewrite lookup_insert_eq.
    unfold withoutSocket. rewrite (set_delete_added _ _ Hnew).
    unfold subscribersOf in *. unfold JS.set_size.
    destruct (subscriptions w !! JS.toString jobId) as [s|] eqn:Hs; simpl.
    + destruct s as [|x s]; [done|]. simpl.
      rewrite insert_insert_eq. by apply insert_id.
    + rewrite delete_insert_eq. by apply delete_id.
Qed.

(** Nobody follows job 7; Alice subscribes on socket 1 and
    unsubscribes. *)
Lemma subscribe_then_unsubscribe_witness :
  let w1 := exec (handleSubscription 1 7) Scenario.fresh in
  let w2 := exec (handleUnsubscription 1 7) w1 in
  1 ∈ subscribersOf 7 w1 ∧ subscriptions w2 = subscriptions Scenario.fresh.
Proof.
  apply (subscribe_then_unsubscribe 1 7 "alice" Scenario.job7 Scenario.fresh).
  - repeat split; done.
  - reflexivity.
  - reflexivity.
  - reflexivity.
  - apply not_elem_of_nil.
  - discriminate.
Defined.

Lemma wellFormed_insert key (s : list nat) subs :
  wellFormed subs → s ≠ [] → NoDup s → wellFormed (<[key := s]> subs).
Proof.
  intros Hwf Hne Hnd k s'. rewrite lookup_insert. case_decide; subst.
  - by intros [= <-].
  - apply Hwf.
Qed.

Lemma wellFormed_delete key subs :
  wellFormed subs → wellFormed (delete key subs).
Proof.
  intros Hwf k s'. rewrite lookup_delete. case_decide; [done|]. apply Hwf.
Qed.

Lemma NoDup_set_add_nat (x : nat) (s : list nat) : NoDup s → NoDup (JS.set_add x s).
Proof.
  intros Hnd. unfold JS.set_add, JS.set_has. case_bool_decide as Hin; [done|].
  apply NoDup_app. split; [done|]. split; [|apply NoDup_singleton].
  intros y Hy Hx. apply list_elem_of_singleton in Hx. by subst.
Qed.

Lemma set_add_nonempty (x : nat) (s : list nat) : JS.set_add x s ≠ [].
Proof.
  unfold JS.set_add, JS.set_has. case_bool_decide as Hin.
  - intros ->. by apply elem_of_nil in Hin.
  - by destruct s.
Qed.

Lemma wellFormed_unsubscribed ws jobId subs :
  wellFormed subs → wellFormed (unsubscribed ws jobId subs).
Proof.
  intros Hwf. unfold unsubscribed.
  destruct (subs !! JS.toString jobId) as [s|] eqn:Hs; [|done].
  destruct (withoutSocket ws s) as [s'|] eqn:Hw.
  - apply withoutSocket_lookup in Hw as [-> Hne].
    apply wellFormed_insert; [done..|].
    apply NoDup_filter. by apply (Hwf _ _ Hs).
  - by apply wellFormed_delete.
Qed.

Lemma getAllSubscriptions_lookup w key :
  ConnectionHandlers.getAllSubscriptions w !! key
  = JS.set_size <$> subscriptions w !! key.
Proof.
  unfold ConnectionHandlers.getAllSubscriptions, Object_keys.
  set (subs := subscriptions w).
  set (step := λ (result : gmap string nat) (jobId : string),
         match subs !! jobId with
         | Some subscribers => <[jobId := JS.set_size subscribers]> result
         | None => result
         end).
  assert (Hgen : ∀ keys acc,
    foldl step acc keys !! key
    = match subs !! key with
      | Some s => if decide (key ∈ keys) then Some (JS.set_size s) else acc !! key
      | None => acc !! key
      end).
  { induction keys as [|k keys IH]; intros acc; simpl.
    - by destruct (subs !! key).
    - rewrite IH. unfold step.
      destruct (subs !! key) as [s|] eqn:Hkey.
      + destruct (decide (key ∈ keys)) as [Hin|Hin].
        * by rewrite decide_True by (by right).
        * destruct (decide (key = k)) as [->|Hne].
          -- rewrite decide_True by left. by rewrite Hkey, lookup_insert_eq.
          -- rewrite decide_False by set_solver.
             destruct (subs !! k); [by rewrite lookup_insert_ne|done].
      + destruct (decide (key = k)) as [->|Hne]; [by rewrite Hkey|].
        destruct (subs !! k); [by rewrite lookup_insert_ne|done]. }
  rewrite Hgen, lookup_empty.
  destruct (subs !! key) as [s|] eqn:Hk; [|done]. simpl.
  rewrite decide_True; [done|].
  apply list_elem_of_fmap. exists (key, s).
  split; [done|]. by apply elem_of_map_to_list.
Qed.

(** X3.  The registry stays well formed: if no key maps to an empty set
    and no set holds a socket twice, the same is true after
    [handleSubscription], [handleUnsubscription], [cleanupSubscriptions]
    and [broadcastProgress], whatever their arguments.  In a well-formed
    registry [getSubscriberCount] is 0 exactly for the jobs without an
    entry, [getAllSubscriptions] lists no zero, and the two agree. *)
Theorem registry_stays_well_formed ws jobId (event : Message) w :
  wellFormed (subscriptions w) →
  wellFormed (subscriptions (exec (handleSubscription ws jobId) w))
  ∧ wellFormed (subscriptions (exec (handleUnsubscription ws jobId) w))
  ∧ wellFormed (subscriptions (exec (cleanupSubscriptions ws) w))
  ∧ wellFormed (subscriptions (exec (broadcastProgress jobId event) w))
  ∧ (getSubscriberCount jobId w = 0 ↔ subscriptions w !! JS.toString jobId = None)
  ∧ (∀ key n, ConnectionHandlers.getAllSubscriptions w !! key = Some n → 0 < n)
  ∧ getSubscriberCount jobId w
    = default 0 (ConnectionHandlers.getAllSubscriptions w !! JS.toString jobId).
Proof.
  intros Hwf. split; [|split; [|split; [|split; [|split; [|split]]]]].
  - destruct (handleSubscription_registry ws jobId w) as [->| ->]; [done|].
    apply wellFormed_insert; [done|apply set_add_nonempty|].
    apply NoDup_set_add_nat. unfold subscribersOf.
    destruct (subscriptions w !! JS.toString jobId) as [s|] eqn:Hs; simpl.
    + by apply (Hwf _ _ Hs).
    + constructor.
  - destruct (notAuthenticated (sockets w ws)) eqn:Hchk.
    + unfold exec. by rewrite (handleUnsubscription_unauthenticated _ _ _ Hchk).
    + unfold exec. rewrite (handleUnsubscription_spec _ _ _ Hchk). simpl.
      by apply wellFormed_unsubscribed.
  - unfold exec. rewrite cleanupSubscriptions_spec. simpl.
    intros key s. rewrite lookup_omap.
    destruct (subscriptions w !! key) as [s0|] eqn:Hs; [|done]. simpl.
    intros Hw. apply withoutSocket_lookup in Hw as [-> Hne].
    split; [done|]. apply NoDup_filter. by apply (Hwf _ _ Hs).
  - unfold exec. rewrite broadcastProgress_spec. simpl.
    destruct (subscriptions w !! JS.toString jobId) as [[|c rest]|] eqn:Hs;
      [done| |done].
    simpl. destruct (filter (deliverable w) (c :: rest)) as [|l ls] eqn:Hlive.
    + by apply wellFormed_delete.
    + apply wellFormed_insert; [done..|]. rewrite <- Hlive.
      apply NoDup_filter. by apply (Hwf _ _ Hs).
  - unfold getSubscriberCount, JS.set_size.
    destruct (subscriptions w !! JS.toString jobId) as [s|] eqn:Hs; [|done].
    destruct (Hwf _ _ Hs) as [Hne _]. destruct s; [done|]. simpl. split; [lia|done].
  - intros key n. rewrite getAllSubscriptions_lookup.
    destruct (subscriptions w !! key) as [s|] eqn:Hs; [|done]. simpl.
    intros [= <-]. destruct (Hwf _ _ Hs) as [Hne _]. unfold JS.set_size.
    destruct s; [done|]. simpl. lia.
  - rewrite getAllSubscriptions_lookup. unfold getSubscriberCount.
    by destruct (subscriptions w !! JS.toString jobId).
Qed.

Lemma crowded_well_formed : wellFormed (subscriptions Scenario.crowded).
Proof.
  intros key s Hs. unfold Scenario.crowded, Scenario.world in Hs. simpl in Hs.
  apply lookup_insert_Some in Hs as [[_ <-]|[_ Hs]].
  { split; [done|]. repeat (constructor; [set_solver|]). constructor. }
  apply lookup_singleton_Some in Hs as [_ <-].
  split; [done|]. repeat (constructor; [set_solver|]). constructor.
Qed.

(** The registry with jobs 7 and 42 stays well formed when socket 1
    leaves job 7. *)
Lemma registry_stays_well_formed_witness :
  wellFormed (subscriptions (exec (handleUnsubscription 1 7) Scenario.crowded))
  ∧ getSubscriberCount 7 Scenario.crowded = 2.
Proof.
  destruct (registry_stays_well_formed 1 7 MPong Scenario.crowded crowded_well_formed)
    as (_ & Hunsub & _).
  split; [exact Hunsub|reflexivity].
Defined.

(** X4.  The refusals of [handleSubscription].  A socket that fails the
    authentication test is told that authentication is required, and
    storage is not read.  For an authenticated socket, a job id with no
    stored job is answered with the not-found error, and a storage
    failure while reading the job with the failure message.  In all
    three cases the registry is left as it is.  ([raises] tells whether
    the socket refuses the write; the handler then tries once to report
    the failure.) *)
Theorem subscribe_refusals ws jobId w :
  let w' := exec (handleSubscription ws jobId) w in
  let raises := Socket.sendThrows (sockets w ws) in
  let reply (m : Message) :=
    mkSend ws m (negb raises)
    :: (if raises then [mkSend ws msg_subscribe_failed false] else []) in
  (notAuthenticated (sockets w ws) = true →
   subscriptions w' = subscriptions w ∧ wire w' = wire w ++ reply msg_auth_required)
  ∧ (notAuthenticated (sockets w ws) = false →
     dbFails w (OpGetJob jobId) = true →
     subscriptions w' = subscriptions w
     ∧ wire w' = wire w ++ [mkSend ws msg_subscribe_failed (negb raises)])
  ∧ (notAuthenticated (sockets w ws) = false →
     dbFails w (OpGetJob jobId) = false →
     Storage.findJob jobId (jobs w) = None →
     subscriptions w' = subscriptions w ∧ wire w' = wire w ++ reply msg_job_not_found)
  ∧ jobs w' = jobs w.
Proof.
  intros w' raises reply. subst w' raises reply.
  split; [|split; [|split]].
  - intros Hchk. unfold handleSubscription, send. run_unfold. rewrite Hchk. simpl.
    destruct (Socket.sendThrows (sockets w ws)) eqn:Hs; simpl; rewrite ?Hs; simpl;
      by rewrite <- ?app_assoc.
  - intros Hchk Hdb. unfold handleSubscription, Storage.getJob, send. run_unfold.
    rewrite Hchk, Hdb. simpl. done.
  - intros Hchk Hdb Hjob. unfold handleSubscription, Storage.getJob, send. run_unfold.
    rewrite Hchk, Hdb, Hjob. simpl.
    destruct (Socket.sendThrows (sockets w ws)) eqn:Hs; simpl; rewrite ?Hs; simpl;
      by rewrite <- ?app_assoc.
  - apply handleSubscription_frame.
Qed.

(** Bob's socket 2 asks for job 8, which does not exist. *)
Lemma subscribe_refusals_witness :
  let w' := exec (handleSubscription 2 8) Scenario.crowded in
  subscriptions w' = subscriptions Scenario.crowded
  ∧ wire w' = [mkSend 2 msg_job_not_found true].
Proof.
  destruct (subscribe_refusals 2 8 Scenario.crowded) as (_ & _ & Hmissing & _).
  apply Hmissing; reflexivity.
Defined.

End Handlers.

(* ===================================================================== *)
(** * Further properties of the broadcast *)
(* ===================================================================== *)

Section Fanout.
Import WebSocketService.

(** What a broadcast adds to the wire and leaves of the job's set, in
    every case. *)
Lemma broadcastProgress_effect jobId (event : Message) w :
  let w' := exec (broadcastProgress jobId event) w in
  wire w' = wire w ++ attempts w event (subscribersOf jobId w)
  ∧ subscribersOf jobId w' = filter (deliverable w) (subscribersOf jobId w)
  ∧ sockets w' = sockets w
  ∧ (∀ key, key ≠ JS.toString jobId →
            subscriptions w' !! key = subscriptions w !! key).
Proof.
  unfold exec. rewrite broadcastProgress_spec. simpl. unfold subscribersOf.
  destruct (subscriptions w !! JS.toString jobId) as [[|c rest]|] eqn:Hs; simpl.
  - rewrite Hs. unfold attempts. simpl. by rewrite app_nil_r.
  - split; [done|]. split; [|split; [done|]].
    + destruct (filter (deliverable w) (c :: rest)) as [|l ls] eqn:Hlive.
      * by rewrite lookup_delete_eq.
      * by rewrite lookup_insert_eq.
    + intros key Hne.
      destruct (filter (deliverable w) (c :: rest)) as [|l ls] eqn:Hlive.
      * by rewrite lookup_delete_ne.
      * by rewrite lookup_insert_ne.
  - rewrite Hs. unfold attempts. simpl. by rewrite app_nil_r.
Qed.

Lemma emitted_app w w' (new : list SendEvent) :
  wire w' = wire w ++ new → emitted w w' = new.
Proof. intros Hw. unfold emitted. by rewrite Hw, drop_app_length. Qed.

(** X5.  A broadcast for one job concerns that job only.  Every call of
    [send] it makes carries the event and goes to a subscriber of the job
    whose transport is open; every such subscriber gets one, and exactly
    one if the set holds it once; the entries of the other job ids are
    untouched (two job ids never share a key); and the broadcast adds no
    subscriber. *)
Theorem broadcast_concerns_one_job jobId (event : Message) w :
  let w' := exec (broadcastProgress jobId event) w in
  let new := emitted w w' in
  wire w' = wire w ++ new
  ∧ (∀ e, e ∈ new →
          payload e = event
          ∧ target e ∈ subscribersOf jobId w
          ∧ transportOpen w (target e))
  ∧ (∀ ws, ws ∈ subscribersOf jobId w → transportOpen w ws →
           mkSend ws event (negb (Socket.sendThrows (sockets w ws))) ∈ new)
  ∧ (NoDup (subscribersOf jobId w) → NoDup (target <$> new))
  ∧ (∀ other, other ≠ jobId → subscribersOf other w' = subscribersOf other w)
  ∧ (∀ ws, ws ∈ subscribersOf jobId w' → ws ∈ subscribersOf jobId w).
Proof.
  intros w' new.
  destruct (broadcastProgress_effect jobId event w) as (Hwire & Hset & _ & Hother).
  fold w' in Hwire, Hset, Hother.
  assert (Hnew : new = attempts w event (subscribersOf jobId w))
    by (by apply emitted_app).
  rewrite Hnew. split; [done|]. split; [|split; [|split; [|split]]].
  - intros e He. unfold attempts in He.
    apply list_elem_of_fmap in He as (ws & -> & Hin).
    apply list_elem_of_filter in Hin as [Hopen Hin]. done.
  - intros ws Hin Hopen. unfold attempts. apply list_elem_of_fmap. exists ws.
    split; [done|]. by apply list_elem_of_filter.
  - intros Hnd. unfold attempts. rewrite <- list_fmap_compose.
    rewrite (list_fmap_ext _ id (filter (transportOpen w) (subscribersOf jobId w)))
      by done.
    rewrite list_fmap_id. by apply NoDup_filter.
  - intros other Hne. unfold subscribersOf. rewrite Hother; [done|].
    intros Heq. apply Hne. symmetry. by apply (inj JS.toString).
  - intros ws. rewrite Hset. by intros [_ ?]%list_elem_of_filter.
Qed.

(** An event for job 7 goes to socket 1 and not to socket 2, which
    follows job 42. *)
Lemma broadcast_concerns_one_job_witness :
  let event := MProgress 7 PROCESSING 30 "Extracting video captions..." None in
  let w' := exec (broadcastProgress 7 event) Scenario.crowded in
  emitted Scenario.crowded w' = [mkSend 1 event true]
  ∧ subscribersOf 42 w' = [2].
Proof.
  intros event w'.
  destruct (broadcast_concerns_one_job 7 event Scenario.crowded)
    as (_ & _ & _ & _ & Hother & _).
  split; [reflexivity|]. exact (Hother 42%Z ltac:(discriminate)).
Defined.

(** X6.  After a broadcast the job's subscribers are exactly the former
    subscribers that were open and took the write; a second broadcast,
    with the sockets as they were, sends its event to each of them and
    leaves the registry as the first left it. *)
Theorem broadcast_keeps_the_live jobId (event event' : Message) w :
  let w1 := exec (broadcastProgress jobId event) w in
  let w2 := exec (broadcastProgress jobId event') w1 in
  (∀ ws, ws ∈ subscribersOf jobId w1
         ↔ ws ∈ subscribersOf jobId w ∧ deliverable w ws)
  ∧ subscriptions w2 = subscriptions w1
  ∧ wire w2 = wire w1 ++ ((λ ws, mkSend ws event' true) <$> subscribersOf jobId w1).
Proof.
  intros w1 w2.
  destruct (broadcastProgress_effect jobId event w) as (_ & Hset & Hsk & _).
  fold w1 in Hset, Hsk.
  assert (Hlive : ∀ ws, ws ∈ subscribersOf jobId w1 → deliverable w1 ws).
  { intros ws. rewrite Hset. intros [Hd _]%list_elem_of_filter.
    unfold deliverable in *. by rewrite Hsk. }
  split; [intros ws; rewrite Hset; rewrite list_elem_of_filter; tauto|].
  assert (Hkeep : filter (deliverable w1) (subscribersOf jobId w1)
                  = subscribersOf jobId w1).
  { clear Hset. induction (subscribersOf jobId w1) as [|x l IH]; [done|].
    rewrite filter_cons_True by (apply Hlive; left).
    f_equal. apply IH. intros ws Hin. apply Hlive. by right. }
  assert (Hatt : attempts w1 event' (subscribersOf jobId w1)
                 = (λ ws, mkSend ws event' true) <$> subscribersOf jobId w1).
  { unfold attempts. clear Hset Hkeep.
    induction (subscribersOf jobId w1) as [|x l IH]; [done|].
    destruct (Hlive x) as [Hopen Hsend]; [left|].
    rewrite filter_cons_True by exact Hopen. rewrite !fmap_cons, Hsend. simpl.
    f_equal. apply IH. intros ws Hin. apply Hlive. by right. }
  split.
  - unfold w2, exec. rewrite broadcastProgress_spec. simpl.
    unfold subscribersOf in Hkeep.
    destruct (subscriptions w1 !! JS.toString jobId) as [[|c rest]|] eqn:Hs;
      [done| |done].
    simpl in *. rewrite Hkeep. by apply insert_id.
  - destruct (broadcastProgress_effect jobId event' w1) as (Hwire2 & _).
    fold w2 in Hwire2. by rewrite Hwire2, Hatt.
Qed.

(** Job 7: the closed socket 3 is dropped by the first broadcast, and
    the second goes to socket 1 alone. *)
Lemma broadcast_keeps_the_live_witness :
  let first := MProgress 7 PROCESSING 80 "Generating document..." None in
  let second := MProgress 7 PROCESSING 90 "Saving document..." None in
  let w1 := exec (broadcastProgress 7 first) Scenario.crowded in
  let w2 := exec (broadcastProgress 7 second) w1 in
  subscriptions w2 = subscriptions w1
  ∧ wire w2 = [mkSend 1 first true; mkSend 1 second true].
Proof.
  intros first second w1 w2.
  destruct (broadcast_keeps_the_live 7 first second Scenario.crowded)
    as (_ & Hsame & Hwire).
  split; [exact Hsame|]. fold w1 w2 in Hwire. rewrite Hwire. reflexivity.
Defined.

End Fanout.

(* ===================================================================== *)
(** * The message handler of a connection *)
(* ===================================================================== *)

Section Dispatcher.
Import WebSocketService ConnectionHandlers.

Lemma handleUnsubscription_cases ws jobId w :
  let raises := Socket.sendThrows (sockets w ws) in
  ∃ subs new,
    handleUnsubscription ws jobId w
    = (if raises then Thrown None else Returned tt, rewire subs new w)
    ∧ Forall (λ e, target e = ws) new
    ∧ (notAuthenticated (sockets w ws) = true → subs = subscriptions w).
Proof.
  intros raises. destruct (notAuthenticated (sockets w ws)) eqn:Hchk.
  - eexists _, _. split; [by apply handleUnsubscription_unauthenticated|].
    split; [|done]. subst raises. destruct (Socket.sendThrows _); by repeat constructor.
  - eexists _, _. split; [by apply handleUnsubscription_spec|].
    split; [|done]. subst raises. destruct (Socket.sendThrows _); by repeat constructor.
Qed.

Lemma handleSubscription_footprint ws jobId w :
  let r := handleSubscription ws jobId w in
  let new := emitted w r.2 in
  r.1 = (if Socket.sendThrows (sockets w ws) then Thrown None else Returned tt)
  ∧ r.2 = rewire (subscriptions r.2) new w
  ∧ Forall (λ e, target e = ws) new
  ∧ (notAuthenticated (sockets w ws) = true → subscriptions r.2 = subscriptions w).
Proof.
  intros r new. subst r new.
  unfold handleSubscription, Storage.getJob, Storage.getDocument, send, emitted, rewire.
  run_unfold. simpl.
  destruct (notAuthenticated (sockets w ws)); simpl;
    [destruct (Socket.sendThrows (sockets w ws)) eqn:Hs; simpl; rewrite ?Hs;
     unfold with_wire, with_subscriptions; simpl;
     rewrite <- ?app_assoc, ?drop_app_length; by repeat constructor|].
  destruct (dbFails w (OpGetJob jobId)); simpl;
    [destruct (Socket.sendThrows (sockets w ws)) eqn:Hs; simpl; rewrite ?Hs;
     unfold with_wire, with_subscriptions; simpl;
     rewrite <- ?app_assoc, ?drop_app_length; by repeat constructor|].
  destruct (Storage.findJob jobId (jobs w)) as [job|]; simpl;
    [|destruct (Socket.sendThrows (sockets w ws)) eqn:Hs; simpl; rewrite ?Hs;
     unfold with_wire, with_subscriptions; simpl;
      rewrite <- ?app_assoc, ?drop_app_length; by repeat constructor].
  case_bool_decide; simpl;
    [destruct (Socket.sendThrows (sockets w ws)) eqn:Hs; simpl; rewrite ?Hs;
     unfold with_wire, with_subscriptions; simpl;
     rewrite <- ?app_assoc, ?drop_app_length; by repeat constructor|].
  destruct (subscriptions w !! JS.toString jobId) as [subscribers|] eqn:Hsub; simpl;
    rewrite ?Hsub, ?lookup_insert_eq; simpl;
    try (destruct (JS.set_has ws subscribers); simpl);
    (destruct (Socket.sendThrows (sockets w ws)) eqn:Hs; simpl;
      [|destruct (dbFails w (OpGetDocument _)); simpl]);
    rewrite ?Hs; unfold with_wire, with_subscriptions; simpl;
    rewrite <- ?app_assoc, ?drop_app_length; by repeat constructor.
Qed.

Lemma handleSubscription_cases ws jobId w :
  let raises := Socket.sendThrows (sockets w ws) in
  ∃ subs new,
    handleSubscription ws jobId w
    = (if raises then Thrown None else Returned tt, rewire subs new w)
    ∧ Forall (λ e, target e = ws) new
    ∧ (notAuthenticated (sockets w ws) = true → subs = subscriptions w).
Proof.
  intros raises. subst raises.
  destruct (handleSubscription_footprint ws jobId w) as (Hres & Hw & Hall & Hauth).
  exists (subscriptions (handleSubscription ws jobId w).2),
         (emitted w (handleSubscription ws jobId w).2).
  split; [|split; [exact Hall|exact Hauth]].
  rewrite <- Hw, <- Hres. by destruct (handleSubscription ws jobId w).
Qed.

(** The handler, case by case. *)
Lemma onMessage_cases ws message w :
  let raises := Socket.sendThrows (sockets w ws) in
  ∃ subs new,
    onMessage ws message w
    = (if raises && negb (bool_decide (new = [])) then Thrown None else Returned tt,
       rewire subs new w)
    ∧ Forall (λ e, target e = ws) new
    ∧ (notAuthenticated (sockets w ws) = true → subs = subscriptions w).
Proof.
  intros raises. subst raises. unfold onMessage.
  assert (Hid : w = rewire (subscriptions w) [] w).
  { unfold rewire. rewrite app_nil_r. by destruct w. }
  destruct message as [|type jobId].
  { unfold try_catch, throw, send. simpl.
    exists (subscriptions w),
           [mkSend ws msg_invalid_format (negb (Socket.sendThrows (sockets w ws)))].
    split; [|split; [by repeat constructor|done]].
    by destruct (Socket.sendThrows (sockets w ws)). }
  destruct (bool_decide (type = Some "subscribe"%string) && JS.truthy_num jobId).
  { destruct (handleSubscription_cases ws (default 0%Z jobId) w)
      as (subs & new & Hrun & Hall & Hauth).
    unfold try_catch. rewrite Hrun.
    destruct (Socket.sendThrows (sockets w ws)) eqn:Hs; simpl.
    - unfold send. simpl. rewrite Hs. simpl.
      exists subs, (new ++ [mkSend ws msg_invalid_format false]).
      split; [|split; [|done]].
      + rewrite bool_decide_false by (by destruct new). simpl. unfold rewire, with_wire.
        simpl. by rewrite app_assoc.
      + apply Forall_app. split; [done|by repeat constructor].
    - by exists subs, new. }
  destruct (bool_decide (type = Some "unsubscribe"%string) && JS.truthy_num jobId).
  { destruct (handleUnsubscription_cases ws (default 0%Z jobId) w)
      as (subs & new & Hrun & Hall & Hauth).
    unfold try_catch. rewrite Hrun.
    destruct (Socket.sendThrows (sockets w ws)) eqn:Hs; simpl.
    - unfold send. simpl. rewrite Hs. simpl.
      exists subs, (new ++ [mkSend ws msg_invalid_format false]).
      split; [|split; [|done]].
      + rewrite bool_decide_false by (by destruct new). simpl. unfold rewire, with_wire.
        simpl. by rewrite app_assoc.
      + apply Forall_app. split; [done|by repeat constructor].
    - by exists subs, new. }
  destruct (bool_decide (type = Some "ping"%string)).
  { unfold try_catch, send. simpl.
    destruct (Socket.sendThrows (sockets w ws)) eqn:Hs; simpl; rewrite ?Hs; simpl.
    - exists (subscriptions w), [mkSend ws MPong false; mkSend ws msg_invalid_format false].
      split; [|split; [by repeat constructor|done]].
      unfold rewire, with_wire. simpl. by rewrite <- app_assoc.
    - exists (subscriptions w), [mkSend ws MPong true].
      split; [done|]. split; [by repeat constructor|done]. }
  exists (subscriptions w), []. unfold try_catch, ret. simpl.
  rewrite andb_false_r. by rewrite <- Hid.
Qed.

(** X7.  What a client can do through the message handler.  Whatever it
    sends, the handler writes to the sender's socket only and leaves the
    stored jobs alone; a socket that is not authenticated cannot change
    the registry; a subscribe or unsubscribe request whose [jobId] is
    absent or [0], and a request of any other type than ping, is dropped
    without a reply; a payload that does not parse is answered with
    'Invalid message format'; and a ping is answered with a pong.  On a
    socket that takes the writes, a subscribe or unsubscribe request for
    a job id other than [0] is the handler of this request and nothing
    more. *)
Theorem message_handler_dispatch ws message w :
  let w' := exec (onMessage ws message) w in
  let raises := Socket.sendThrows (sockets w ws) in
  (∀ e, e ∈ emitted w w' → target e = ws)
  ∧ jobs w' = jobs w
  ∧ (notAuthenticated (sockets w ws) = true → subscriptions w' = subscriptions w)
  ∧ (∀ type jobId,
       type ≠ Some "ping"%string →
       JS.truthy_num jobId = false ∨ (type ≠ Some "subscribe"%string
                                      ∧ type ≠ Some "unsubscribe"%string) →
       onMessage ws (Parsed type jobId) w = (Returned tt, w))
  ∧ emitted w (exec (onMessage ws Unparseable) w)
    = [mkSend ws msg_invalid_format (negb raises)]
  ∧ (∀ jobId,
       emitted w (exec (onMessage ws (Parsed (Some "ping"%string) jobId)) w)
       = mkSend ws MPong (negb raises)
         :: (if raises then [mkSend ws msg_invalid_format false] else []))
  ∧ (raises = false →
     ∀ jobId, jobId ≠ 0%Z →
       onMessage ws (Parsed (Some "subscribe"%string) (Some jobId)) w
       = handleSubscription ws jobId w
       ∧ onMessage ws (Parsed (Some "unsubscribe"%string) (Some jobId)) w
         = handleUnsubscription ws jobId w).
Proof.
  intros w' raises.
  destruct (onMessage_cases ws message w) as (subs & new & Hrun & Hall & Hauth).
  assert (Hw' : w' = rewire subs new w) by (unfold w', exec; by rewrite Hrun).
  split; [|split; [|split; [|split; [|split; [|split]]]]].
  - intros e He. rewrite (emitted_app w w' new) in He by (by rewrite Hw').
    by apply (proj1 (Forall_forall _ _) Hall).
  - by rewrite Hw'.
  - intros Hchk. rewrite Hw'. simpl. by apply Hauth.
  - intros type jobId Hping Hdrop. unfold onMessage, try_catch.
    rewrite (bool_decide_false (type = Some "ping"%string)) by done.
    destruct Hdrop as [->|[Hs Hu]].
    + by rewrite !andb_false_r.
    + rewrite (bool_decide_false (type = Some "subscribe"%string)) by done.
      by rewrite (bool_decide_false (type = Some "unsubscribe"%string)) by done.
  - apply emitted_app. unfold exec, onMessage, try_catch, throw, send. simpl. done.
  - intros jobId. apply emitted_app. unfold exec, onMessage, try_catch, send. simpl.
    subst raises.
    destruct (Socket.sendThrows (sockets w ws)) eqn:Hs; simpl; rewrite ?Hs; simpl;
      by rewrite <- ?app_assoc.
  - intros Hs jobId Hne. subst raises.
    assert (Htruthy : JS.truthy_num (Some jobId) = true).
    { unfold JS.truthy_num. simpl. by destruct jobId. }
    unfold onMessage, try_catch. rewrite Htruthy. split.
    + rewrite bool_decide_true by done. simpl.
      destruct (handleSubscription_cases ws jobId w) as (s1 & n1 & -> & _).
      by rewrite Hs.
    + rewrite (bool_decide_false (Some "unsubscribe"%string = Some "subscribe"%string))
        by discriminate.
      rewrite bool_decide_true by done. simpl.
      destruct (handleUnsubscription_cases ws jobId w) as (s1 & n1 & -> & _).
      by rewrite Hs.
Qed.

(** The closed socket 3, which is authenticated, asks for job 0: nothing
    happens.  Socket 2 asks for job 8: the request is the subscription
    handler's. *)
Lemma message_handler_dispatch_witness :
  onMessage 3 (Parsed (Some "subscribe"%string) (Some 0%Z)) Scenario.crowded
  = (Returned tt, Scenario.crowded)
  ∧ onMessage 2 (Parsed (Some "subscribe"%string) (Some 8%Z)) Scenario.crowded
    = handleSubscription 2 8 Scenario.crowded.
Proof.
  split.
  - destruct (message_handler_dispatch 3 Unparseable Scenario.crowded)
      as (_ & _ & _ & Hdrop & _).
    apply Hdrop; [discriminate|by left].
  - destruct (message_handler_dispatch 2 Unparseable Scenario.crowded)
      as (_ & _ & _ & _ & _ & _ & Hsame).
    apply Hsame; [reflexivity|discriminate].
Defined.

End Dispatcher.

(* ===================================================================== *)
(** * The session cookie and the connection it opens *)
(* ===================================================================== *)

Section SessionCookie.
Import WebSocketService.
Variable decodeURIComponent : string → option string.

Lemma lastIndexOf_bounds c s :
  (-1 ≤ JSString.lastIndexOf c s < Z.of_nat (String.length s))%Z.
Proof.
  induction s as [|d rest IH]; simpl; [lia|].
  destruct (Z.leb_spec 0 (JSString.lastIndexOf c rest)); [lia|].
  case_decide; lia.
Qed.

Lemma lastIndexOf_absent c s :
  c ∉ list_ascii_of_string s → JSString.lastIndexOf c s = (-1)%Z.
Proof.
  induction s as [|d rest IH]; simpl; [done|]. intros Hnot.
  rewrite IH by set_solver. simpl. rewrite decide_False; [done|set_solver].
Qed.

Lemma lastIndexOf_last c (a b : string) :
  c ∉ list_ascii_of_string b →
  JSString.lastIndexOf c (a ++ String c b) = Z.of_nat (String.length a).
Proof.
  intros Hnot. induction a as [|d rest IH]; simpl.
  - rewrite (lastIndexOf_absent _ _ Hnot). simpl. by rewrite decide_True.
  - rewrite IH. destruct (Z.leb_spec 0 (Z.of_nat (String.length rest))); lia.
Qed.

Lemma sliceTo_app (a b : string) : JSString.sliceTo (String.length a) (a ++ b) = a.
Proof. induction a as [|d rest IH]; simpl; [by destruct b|by rewrite IH]. Qed.

Lemma sliceTo_nonempty n s :
  (0 < n)%nat → s ≠ ""%string → JSString.sliceTo n s ≠ ""%string.
Proof. destruct n, s; simpl; try done; lia. Qed.

(** X8.  The session id of a signed cookie.  The cookie
    [s:<id>.<signature>], with a non-empty id and a signature without a
    dot, decodes to the id: the signature is not examined, so the cookie
    of any other such signature decodes to the same id, and the URI
    decoder is not consulted.  A cookie that starts with [s:] and has
    no dot after its third character decodes to nothing.  And whatever
    the cookie, a session id that comes out is not the empty string. *)
Theorem signed_cookie_decodes_to_id (id signature : string) :
  id ≠ ""%string →
  "."%char ∉ list_ascii_of_string signature →
  decodeSessionId decodeURIComponent ("s:" ++ id ++ "." ++ signature) = Some id
  ∧ (∀ forged, "."%char ∉ list_ascii_of_string forged →
       decodeSessionId decodeURIComponent ("s:" ++ id ++ "." ++ forged)
       = decodeSessionId decodeURIComponent ("s:" ++ id ++ "." ++ signature))
  ∧ (∀ c rest, "."%char ∉ list_ascii_of_string rest →
       decodeSessionId decodeURIComponent ("s:" ++ String c rest) = None)
  ∧ (∀ cookie sessionId,
       decodeSessionId decodeURIComponent cookie = Some sessionId →
       sessionId ≠ ""%string).
Proof.
  intros Hid Hsig.
  assert (Hdecode : ∀ sig, "."%char ∉ list_ascii_of_string sig →
            decodeSessionId decodeURIComponent ("s:" ++ id ++ "." ++ sig) = Some id).
  { intros sig Hnot. unfold decodeSessionId.
    change ("s:" ++ id ++ "." ++ sig)%string
      with (String "s" (String ":" (id ++ String "."%char sig))).
    simpl. rewrite (lastIndexOf_last _ id sig Hnot).
    destruct id as [|c rest]; [done|]. simpl String.length.
    destruct (Z.ltb_spec 0 (Z.of_nat (S (String.length rest)))); [|lia].
    rewrite Nat2Z.id. f_equal.
    apply (sliceTo_app (String c rest) (String "."%char sig)). }
  split; [by apply Hdecode|]. split; [|split].
  - intros forged Hnot. by rewrite !Hdecode.
  - intros c rest Hnot. unfold decodeSessionId.
    change ("s:" ++ String c rest)%string with (String "s" (String ":" (String c rest))).
    simpl. rewrite (lastIndexOf_absent _ _ Hnot). simpl. by case_decide.
  - intros cookie sid. unfold decodeSessionId.
    destruct (JSString.startsWith "s:" cookie).
    + generalize (JSString.sliceFrom 2 cookie). intros unsigned.
      destruct (Z.ltb_spec 0 (JSString.lastIndexOf "." unsigned)) as [Hpos|]; [|done].
      intros [= <-]. apply sliceTo_nonempty; [lia|].
      intros Hempty. rewrite Hempty in Hpos. simpl in Hpos. lia.
    + destruct (decodeURIComponent cookie) as [decoded|]; [|done].
      destruct (Nat.ltb_spec 0 (String.length decoded)) as [Hlen|]; [|done].
      intros [= <-] ->. simpl in Hlen. lia.
Qed.

End SessionCookie.

(** The cookie [s:live.] followed by a signature, whichever it is. *)
Lemma signed_cookie_decodes_to_id_witness :
  WebSocketService.decodeSessionId Scenario.plainDecode "s:live.c2lnbmF0dXJl"
  = Some "live"%string
  ∧ WebSocketService.decodeSessionId Scenario.plainDecode "s:live.forged"
    = WebSocketService.decodeSessionId Scenario.plainDecode "s:live.c2lnbmF0dXJl".
Proof.
  destruct (signed_cookie_decodes_to_id Scenario.plainDecode "live" "c2lnbmF0dXJl")
    as (Hid & Hany & _).
  - discriminate.
  - apply (bool_decide_unpack _). vm_compute. exact I.
  - split; [exact Hid|]. apply (Hany "forged"%string).
    apply (bool_decide_unpack _). vm_compute. exact I.
Defined.

Section Connection.
Import WebSocketService.
Variable decodeURIComponent : string → option string.

Lemma principal_nonempty user userId :
  principal user = Some userId → userId ≠ ""%string.
Proof.
  unfold principal. destruct user as [u|]; [|done].
  destruct (Session.claims u) as [c|]; [|done].
  destruct (Session.sub c) as [sub|]; simpl; [|done].
  destruct (String.eqb_spec sub ""); simpl; [done|]. by intros [= <-].
Qed.

(** X9.  From the cookie to the subscription.  Once the validator has
    accepted the cookie of a connection, the connection passes the
    authentication test of the subscription handler under the user id of
    the session, and no other socket has changed.  A subscribe request on
    it for a stored job of this user then makes it a subscriber of the
    job; for a stored job of another user the request is answered with
    the authorization error and the registry stays as it was. *)
Theorem validated_connection_subscribes ws cookieHeader userId sessionId jobId job w :
  Validated decodeURIComponent w cookieHeader userId sessionId →
  dbFails w (OpGetJob jobId) = false →
  Storage.findJob jobId (jobs w) = Some job →
  let w1 := exec (authenticateConnection decodeURIComponent ws cookieHeader) w in
  let w2 := exec (handleSubscription ws jobId) w1 in
  let raises := Socket.sendThrows (sockets w ws) in
  authenticatedAs w1 ws userId
  ∧ (∀ other, other ≠ ws → sockets w1 other = sockets w other)
  ∧ (Job.userId job = userId →
     subscribersOf jobId w2 = JS.set_add ws (subscribersOf jobId w))
  ∧ (Job.userId job ≠ userId →
     subscriptions w2 = subscriptions w
     ∧ emitted w w2 = mkSend ws msg_unauthorized (negb raises)
                      :: (if raises then [mkSend ws msg_subscribe_failed false] else [])).
Proof.
  intros Hval Hdb Hjob w1 w2 raises.
  destruct (authenticateConnection_cases decodeURIComponent ws cookieHeader w)
    as [(u & s & Hval' & Hrun)|[Hnone _]]; [|exfalso; apply Hnone; eauto].
  destruct (Validated_functional _ _ _ _ _ _ _ Hval Hval') as [<- <-].
  assert (Hw1 : w1 = with_socket ws (λ s, Socket.mk (Some userId) (Some true) (Some sessionId)
                                               (Socket.readyState s)
                                               (Socket.sendThrows s)) w).
  { unfold w1, exec. by rewrite Hrun. }
  assert (Hne : userId ≠ ""%string).
  { destruct Hval as (_ & _ & user & _ & _ & _ & _ & _ & _ & Hp & _).
    by apply principal_nonempty in Hp. }
  assert (Hauth : authenticatedAs w1 ws userId).
  { rewrite Hw1. unfold authenticatedAs. simpl. by rewrite decide_True. }
  assert (Hraises : Socket.sendThrows (sockets w1 ws) = raises).
  { rewrite Hw1. simpl. by rewrite decide_True. }
  assert (Hdb1 : dbFails w1 (OpGetJob jobId) = false) by (by rewrite Hw1).
  assert (Hjob1 : Storage.findJob jobId (jobs w1) = Some job) by (by rewrite Hw1).
  split; [done|]. split; [|split].
  - intros other Hother. rewrite Hw1. simpl. by rewrite decide_False.
  - intros Hown.
    destruct (handleSubscription_owner ws jobId userId job w1 Hauth Hdb1 Hjob1 Hown)
      as (Hsubs & _).
    unfold subscribersOf at 1. fold w2 in Hsubs. rewrite Hsubs, lookup_insert_eq.
    simpl. unfold subscribersOf. by rewrite Hw1.
  - intros Hforeign.
    pose proof (authenticatedAs_check _ _ _ Hauth) as Hchk.
    destruct Hauth as (_ & Hu & _).
    assert (Hrun2 : handleSubscription ws jobId w1
              = (if raises then Thrown None else Returned tt,
                 rewire (subscriptions w1)
                        (mkSend ws msg_unauthorized (negb raises)
                         :: (if raises then [mkSend ws msg_subscribe_failed false]
                             else [])) w1)).
    { unfold handleSubscription, Storage.getJob, send. run_unfold.
      rewrite Hchk, Hdb1, Hjob1.
      rewrite bool_decide_true by (rewrite Hu; congruence).
      rewrite Hraises. unfold rewire, with_wire.
      destruct raises; simpl; rewrite ?Hraises; simpl; rewrite <- ?app_assoc; simpl;
        [done|by destruct w1]. }
    assert (Hw2 : w2 = rewire (subscriptions w1)
                        (mkSend ws msg_unauthorized (negb raises)
                         :: (if raises then [mkSend ws msg_subscribe_failed false]
                             else [])) w1).
    { unfold w2, exec. by rewrite Hrun2. }
    split; [by rewrite Hw2, Hw1|].
    apply emitted_app. by rewrite Hw2, Hw1.
Qed.

End Connection.

(** Socket 9 comes in with Alice's live session cookie and asks for her
    job 7. *)
Lemma validated_connection_subscribes_witness :
  let w := with_jobs (λ _, [Scenario.job7]) Scenario.liveWorld in
  let w1 := exec (WebSocketService.authenticateConnection
                    Scenario.plainDecode 9 Scenario.liveCookie) w in
  authenticatedAs w1 9 "alice"
  ∧ subscribersOf 7 (exec (WebSocketService.handleSubscription 9 7) w1) = [9].
Proof.
  intros w w1.
  assert (Hval : Validated Scenario.plainDecode w Scenario.liveCookie "alice" "live").
  { exists "s:live.c2lnbmF0dXJl"%string,
           (Session.mk (Some (Session.mkPassport (Some Scenario.liveUser)))),
           Scenario.liveUser.
    split; [reflexivity|]. split; [discriminate|]. split; [reflexivity|].
    split; [discriminate|]. split; [reflexivity|]. split; [reflexivity|].
    split; [reflexivity|]. right. right. exists 1800000000%Z.
    split; [reflexivity|]. vm_compute. discriminate. }
  destruct (validated_connection_subscribes Scenario.plainDecode 9 Scenario.liveCookie
              "alice" "live" 7 Scenario.job7 w Hval eq_refl eq_refl)
    as (Hauth & _ & Hown & _).
  split; [exact Hauth|]. exact (Hown eq_refl).
Defined.

(* ===================================================================== *)
(** * How a run of the pipeline ends *)
(* ===================================================================== *)

Section Outcomes.
Import WebSocketService VideoProcessor.

Lemma broadcastProgress_dbFails jobId (event : Message) w :
  dbFails (exec (broadcastProgress jobId event) w) = dbFails w.
Proof.
  unfold exec. rewrite broadcastProgress_spec. simpl.
  by destruct (subscriptions w !! JS.toString jobId) as [[|c rest]|].
Qed.

(** One progress update whose write succeeds, on the stored job. *)
Lemma runUpdate_stored jobId (u : Update) job w :
  dbFails w (OpUpdateJob jobId) = false →
  Storage.findJob jobId (jobs w) = Some job →
  Storage.findJob jobId (jobs (runUpdate jobId w u))
  = Some (Job.mk (Job.id job) (Job.userId job) (Job.documentId job)
                 (Some (updateStatus u)) (Some u.1.1) (Some u.1.2) (JS.or_null u.2))
  ∧ dbFails (runUpdate jobId w u) = dbFails w.
Proof.
  intros Hdb Hjob. unfold runUpdate. unfold exec at 1 2.
  rewrite updateJobProgress_spec, Hdb. simpl.
  rewrite broadcastProgress_jobs, broadcastProgress_dbFails. simpl.
  by rewrite findJob_updateRows, Hjob.
Qed.

Lemma foldl_runUpdate_stored jobId (us : list Update) (u : Update) job w :
  dbFails w (OpUpdateJob jobId) = false →
  Storage.findJob jobId (jobs w) = Some job →
  last us = Some u →
  Storage.findJob jobId (jobs (foldl (runUpdate jobId) w us))
  = Some (Job.mk (Job.id job) (Job.userId job) (Job.documentId job)
                 (Some (updateStatus u)) (Some u.1.1) (Some u.1.2) (JS.or_null u.2)).
Proof.
  revert job w. induction us as [|v us IH]; intros job w Hdb Hjob Hlast; [done|].
  destruct (runUpdate_stored jobId v job w Hdb Hjob) as [Hstored Hdb'].
  destruct us as [|v' us].
  - simpl in *. by simplify_eq.
  - change (foldl (runUpdate jobId) w (v :: v' :: us))
      with (foldl (runUpdate jobId) (runUpdate jobId w v) (v' :: us)).
    rewrite (IH _ (runUpdate jobId w v) ltac:(by rewrite Hdb') Hstored Hlast).
    done.
Qed.

(** What [processVideo] returns. *)
Lemma processVideo_result env jobId w :
  result (processVideo env jobId) w
  = match firstFailure env with
    | None => Returned true
    | Some _ =>
      match markFailed env with
      | Passes => Returned false
      | Fails reason => Thrown reason
      end
    end.
Proof.
  unfold result, processVideo, firstFailure, stage. run_unfold.
  destruct env as [a t s g sv f m]. cbn [analyze transcript structure generate save
                                          finalize markFailed].
  rewrite updateJobProgress_run.
  destruct a; [|destruct m; cbn; by rewrite ?updateJobProgress_run].
  cbn. rewrite updateJobProgress_run.
  destruct t; [|destruct m; cbn; by rewrite ?updateJobProgress_run].
  cbn. rewrite updateJobProgress_run.
  destruct s; [|destruct m; cbn; by rewrite ?updateJobProgress_run].
  cbn. rewrite updateJobProgress_run.
  destruct g; [|destruct m; cbn; by rewrite ?updateJobProgress_run].
  cbn. rewrite updateJobProgress_run.
  destruct sv; [|destruct m; cbn; by rewrite ?updateJobProgress_run].
  destruct f; [|destruct m; cbn; by rewrite ?updateJobProgress_run].
  cbn. by rewrite updateJobProgress_run.
Qed.

(** The last progress update of a run. *)
Lemma progressUpdates_last env :
  match firstFailure env, markFailed env with
  | None, _ =>
    last (progressUpdates env) = Some (100%Z, "Document created successfully!"%string, None)
  | Some message, Passes =>
    last (progressUpdates env) = Some (0%Z, "Processing failed"%string, message)
  | Some _, Fails _ =>
    ∃ u, last (progressUpdates env) = Some u ∧ updateStatus u = PROCESSING
  end.
Proof.
  destruct env as [a t s g sv f m]. unfold progressUpdates, firstFailure.
  cbn [analyze transcript structure generate save finalize markFailed].
  destruct a, t, s, g, sv, f, m; cbn; eauto.
Qed.

(** X10.  How a run of [processVideo] on a stored job ends, when the
    job's row can be written.  If no stage fails, the run returns success
    and the job is stored as [COMPLETED] at 100.  If a stage fails and the
    document can be marked as failed, the run returns failure and the job
    is stored at progress 0 with the step 'Processing failed' and the
    error's message; its status is [FAILED] only if this message is a
    non-empty string, and [PROCESSING] otherwise.  If marking the document
    fails as well, the run raises this second error, no failure update
    is made, and the job stays stored as [PROCESSING]. *)
Theorem pipeline_outcomes env jobId job w :
  dbFails w (OpUpdateJob jobId) = false →
  Storage.findJob jobId (jobs w) = Some job →
  let run := processVideo env jobId in
  let stored := Storage.findJob jobId (jobs (exec run w)) in
  let row status progress step error :=
    Some (Job.mk (Job.id job) (Job.userId job) (Job.documentId job)
                 (Some status) (Some progress) (Some step) error) in
  match firstFailure env, markFailed env with
  | None, _ =>
    result run w = Returned true
    ∧ stored = row COMPLETED 100%Z "Document created successfully!"%string None
  | Some message, Passes =>
    result run w = Returned false
    ∧ stored = row (if JS.truthy_str message then FAILED else PROCESSING)
                   0%Z "Processing failed"%string (JS.or_null message)
  | Some _, Fails reason =>
    result run w = Thrown reason
    ∧ (Job.status <$> stored) = Some (Some PROCESSING)
  end.
Proof.
  intros Hdb Hjob run stored row. subst run stored row.
  rewrite processVideo_result, processVideo_updates.
  pose proof (progressUpdates_last env) as Hlast.
  destruct (firstFailure env) as [message|]; [destruct (markFailed env) as [|reason]|].
  - split; [done|].
    rewrite (foldl_runUpdate_stored _ _ _ _ _ Hdb Hjob Hlast).
    unfold updateStatus, statusOf. simpl fst. simpl snd.
    by destruct (JS.truthy_str message).
  - split; [done|]. destruct Hlast as (u & Hlast & Hstatus).
    rewrite (foldl_runUpdate_stored _ _ _ _ _ Hdb Hjob Hlast). simpl.
    by rewrite Hstatus.
  - split; [done|].
    by rewrite (foldl_runUpdate_stored _ _ _ _ _ Hdb Hjob Hlast).
Qed.

(** The transcript of job 7 is too short. *)
Lemma pipeline_outcomes_witness :
  let env := mkServices Passes
               (Fails (Some "Video too short or insufficient content to process"%string))
               Passes Passes Passes Passes Passes in
  result (processVideo env 7) Scenario.crowded = Returned false
  ∧ Storage.findJob 7 (jobs (exec (processVideo env 7) Scenario.crowded))
    = Some (Job.mk 7 "alice" 70 (Some FAILED) (Some 0%Z) (Some "Processing failed"%string)
                   (Some "Video too short or insufficient content to process"%string)).
Proof.
  intros env.
  exact (pipeline_outcomes env 7 Scenario.job7 Scenario.crowded eq_refl eq_refl).
Defined.




End Outcomes.


(* ===================================================================== *)
(** * The HTTP side: the stored job, the middleware, the progress route *)
(* ===================================================================== *)

Section Http.
Import WebSocketService.

Lemma findJob_updateRows_ne id other updates rows :
  other ≠ id →
  Storage.findJob other (Storage.updateRows id updates rows) = Storage.findJob other rows.
Proof.
  intros Hne. unfold Storage.findJob, Storage.updateRows.
  induction rows as [|row rows IH]; [done|]. rewrite fmap_cons.
  destruct (decide (Job.id row = id)) as [Hid|Hid].
  - rewrite !filter_cons_False; [done| |];
      [by rewrite Hid; intros ?|simpl; by rewrite Hid; intros ?].
  - destruct (decide (Job.id row = other)) as [Ho|Ho].
    + by rewrite !filter_cons_True.
    + by rewrite !filter_cons_False.
Qed.

Lemma updateRows_absent id updates rows :
  Storage.findJob id rows = None → Storage.updateRows id updates rows = rows.
Proof.
  unfold Storage.findJob, Storage.updateRows.
  induction rows as [|row rows IH]; [done|]. intros Hnone. rewrite fmap_cons.
  destruct (decide (Job.id row = id)) as [Hid|Hid].
  - by rewrite filter_cons_True in Hnone.
  - rewrite filter_cons_False in Hnone by done. by rewrite IH.
Qed.

(** X12.  Writing a job and reading it back.  When the write goes
    through, [updateJob] returns the stored row with the given fields
    replaced, a later [getJob] of the same id reads this row, the rows of
    the other ids read as before, and no row is added or removed; for an
    id that is not stored it returns nothing and leaves the table as it
    was.  A write that fails raises and changes nothing. *)
Theorem updateJob_then_getJob id updates w :
  let w' := exec (Storage.updateJob id updates) w in
  (dbFails w (OpUpdateJob id) = false →
   result (Storage.updateJob id updates) w
   = Returned (Partial.apply updates <$> Storage.findJob id (jobs w))
   ∧ (dbFails w (OpGetJob id) = false →
      result (Storage.getJob id) w'
      = Returned (Partial.apply updates <$> Storage.findJob id (jobs w)))
   ∧ (∀ other, other ≠ id →
        Storage.findJob other (jobs w') = Storage.findJob other (jobs w))
   ∧ length (jobs w') = length (jobs w)
   ∧ (Storage.findJob id (jobs w) = None → jobs w' = jobs w))
  ∧ (dbFails w (OpUpdateJob id) = true →
     result (Storage.updateJob id updates) w = Thrown None ∧ w' = w).
Proof.
  intros w'. subst w'. unfold exec, result, Storage.updateJob, Storage.getJob.
  split; intros Hdb; rewrite Hdb; simpl; [|done].
  split; [by rewrite findJob_updateRows|]. split; [|split; [|split]].
  - intros ->. simpl. by rewrite findJob_updateRows.
  - intros other Hne. by apply findJob_updateRows_ne.
  - unfold Storage.updateRows. by rewrite length_fmap.
  - apply updateRows_absent.
Qed.

(** Job 7 is moved to 80 percent and read back. *)
Lemma updateJob_then_getJob_witness :
  let updates := VideoProcessor.progressFields 80 "Generating document..." None in
  result (Storage.getJob 7) (exec (Storage.updateJob 7 updates) Scenario.fresh)
  = Returned (Some (Job.mk 7 "alice" 70 (Some PROCESSING) (Some 80%Z)
                           (Some "Generating document..."%string) None)).
Proof.
  intros updates.
  destruct (updateJob_then_getJob 7 updates Scenario.fresh) as [Hok _].
  destruct (Hok eq_refl) as (_ & Hread & _). exact (Hread eq_refl).
Defined.

(** X13.  The HTTP middleware and the WebSocket validator on the same
    principal.  [requireAuth] lets a request through exactly when it
    carries a principal with claims whose expiry timestamp is absent, 0,
    or not before the current second; without a principal or claims it
    answers 401 'Unauthorized', and with a timestamp other than 0 in the
    past 401 'Token expired'.  Every principal the WebSocket validator
    accepts passes the middleware; the converse fails only for claims
    without a user id, which the middleware does not look at. *)
Theorem requireAuth_agrees_with_validator (user : option Session.User) (clock : Z) :
  let now := (clock `div` 1000)%Z in
  (AuthMiddleware.requireAuth user clock = AuthMiddleware.Next
   ↔ ∃ u claims, user = Some u ∧ Session.claims u = Some claims ∧ notExpired now u)
  ∧ (AuthMiddleware.requireAuth user clock = AuthMiddleware.Status 401 "Token expired"
     ↔ ∃ u claims e, user = Some u ∧ Session.claims u = Some claims
                     ∧ Session.expires_at u = Some e ∧ e ≠ 0%Z ∧ (e < now)%Z)
  ∧ (AuthMiddleware.requireAuth user clock = AuthMiddleware.Status 401 "Unauthorized"
     ↔ user = None ∨ ∃ u, user = Some u ∧ Session.claims u = None)
  ∧ (∀ u userId, user = Some u → principal user = Some userId →
       expired now u = false →
       AuthMiddleware.requireAuth user clock = AuthMiddleware.Next)
  ∧ (∀ u, user = Some u → AuthMiddleware.requireAuth user clock = AuthMiddleware.Next →
       principal user = None →
       ∃ claims, Session.claims u = Some claims ∧ JS.truthy_str (Session.sub claims) = false).
Proof.
  intros now. subst now. unfold AuthMiddleware.requireAuth.
  destruct user as [u|]; [|split; [|split; [|split; [|split]]]; naive_solver].
  destruct (Session.claims u) as [claims|] eqn:Hclaims;
    [|split; [|split; [|split; [|split]]]; try naive_solver;
      intros u' userId [= <-]; unfold principal; by rewrite Hclaims].
  fold (expired (clock `div` 1000) u).
  destruct (expired (clock `div` 1000) u) eqn:Hexp.
  - assert (Hlate : ∃ e, Session.expires_at u = Some e ∧ e ≠ 0%Z ∧ (e < clock `div` 1000)%Z).
    { unfold expired in Hexp. destruct (Session.expires_at u) as [e|]; [|done].
      simpl in Hexp. apply andb_true_iff in Hexp as [Hnz Hgt].
      apply negb_true_iff, Z.eqb_neq in Hnz. apply bool_decide_eq_true in Hgt.
      exists e. split; [done|]. split; [done|lia]. }
    split; [|split; [|split; [|split]]].
    + split; [done|]. intros (u' & c' & [= <-] & _ & Hok).
      apply expired_false in Hok. congruence.
    + naive_solver.
    + naive_solver.
    + intros u' userId [= <-] _. congruence.
    + done.
  - apply expired_false in Hexp as Hok.
    split; [|split; [|split; [|split]]].
    + naive_solver.
    + split; [done|]. intros (u' & c' & e & [= <-] & _ & He & Hnz & Hlt).
      destruct Hok as [Hn|[Hz|(e' & He' & Hle)]]; simplify_eq; try congruence; lia.
    + naive_solver.
    + done.
    + intros u' [= <-] _. unfold principal. rewrite Hclaims.
      destruct (JS.truthy_str (Session.sub claims)) eqn:Hsub; [|by eauto].
      by destruct (Session.sub claims).
Qed.

(** The run of the progress route, by cases. *)
Lemma getJobProgress_cases userId jobId w :
  Routes.getJobProgress userId jobId w
  = (Returned
       (if dbFails w (OpGetJob jobId) then Routes.Error 500 None
        else match Storage.findJob jobId (jobs w) with
             | None => Routes.Error 404 (Some "Job not found"%string)
             | Some job =>
               if bool_decide (Some (Job.userId job) ≠ userId)
               then Routes.Error 404 (Some "Job not found"%string)
               else if dbFails w (OpGetDocument (Job.documentId job))
               then Routes.Error 500 None
               else Routes.Ok (Routes.mkJobProgress
                                 (Job.id job) (Job.status job) (Job.progress job)
                                 (Job.currentStep job) (Job.errorMessage job)
                                 (Storage.findDocument (Job.documentId job) (documents w)))
             end),
     w).
Proof.
  unfold Routes.getJobProgress, Storage.getJob, Storage.getDocument. run_unfold.
  destruct (dbFails w (OpGetJob jobId)); simpl; [done|].
  destruct (Storage.findJob jobId (jobs w)) as [job|]; simpl; [|done].
  case_bool_decide; simpl; [done|].
  by destruct (dbFails w (OpGetDocument (Job.documentId job))).
Qed.

(** X14.  The progress route answers the owner only.  It never raises
    and changes nothing.  An answer with a body is the stored job of this
    id, which belongs to the requesting user; its fields are those the
    WebSocket snapshot of the same job carries, before the snapshot's
    defaults.  A job that is not stored and a job of another user get the
    same 404 answer.  And whenever the route answers a user with a body,
    a subscribe request for the job on a connection authenticated as this
    user is accepted. *)
Theorem progress_route_owner_only userId jobId w :
  let run := Routes.getJobProgress userId jobId in
  exec run w = w
  ∧ (∃ response, result run w = Returned response)
  ∧ (∀ body, result run w = Returned (Routes.Ok body) →
       ∃ job, Storage.findJob jobId (jobs w) = Some job
              ∧ userId = Some (Job.userId job)
              ∧ Routes.jobId body = jobId
              ∧ currentStatus job
                = MProgress (Routes.jobId body)
                            (default PENDING (Routes.status body))
                            (JS.or_num (Routes.progress body) 0)
                            (JS.or_str (Routes.currentStep body) "Starting...")
                            (JS.or_null (Routes.errorMessage body))
              ∧ Routes.document body
                = Storage.findDocument (Job.documentId job) (documents w))
  ∧ (dbFails w (OpGetJob jobId) = false →
     (∀ job, Storage.findJob jobId (jobs w) = Some job → Some (Job.userId job) ≠ userId) →
     result run w = Returned (Routes.Error 404 (Some "Job not found"%string)))
  ∧ (∀ ws U body, authenticatedAs w ws U → userId = Some U →
       result run w = Returned (Routes.Ok body) →
       ws ∈ subscribersOf jobId (exec (handleSubscription ws jobId) w)).
Proof.
  intros run. subst run. unfold exec, result. rewrite getJobProgress_cases. simpl.
  split; [done|]. split; [by eauto|].
  assert (Hok : ∀ body,
    Returned (if dbFails w (OpGetJob jobId) then Routes.Error 500 None
        else match Storage.findJob jobId (jobs w) with
             | None => Routes.Error 404 (Some "Job not found"%string)
             | Some job =>
               if bool_decide (Some (Job.userId job) ≠ userId)
               then Routes.Error 404 (Some "Job not found"%string)
               else if dbFails w (OpGetDocument (Job.documentId job))
               then Routes.Error 500 None
               else Routes.Ok (Routes.mkJobProgress
                                 (Job.id job) (Job.status job) (Job.progress job)
                                 (Job.currentStep job) (Job.errorMessage job)
                                 (Storage.findDocument (Job.documentId job) (documents w)))
             end) = Returned (Routes.Ok body) →
    dbFails w (OpGetJob jobId) = false
    ∧ ∃ job, Storage.findJob jobId (jobs w) = Some job
             ∧ userId = Some (Job.userId job)
             ∧ body = Routes.mkJobProgress
                        (Job.id job) (Job.status job) (Job.progress job)
                        (Job.currentStep job) (Job.errorMessage job)
                        (Storage.findDocument (Job.documentId job) (documents w))).
  { intros body.
    destruct (dbFails w (OpGetJob jobId)); [done|].
    destruct (Storage.findJob jobId (jobs w)) as [job|]; [|done].
    case_bool_decide as Hown; [done|].
    destruct (dbFails w (OpGetDocument (Job.documentId job))); [done|].
    intros [= <-]. split; [done|]. exists job. split; [done|]. by split. }
  split; [|split].
  - intros body Hbody. destruct (Hok body Hbody) as (_ & job & Hjob & Hu & ->).
    exists job. split; [done|]. split; [done|]. simpl.
    split; [by apply findJob_id in Hjob|done].
  - intros Hdb Hnot. rewrite Hdb.
    destruct (Storage.findJob jobId (jobs w)) as [job|] eqn:Hjob; [|done].
    by rewrite bool_decide_true by (by apply Hnot).
  - intros ws U body Hauth -> Hbody.
    destruct (Hok body Hbody) as (Hdb & job & Hjob & [= Hu] & _).
    destruct (handleSubscription_owner ws jobId U job w Hauth Hdb Hjob (eq_sym Hu))
      as (Hsubs & _).
    unfold subscribersOf at 1. unfold exec in Hsubs. rewrite Hsubs, lookup_insert_eq.
    simpl. apply elem_of_set_add. by left.
Qed.

(** Alice reads the progress of her job 7; Bob gets a 404 for it. *)
Lemma progress_route_owner_only_witness :
  result (Routes.getJobProgress (Some "bob"%string) 7) Scenario.fresh
  = Returned (Routes.Error 404 (Some "Job not found"%string))
  ∧ 1 ∈ subscribersOf 7 (exec (handleSubscription 1 7) Scenario.fresh).
Proof.
  destruct (progress_route_owner_only (Some "bob"%string) 7 Scenario.fresh)
    as (_ & _ & _ & Hforeign & _).
  destruct (progress_route_owner_only (Some "alice"%string) 7 Scenario.fresh)
    as (_ & _ & _ & _ & Hsame).
  split.
  - apply Hforeign; [reflexivity|]. intros job [= <-]. discriminate.
  - apply (Hsame 1 "alice"%string
             (Routes.mkJobProgress 7 (Some PROCESSING) (Some 60%Z)
                (Some "Structuring content with AI..."%string) None
                (Some (Document.mk 70 "alice")))).
    + repeat split; done.
    + reflexivity.
    + reflexivity.
Defined.

End Http.

(* ===================================================================== *)
(** * What the processing page shows *)
(* ===================================================================== *)

Section Page.
Import ProcessingSteps.

Lemma steps_minProgress step :
  step ∈ steps → (10 ≤ minProgress step ≤ 90)%Z.
Proof.
  unfold steps. intros Hin.
  repeat (apply elem_of_cons in Hin as [->|Hin]; [simpl; lia|]).
  by apply not_elem_of_nil in Hin.
Qed.

(** X15.  A step of the list is shown as completed exactly when the
    progress has reached its threshold, whatever the step text, the
    status and the error message are; so the completed steps are always
    the first ones of the list.  A job shown as failed with an error
    message has no step in progress. *)
Theorem step_completed_by_progress currentStep progress status errorMessage step :
  step ∈ steps →
  let shown := getStepStatus currentStep progress status errorMessage in
  (shown step = completed ↔ (minProgress step ≤ progress)%Z)
  ∧ (∀ i j earlier later,
       steps !! i = Some earlier → steps !! j = Some later → i ≤ j →
       shown later = completed → shown earlier = completed)
  ∧ (status = "FAILED"%string → JS.truthy_str errorMessage = true →
     shown step ≠ active).
Proof.
  intros Hin shown.
  assert (Hiff : ∀ s, s ∈ steps → shown s = completed ↔ (minProgress s ≤ progress)%Z).
  { intros s Hs. apply steps_minProgress in Hs. subst shown. unfold getStepStatus.
    destruct (String.eqb status "FAILED" && JS.truthy_str errorMessage).
    - destruct (Z.leb_spec (minProgress s) progress); [done|]. split; [done|lia].
    - destruct (Z.leb_spec 100 progress); [split; [lia|done]|].
      destruct (Z.leb_spec (minProgress s) progress); [done|].
      split; [|lia]. by destruct (isCurrent _ s). }
  split; [by apply Hiff|]. split.
  - intros i j earlier later Hi Hj Hle.
    rewrite !Hiff by (by eapply list_elem_of_lookup_2).
    intros Hlater. etrans; [|exact Hlater].
    clear -Hi Hj Hle. unfold steps in *.
    destruct i as [|[|[|[|[|i]]]]]; simpl in Hi; try (by rewrite lookup_nil in Hi);
      destruct j as [|[|[|[|[|j]]]]]; simpl in Hj; try (by rewrite lookup_nil in Hj);
      simplify_eq; simpl; lia.
  - intros -> Htruthy. subst shown. unfold getStepStatus. rewrite Htruthy. simpl.
    by destruct (Z.leb_spec (minProgress step) progress).
Qed.

(** At 60 percent the first three steps are completed and the fourth,
    named by the step text, is in progress. *)
Lemma step_completed_by_progress_witness :
  let shown := getStepStatus (Some "Generating document..."%string) 60 "PROCESSING" None in
  shown <$> steps = [completed; completed; completed; active; pending]
  ∧ (shown (mkStep "structuring" "AI Content Structuring"
                   "Analyzing content and creating chapters and sections" 60) = completed
     ↔ (60 ≤ 60)%Z).
Proof.
  intros shown. split; [reflexivity|].
  apply (step_completed_by_progress (Some "Generating document..."%string) 60
           "PROCESSING" None).
  by apply (list_elem_of_lookup_2 _ 2).
Defined.

(** The progress updates a run can make. *)
Lemma progressUpdates_range env (u : Update) :
  u ∈ progressUpdates env →
  u ∈ [(10%Z, "Analyzing YouTube video..."%string, None);
       (30%Z, "Extracting video captions..."%string, None);
       (60%Z, "Structuring content with AI..."%string, None);
       (80%Z, "Generating document..."%string, None);
       (90%Z, "Saving document..."%string, None);
       (100%Z, "Document created successfully!"%string, None)]
  ∨ ∃ message, u = (0%Z, "Processing failed"%string, message).
Proof.
  destruct env as [a t s g sv f m]. unfold progressUpdates.
  cbn [VideoProcessor.analyze VideoProcessor.transcript VideoProcessor.structure
       VideoProcessor.generate VideoProcessor.save VideoProcessor.finalize
       VideoProcessor.markFailed].
  destruct a, t, s, g, sv, f, m; cbn; intros Hin;
    repeat (apply elem_of_cons in Hin as [->|Hin];
            [first [by eauto | left; set_solver]|]);
    by apply not_elem_of_nil in Hin.
Qed.

(** X16.  What the page shows during a run of the pipeline.  For the
    event of any progress update [processVideo] can make, every step of
    the list is shown completed if the event's progress has reached the
    step's threshold, and pending otherwise: each step text comes with a
    progress that has already reached the threshold of the step it
    names, so no step is ever shown in progress. *)
Theorem run_shows_no_step_in_progress env jobId (u : Update) step :
  u ∈ progressUpdates env →
  step ∈ steps →
  ProcessingPage.stepStatus (updateEvent jobId u) step
  = Some (if bool_decide (minProgress step ≤ u.1.1)%Z then completed else pending)
  ∧ ProcessingPage.stepStatus (updateEvent jobId u) step ≠ Some active.
Proof.
  intros Hu Hstep.
  assert (Heq : ProcessingPage.stepStatus (updateEvent jobId u) step
     = Some (if bool_decide (minProgress step ≤ u.1.1)%Z then completed else pending)).
  { apply progressUpdates_range in Hu as [Hu|[message ->]].
    - unfold steps in Hstep.
      repeat (apply elem_of_cons in Hu as [->|Hu];
        [repeat (apply elem_of_cons in Hstep as [->|Hstep]; [reflexivity|]);
         by apply not_elem_of_nil in Hstep|]).
      by apply not_elem_of_nil in Hu.
    - unfold updateEvent, VideoProcessor.progressEvent, VideoProcessor.statusOf,
        ProcessingPage.stepStatus.
      cbn [fst snd]. unfold JS.or_null.
      destruct (JS.truthy_str message) eqn:Hm.
      + unfold getStepStatus. rewrite Hm. simpl.
        pose proof (steps_minProgress _ Hstep).
        rewrite bool_decide_false by lia.
        by destruct (Z.leb_spec (minProgress step) 0); [lia|].
      + unfold steps in Hstep.
        repeat (apply elem_of_cons in Hstep as [->|Hstep]; [reflexivity|]).
        by apply not_elem_of_nil in Hstep. }
  split; [exact Heq|]. rewrite Heq. by case_bool_decide.
Qed.

(** The update at 30 percent names the extraction, which it shows as
    completed. *)
Lemma run_shows_no_step_in_progress_witness :
  let env := VideoProcessor.mkServices
               VideoProcessor.Passes VideoProcessor.Passes VideoProcessor.Passes
               VideoProcessor.Passes VideoProcessor.Passes VideoProcessor.Passes
               VideoProcessor.Passes in
  ProcessingPage.stepStatus
    (MProgress 7 PROCESSING 30 "Extracting video captions..." None)
    (mkStep "extracting" "Transcript Extraction"
            "Downloading and processing video captions" 30)
  = Some completed.
Proof.
  intros env.
  refine (proj1 (run_shows_no_step_in_progress env 7
                   (30%Z, "Extracting video captions..."%string, None) _ _ _)).
  - by apply (list_elem_of_lookup_2 _ 1).
  - by apply (list_elem_of_lookup_2 _ 1).
Defined.

End Page.

Section Duration.
Import VideoInfo.

(** X17.  The parts of a formatted duration.  For a duration that is
    not negative, the hours, minutes and seconds shown add up to the
    duration, with minutes and seconds below 60; the hours are shown from
    one hour on and the minutes from one minute on.  A negative duration
    is shown as its remainder modulo 60 alone, whatever its size. *)
Theorem formatDuration_parts (seconds : Z) :
  ((0 ≤ seconds)%Z →
   (3600 * hours seconds + 60 * minutes seconds + secs seconds = seconds)%Z
   ∧ (0 ≤ hours seconds)%Z ∧ (0 ≤ minutes seconds < 60)%Z ∧ (0 ≤ secs seconds < 60)%Z)
  ∧ ((3600 ≤ seconds)%Z →
     formatDuration seconds
     = (JS.toString (hours seconds) ++ "h " ++ JS.toString (minutes seconds) ++ "m "
        ++ JS.toString (secs seconds) ++ "s")%string)
  ∧ ((60 ≤ seconds < 3600)%Z →
     formatDuration seconds
     = (JS.toString (seconds `div` 60)%Z ++ "m "
        ++ JS.toString (seconds `mod` 60)%Z ++ "s")%string)
  ∧ ((0 ≤ seconds < 60)%Z → formatDuration seconds = (JS.toString seconds ++ "s")%string)
  ∧ ((seconds < 0)%Z →
     formatDuration seconds = (JS.toString (seconds `rem` 60)%Z ++ "s")%string).
Proof.
  unfold formatDuration, hours, minutes, secs.
  split; [|split; [|split; [|split]]].
  - intros Hpos.
    rewrite !Z.rem_mod_nonneg by lia.
    pose proof (Z.div_mod seconds 3600 ltac:(lia)).
    pose proof (Z.mod_pos_bound seconds 3600 ltac:(lia)).
    pose proof (Z.div_mod (seconds `mod` 3600) 60 ltac:(lia)).
    pose proof (Z.mod_pos_bound (seconds `mod` 3600) 60 ltac:(lia)).
    pose proof (Z.div_pos seconds 3600 ltac:(lia) ltac:(lia)).
    pose proof (Z.mod_pos_bound seconds 60 ltac:(lia)).
    assert (seconds `mod` 60 = (seconds `mod` 3600) `mod` 60)%Z as Hmm.
    { symmetry. apply Z.mod_mod_divide. by exists 60%Z. }
    assert (0 ≤ (seconds `mod` 3600) `div` 60 < 60)%Z
      by (split; [apply Z.div_pos; lia|apply Z.div_lt_upper_bound; lia]).
    lia.
  - intros Hbig.
    destruct (Z.ltb_spec 0 (seconds `div` 3600)) as [|Hh]; [done|].
    exfalso. pose proof (Z.div_le_lower_bound seconds 3600 1 ltac:(lia) ltac:(lia)). lia.
  - intros Hmid.
    rewrite (Z.div_small seconds 3600) by lia. simpl.
    rewrite !Z.rem_mod_nonneg by lia. rewrite (Z.mod_small seconds 3600) by lia.
    destruct (Z.ltb_spec 0 (seconds `div` 60)) as [|Hm]; [done|].
    exfalso. pose proof (Z.div_le_lower_bound seconds 60 1 ltac:(lia) ltac:(lia)). lia.
  - intros Hsmall.
    rewrite (Z.div_small seconds 3600) by lia. simpl.
    rewrite !Z.rem_mod_nonneg by lia. rewrite (Z.mod_small seconds 3600) by lia.
    rewrite (Z.div_small seconds 60) by lia. simpl.
    by rewrite (Z.mod_small seconds 60) by lia.
  - intros Hneg.
    destruct (Z.ltb_spec 0 (seconds `div` 3600)) as [Hh|_].
    { exfalso. pose proof (Z.div_lt_upper_bound seconds 3600 0 ltac:(lia) ltac:(lia)). lia. }
    destruct (Z.ltb_spec 0 ((seconds `rem` 3600) `div` 60)) as [Hm|_]; [|done].
    exfalso. pose proof (Z.rem_nonpos seconds 3600 ltac:(lia) ltac:(lia)).
    pose proof (Z.div_le_upper_bound (seconds `rem` 3600) 60 0 ltac:(lia) ltac:(lia)).
    lia.
Qed.

(** Forty-five minutes, and a negative duration. *)
Lemma formatDuration_parts_witness :
  formatDuration 2700 = "45m 0s"%string ∧ formatDuration (-3700) = "-40s"%string.
Proof.
  destruct (formatDuration_parts 2700) as (_ & _ & Hminutes & _).
  destruct (formatDuration_parts (-3700)) as (_ & _ & _ & _ & Hnegative).
  split; [apply Hminutes; lia|apply Hnegative; lia].
Defined.

End Duration.

(* ===================================================================== *)
(** * Further properties of the client hook *)
(* ===================================================================== *)

Section ClientRequests.
Import Client.

(** X18.  The client writes to its socket only once it is ready.  A
    call of [subscribeToJob] writes one subscribe request for its job if
    the socket is open, the settling timer has run and the state is
    authenticated, and nothing otherwise; [unsubscribeFromJob] writes one
    unsubscribe request under the first two conditions, and nothing
    otherwise; [sendMessage] then answers [false] and changes nothing.
    The client is not ready from the close handler until the settling
    timer of the next connection has run, and no longer ready after an
    error message that mentions authentication. *)
Theorem requests_only_when_ready (j code : Z) (r : Request) (text : string) (s : State) :
  let ready := socketOpen s && connectionReady s in
  sent (exec (subscribeToJob j) s)
  = sent s ++ (if ready && bool_decide (connectionState s = authenticated)
               then [(Subscribe j, negb (sendThrows s))] else [])
  ∧ sent (exec (unsubscribeFromJob j) s)
    = sent s ++ (if ready then [(Unsubscribe j, negb (sendThrows s))] else [])
  ∧ (ready = false →
     sendMessage r s = (Returned false, s)
     ∧ result (subscribeToJob j) s = Returned false
     ∧ j ∈ pendingSubscriptions (exec (subscribeToJob j) s))
  ∧ connectionReady (onclose code s) = false
  ∧ connectionReady (onopen (connect (onclose code s))) = false
  ∧ connectionReady (exec onSubscriptionReady s) = true
  ∧ (JSString.includes "Authentication" text = true →
     connectionReady (onmessage (MError text) s) = false).
Proof.
  intros ready. subst ready.
  split; [|split; [|split; [|split; [|split; [|split]]]]].
  - unfold subscribeToJob, sendMessage, send, socketOpen, exec. run_unfold.
    destruct s as [sk ? cs ? p a rdy ? ? thr snt]. simpl.
    destruct sk as [[]|], rdy, cs, thr; simpl; by rewrite ?app_nil_r.
  - unfold unsubscribeFromJob, sendMessage, send, socketOpen, exec. run_unfold.
    destruct s as [sk ? cs ? p a rdy ? ? thr snt]. simpl.
    destruct sk as [[]|], rdy, thr; simpl; by rewrite ?app_nil_r.
  - intros Hnot. split; [|split].
    + unfold sendMessage. run_unfold. simpl. by rewrite Hnot.
    + unfold subscribeToJob, sendMessage, send, socketOpen, result in *. run_unfold.
      destruct s as [sk ? cs ? p a rdy ? ? thr snt]. simpl in *.
      by destruct sk as [[]|], rdy, cs, thr.
    + unfold subscribeToJob, sendMessage, send, socketOpen, exec in *. run_unfold.
      destruct s as [sk ? cs ? p a rdy ? ? thr snt]. simpl in *.
      destruct sk as [[]|], rdy, cs, thr; simpl in *; try done;
        apply elem_of_set_add; by left.
  - done.
  - done.
  - unfold exec. by rewrite onSubscriptionReady_spec.
  - intros Hauth. simpl. by rewrite Hauth.
Qed.

(** A client that has just mounted asks for job 7: nothing is written
    and the job waits in the pending set. *)
Lemma requests_only_when_ready_witness :
  sent (exec (subscribeToJob 7) Scenario.mounted) = []
  ∧ result (subscribeToJob 7) Scenario.mounted = Returned false
  ∧ 7%Z ∈ pendingSubscriptions (exec (subscribeToJob 7) Scenario.mounted).
Proof.
  destruct (requests_only_when_ready 7 1006 (Subscribe 7) "" Scenario.mounted)
    as (Hsent & _ & Hnot & _).
  split; [exact Hsent|]. exact (proj2 (Hnot eq_refl)).
Defined.

Lemma subscribeIds_requests (s : State) (ids : list Z) :
  subscribeIds (subscribeRequests s ids) = ids.
Proof.
  induction ids as [|j ids IH]; [done|].
  change (subscribeIds (subscribeRequests s (j :: ids)))
    with (j :: subscribeIds (subscribeRequests s ids)).
  by rewrite IH.
Qed.

(** One reconnect, step by step. *)
Lemma reconnectCycle_spec (code : Z) (s : State) :
  code ≠ 1000%Z →
  reconnectAttempts s < maxReconnectAttempts →
  let ids := JS.set_of_list
               (foldl (λ p x, JS.set_add x p) (pendingSubscriptions s)
                      (activeSubscriptions s)) in
  reconnectCycle code s
  = mkState (Some OPEN) true authenticated 0
            (if sendThrows s then foldl (λ p x, JS.set_add x p) [] ids else [])
            [] true None None (sendThrows s)
            (sent s ++ subscribeRequests s ids).
Proof.
  intros Hcode Hattempts ids. unfold reconnectCycle, exec.
  rewrite onSubscriptionReady_spec. simpl. by rewrite app_nil_r.
Qed.

(** X19.  One reconnect, from the close event to the settling timer of
    the next connection.  When the close is not a normal closure and
    attempts are left, the client ends up authenticated and ready with
    its attempt counter at 0, and has written one subscribe request for
    each job id it held in either set, and no other.  If the socket took
    these writes, both sets are then empty until the server's
    confirmations arrive: should the connection drop again before any
    confirmation, the next reconnect writes no request at all. *)
Theorem reconnect_resubscribes_once (code code' : Z) (s : State) :
  code ≠ 1000%Z →
  reconnectAttempts s < maxReconnectAttempts →
  let s1 := reconnectCycle code s in
  connectionState s1 = authenticated
  ∧ connectionReady s1 = true
  ∧ reconnectAttempts s1 = 0
  ∧ (∃ ids, NoDup ids
            ∧ (∀ j, j ∈ ids ↔ tracked j s)
            ∧ sent s1 = sent s ++ subscribeRequests s ids)
  ∧ (sendThrows s = false →
     pendingSubscriptions s1 = [] ∧ activeSubscriptions s1 = []
     ∧ (code' ≠ 1000%Z → sent (reconnectCycle code' s1) = sent s1)).
Proof.
  intros Hcode Hattempts s1. subst s1.
  rewrite (reconnectCycle_spec code s Hcode Hattempts). simpl.
  split; [done|]. split; [done|]. split; [done|]. split.
  - eexists. split; [apply NoDup_set_of_list|]. split; [|done].
    intros j. rewrite elem_of_set_of_list, elem_of_foldl_set_add. done.
  - intros Hsend. rewrite Hsend. split; [done|]. split; [done|].
    intros Hcode'. rewrite reconnectCycle_spec; [|done|simpl; unfold maxReconnectAttempts; lia].
    simpl. by rewrite app_nil_r.
Qed.

(** The client that follows jobs 7 and 9 loses its connection twice in
    a row. *)
Lemma reconnect_resubscribes_once_witness :
  let s1 := reconnectCycle 1006 Scenario.following in
  sent s1 = [(Subscribe 7, true); (Subscribe 9, true)]
  ∧ activeSubscriptions s1 = []
  ∧ sent (reconnectCycle 1006 s1) = sent s1.
Proof.
  intros s1.
  destruct (reconnect_resubscribes_once 1006 1006 Scenario.following)
    as (_ & _ & _ & _ & Hsets).
  - discriminate.
  - unfold maxReconnectAttempts. simpl. lia.
  - destruct (Hsets eq_refl) as (_ & Hactive & Hagain).
    split; [reflexivity|]. split; [exact Hactive|]. apply Hagain. discriminate.
Defined.

(** X20.  Unsubscribing cancels the resubscription.  After
    [unsubscribeFromJob] for a job, the next reconnect writes a subscribe
    request for every other job id the client held, and none for this
    job. *)
Theorem unsubscribe_cancels_resubscription (j code : Z) (s : State) :
  code ≠ 1000%Z →
  reconnectAttempts s < maxReconnectAttempts →
  let s1 := exec (unsubscribeFromJob j) s in
  let s2 := reconnectCycle code s1 in
  let written := subscribeIds (drop (length (sent s1)) (sent s2)) in
  (j ∉ written)
  ∧ NoDup written
  ∧ (∀ k, k ∈ written ↔ k ≠ j ∧ tracked k s).
Proof.
  intros Hcode Hattempts s1 s2 written.
  destruct (unsubscribeFromJob_sets j s) as [Hactive Hpending].
  fold s1 in Hactive, Hpending.
  assert (Hatt : reconnectAttempts s1 = reconnectAttempts s).
  { unfold s1, unsubscribeFromJob, sendMessage, send, socketOpen, exec. run_unfold.
    destruct s as [sk ? cs ? p a rdy ? ? thr snt]. simpl.
    by destruct sk as [[]|], rdy, thr. }
  assert (Hwritten : written
    = JS.set_of_list (foldl (λ p x, JS.set_add x p) (pendingSubscriptions s1)
                            (activeSubscriptions s1))).
  { unfold written, s2. rewrite reconnectCycle_spec by (done || by rewrite Hatt).
    simpl. by rewrite drop_app_length, subscribeIds_requests. }
  assert (Hmem : ∀ k, k ∈ written ↔ k ≠ j ∧ tracked k s).
  { intros k. rewrite Hwritten, elem_of_set_of_list, elem_of_foldl_set_add.
    rewrite Hactive, Hpending, !elem_of_set_delete. unfold tracked. tauto. }
  split; [|split; [|exact Hmem]].
  - intros Hin. apply Hmem in Hin as [Hne _]. done.
  - rewrite Hwritten. apply NoDup_set_of_list.
Qed.

(** The client that follows jobs 7 and 9 drops job 7 and reconnects. *)
Lemma unsubscribe_cancels_resubscription_witness :
  let s1 := exec (unsubscribeFromJob 7) Scenario.following in
  subscribeIds (drop (length (sent s1)) (sent (reconnectCycle 1006 s1))) = [9%Z]
  ∧ (7%Z ∉ subscribeIds (drop (length (sent s1)) (sent (reconnectCycle 1006 s1)))).
Proof.
  intros s1. split; [reflexivity|].
  apply (unsubscribe_cancels_resubscription 7 1006 Scenario.following).
  - discriminate.
  - unfold maxReconnectAttempts. simpl. lia.
Defined.

End ClientRequests.

(* ===================================================================== *)
(** * A subscribe request, from the client to the server and back *)
(* ===================================================================== *)

Section EndToEnd.
Import WebSocketService ConnectionHandlers.

Lemma receive_two ws (m1 m2 : Message) s :
  receive ws [mkSend ws m1 true; mkSend ws m2 true] s
  = Client.onmessage m2 (Client.onmessage m1 s).
Proof. unfold receive. simpl. by rewrite bool_decide_true. Qed.

Lemma receive_one ws (m : Message) s :
  receive ws [mkSend ws m true] s = Client.onmessage m s.
Proof. unfold receive. simpl. by rewrite bool_decide_true. Qed.

(** The server's refusals and failure reports, on the client: only the
    one that mentions authentication resets it, and none touches the two
    sets. *)
Lemma onmessage_refusal (m : Message) s :
  m ∈ [msg_job_not_found; msg_unauthorized; msg_subscribe_failed;
       msg_unsubscribe_failed; msg_invalid_format] →
  Client.onmessage m s = s.
Proof.
  intros Hin.
  repeat (apply elem_of_cons in Hin as [->|Hin]; [by destruct s|]).
  by apply not_elem_of_nil in Hin.
Qed.

(** X21.  A subscribe request from the hook to the server and back, on
    a connection that is authenticated and takes the writes, for a job
    id other than 0 whose row can be read.  If the job is stored and
    belongs to the connection's user, the connection is a subscriber
    afterwards, and once the client has taken in the replies the job is
    in its active set and not in its pending set, also when the snapshot
    could not be sent.  If the job is not stored or belongs to another
    user, the server registers nothing and replies with an error, which
    leaves the client's sets as [subscribeToJob] set them: the client
    goes on reporting the subscription as active. *)
Theorem subscribe_round_trip ws jobId U w (s : Client.State) :
  authenticatedAs w ws U →
  Socket.sendThrows (sockets w ws) = false →
  dbFails w (OpGetJob jobId) = false →
  jobId ≠ 0%Z →
  let s1 := exec (Client.subscribeToJob jobId) s in
  let w1 := exec (onMessage ws (Parsed (Some "subscribe"%string) (Some jobId))) w in
  let s2 := receive ws (emitted w w1) s1 in
  (∀ job, Storage.findJob jobId (jobs w) = Some job → Job.userId job = U →
     ws ∈ subscribersOf jobId w1
     ∧ Client.isSubscriptionActive jobId s2 = true
     ∧ Client.isSubscriptionPending jobId s2 = false)
  ∧ ((∀ job, Storage.findJob jobId (jobs w) = Some job → Job.userId job ≠ U) →
     subscriptions w1 = subscriptions w
     ∧ (∃ text, emitted w w1 = [mkSend ws (MError text) true])
     ∧ s2 = s1
     ∧ Client.isSubscriptionActive jobId s2 = true).
Proof.
  intros Hauth Hsend Hdb Hne s1 w1 s2.
  assert (Hdispatch : onMessage ws (Parsed (Some "subscribe"%string) (Some jobId)) w
                      = handleSubscription ws jobId w).
  { assert (Htruthy : JS.truthy_num (Some jobId) = true).
    { unfold JS.truthy_num. by destruct jobId. }
    unfold onMessage, try_catch. rewrite Htruthy.
    rewrite bool_decide_true by done. simpl.
    destruct (handleSubscription_cases ws jobId w) as (s0 & n0 & -> & _).
    by rewrite Hsend. }
  assert (Hactive : Client.isSubscriptionActive jobId s1 = true).
  { destruct (subscribeToJob_sets jobId s) as [Ha _]. fold s1 in Ha.
    unfold Client.isSubscriptionActive. rewrite Ha. apply set_add_has. }
  pose proof (authenticatedAs_check _ _ _ Hauth) as Hchk.
  split.
  - intros job Hjob Hown.
    destruct (handleSubscription_owner ws jobId U job w Hauth Hdb Hjob Hown)
      as (Hsubs & Hwire & _).
    rewrite Hsend in Hwire.
    assert (Hw1 : w1 = exec (handleSubscription ws jobId) w)
      by (unfold w1, exec; by rewrite Hdispatch).
    rewrite <- Hw1 in Hsubs, Hwire.
    split.
    { unfold subscribersOf at 1. rewrite Hsubs, lookup_insert_eq. simpl.
      apply elem_of_set_add. by left. }
    assert (Hs2 : s2 = Client.onmessage (msg_subscribed jobId) s1).
    { unfold s2. rewrite (emitted_app _ _ _ Hwire).
      destruct (dbFails w (OpGetDocument (Job.documentId job)));
        rewrite receive_two.
      - apply (onmessage_refusal msg_subscribe_failed). set_solver.
      - by destruct (Client.onmessage (msg_subscribed jobId) s1). }
    pose proof (onmessage_sets (msg_subscribed jobId) s1) as Hsets.
    unfold msg_subscribed in Hsets, Hs2. rewrite decide_False in Hsets by done.
    rewrite <- Hs2 in Hsets. destruct Hsets as [Ha Hp].
    unfold Client.isSubscriptionActive, Client.isSubscriptionPending.
    rewrite Ha, Hp. split; [apply set_add_has|].
    apply bool_decide_eq_false. rewrite elem_of_set_delete. tauto.
  - intros Hforeign.
    assert (Hrun : ∃ m, m ∈ [msg_job_not_found; msg_unauthorized]
                        ∧ handleSubscription ws jobId w
                          = (Returned tt, rewire (subscriptions w) [mkSend ws m true] w)).
    { destruct Hauth as (_ & Hu & _).
      unfold handleSubscription, Storage.getJob, send. run_unfold.
      rewrite Hchk, Hdb.
      destruct (Storage.findJob jobId (jobs w)) as [job|] eqn:Hjob.
      - exists msg_unauthorized. split; [set_solver|].
        rewrite bool_decide_true by (rewrite Hu; specialize (Hforeign job eq_refl);
                                     congruence).
        simpl. by rewrite Hsend.
      - exists msg_job_not_found. split; [set_solver|]. simpl. by rewrite Hsend. }
    destruct Hrun as (m & Hm & Hrun).
    assert (Hw1 : w1 = rewire (subscriptions w) [mkSend ws m true] w)
      by (unfold w1, exec; by rewrite Hdispatch, Hrun).
    assert (Hemit : emitted w w1 = [mkSend ws m true])
      by (apply emitted_app; by rewrite Hw1).
    assert (Hs2 : s2 = s1).
    { unfold s2. rewrite Hemit, receive_one. apply onmessage_refusal. set_solver. }
    split; [by rewrite Hw1|]. split; [|split; [done|by rewrite Hs2]].
    rewrite Hemit.
    apply elem_of_cons in Hm as [->|Hm]; [by eexists|].
    apply elem_of_cons in Hm as [->|Hm]; [by eexists|].
    by apply not_elem_of_nil in Hm.
Qed.

(** Alice's ready client asks for Bob's job 42 on socket 1: the server
    registers nothing, and the client reports the subscription as
    active. *)
Lemma subscribe_round_trip_witness :
  let s1 := exec (Client.subscribeToJob 42) Scenario.following in
  let w1 := exec (onMessage 1 (Parsed (Some "subscribe"%string) (Some 42%Z)))
                 Scenario.fresh in
  subscriptions w1 = subscriptions Scenario.fresh
  ∧ Client.isSubscriptionActive 42 (receive 1 (emitted Scenario.fresh w1) s1) = true.
Proof.
  intros s1 w1.
  destruct (subscribe_round_trip 1 42 "alice" Scenario.fresh Scenario.following)
    as [_ Hrefused].
  - repeat split; done.
  - reflexivity.
  - reflexivity.
  - discriminate.
  - destruct Hrefused as (Hsubs & _ & _ & Hactive).
    + intros job [= <-]. discriminate.
    + split; [exact Hsubs|exact Hactive].
Defined.

End EndToEnd.

(* ===================================================================== *)
(** * Reading the cookie header *)
(* ===================================================================== *)

Section CookieHeader.
Import WebSocketService.

Lemma split_nonempty sep s : JSString.split sep s ≠ [].
Proof.
  destruct s as [|c rest]; simpl; [done|].
  destruct (JSString.split sep rest); [done|]. by case_decide.
Qed.

Lemma split_absent sep s :
  sep ∉ list_ascii_of_string s → JSString.split sep s = [s].
Proof.
  induction s as [|c rest IH]; simpl; [done|]. intros Hnot.
  rewrite IH by set_solver. rewrite decide_False; [done|set_solver].
Qed.

Lemma split_first sep (a b : string) :
  sep ∉ list_ascii_of_string a →
  JSString.split sep (a ++ String sep b) = a :: JSString.split sep b.
Proof.
  induction a as [|c rest IH]; simpl; intros Hnot.
  - destruct (JSString.split sep b) eqn:Hb; [by apply split_nonempty in Hb|].
    by rewrite decide_True.
  - rewrite IH by set_solver. rewrite decide_False; [done|set_solver].
Qed.

Lemma split_app sep (a b : string) :
  JSString.split sep (a ++ String sep b) = JSString.split sep a ++ JSString.split sep b.
Proof.
  induction a as [|c rest IH]; simpl.
  - destruct (JSString.split sep b) eqn:Hb; [by apply split_nonempty in Hb|].
    by rewrite decide_True.
  - rewrite IH.
    destruct (JSString.split sep rest) eqn:Hrest; [by apply split_nonempty in Hrest|].
    simpl. by case_decide.
Qed.

(** Splitting at a separator and joining with it gives the text back. *)
Lemma join_split sep s :
  JSString.join (String sep "") (JSString.split sep s) = s.
Proof.
  unfold JSString.join. induction s as [|c rest IH]; [done|]. simpl.
  destruct (JSString.split sep rest) as [|piece pieces] eqn:Hrest;
    [by apply split_nonempty in Hrest|].
  case_decide as Hc.
  - subst c. simpl in *. by rewrite IH.
  - destruct pieces as [|p ps]; simpl in *; by rewrite <- IH.
Qed.

Lemma trimStart_id s :
  (∀ c rest, s = String c rest → JSString.isWhiteSpace c = false) →
  JSString.trimStart s = s.
Proof.
  destruct s as [|c rest]; [done|]. intros Hc. simpl.
  by rewrite (Hc c rest eq_refl).
Qed.

Lemma rev_app_involutive (s a b : string) :
  String.rev_app (String.rev_app s a) b = String.rev_app a (s ++ b).
Proof.
  revert a b. induction s as [|c rest IH]; intros a b; [done|].
  simpl. by rewrite IH.
Qed.

Lemma append_nil_r (s : string) : (s ++ "")%string = s.
Proof.
  induction s as [|c rest IH]; [done|].
  change (String c (rest ++ "") = String c rest)%string. by rewrite IH.
Qed.

Lemma trimStart_rev_app (s acc : string) :
  Forall (λ c, JSString.isWhiteSpace c = false) (list_ascii_of_string s) →
  s ≠ ""%string ∨ JSString.trimStart acc = acc →
  JSString.trimStart (String.rev_app s acc) = String.rev_app s acc.
Proof.
  revert acc. induction s as [|c rest IH]; intros acc Hall Hacc; simpl.
  - by destruct Hacc.
  - apply Forall_cons in Hall as [Hc Hrest]. apply IH; [done|].
    right. simpl. by rewrite Hc.
Qed.

Lemma trim_id s :
  Forall (λ c, JSString.isWhiteSpace c = false) (list_ascii_of_string s) →
  JSString.trim s = s.
Proof.
  intros Hall. unfold JSString.trim, JSString.trimEnd.
  rewrite (trimStart_id s).
  2:{ intros c rest ->. by apply Forall_cons in Hall as [? _]. }
  unfold String.rev. rewrite trimStart_rev_app by (done || by right).
  rewrite rev_app_involutive. simpl. apply append_nil_r.
Qed.

Lemma list_ascii_of_string_app (a b : string) :
  list_ascii_of_string (a ++ b) = list_ascii_of_string a ++ list_ascii_of_string b.
Proof. induction a as [|c rest IH]; [done|]. simpl. by rewrite IH. Qed.

(** One well-formed pair, as the loop of [parseCookies] reads it. *)
Lemma parseCookie_pair cookies (name value : string) :
  cookieText name → "="%char ∉ list_ascii_of_string name → cookieText value →
  parseCookie cookies (name ++ String "=" value)
  = if String.eqb name "__proto__" then cookies else <[name := value]> cookies.
Proof.
  intros Hname Heq Hvalue. unfold parseCookie.
  assert (Hplain : ∀ s, cookieText s →
            Forall (λ c, JSString.isWhiteSpace c = false) (list_ascii_of_string s)).
  { intros s Hs. unfold cookieText in Hs. eapply Forall_impl; [exact Hs|].
    by intros c [_ ?]. }
  rewrite trim_id.
  2:{ rewrite list_ascii_of_string_app. apply Forall_app. split; [by apply Hplain|].
      simpl. apply Forall_cons. split; [done|by apply Hplain]. }
  rewrite split_first by done.
  destruct (JSString.split "=" value) as [|p ps] eqn:Hsplit;
    [by apply split_nonempty in Hsplit|].
  rewrite <- Hsplit, (join_split "="%char value). by rewrite trim_id by (by apply Hplain).
Qed.

Lemma eqb_proto (name : string) :
  name ≠ "__proto__"%string → String.eqb name "__proto__" = false.
Proof. intros Hne. by destruct (String.eqb_spec name "__proto__"). Qed.

(** X22.  The cookie that is read.  For a pair [name=value] whose name
    and value hold no semicolon and no white space (the name no equals
    sign either, and at least one character) and whose name is not
    [__proto__], the parser binds the name to the value, equals signs in
    the value included, when the header is this pair alone and when the
    pair comes last in a longer header, whatever stands before it: a later
    pair of the same name wins.  A pair named [__proto__] binds
    nothing. *)
Theorem last_cookie_is_read (before name value : string) :
  name ≠ ""%string →
  name ≠ "__proto__"%string →
  cookieText name →
  "="%char ∉ list_ascii_of_string name →
  cookieText value →
  parseCookies (name ++ "=" ++ value) !! name = Some value
  ∧ parseCookies (before ++ "; " ++ name ++ "=" ++ value) !! name = Some value
  ∧ parseCookies (before ++ "; __proto__=" ++ value) = parseCookies before
  ∧ parseCookies ("__proto__=" ++ value) = ∅.
Proof.
  intros Hne Hproto Hname Heq Hvalue.
  assert (Hsemi : ∀ key, cookieText key →
            ";"%char ∉ list_ascii_of_string (key ++ String "="%char value)).
  { intros key Hkey. rewrite list_ascii_of_string_app. simpl. intros Hin.
    apply elem_of_app in Hin as [Hin|Hin].
    - unfold cookieText in Hkey.
      by apply (proj1 (Forall_forall _ _) Hkey) in Hin as [? _].
    - apply elem_of_cons in Hin as [?|Hin]; [done|].
      unfold cookieText in Hvalue.
      by apply (proj1 (Forall_forall _ _) Hvalue) in Hin as [? _]. }
  assert (Hlast : ∀ key cookies,
            parseCookie cookies (String " "%char (key ++ String "="%char value))
            = parseCookie cookies (key ++ String "="%char value)).
  { intros key cookies. unfold parseCookie, JSString.trim. simpl. done. }
  assert (Hkey : cookieText "__proto__").
  { apply (bool_decide_unpack _). vm_compute. exact I. }
  assert (Hkeq : "="%char ∉ list_ascii_of_string "__proto__").
  { apply (bool_decide_unpack _). vm_compute. exact I. }
  split; [|split; [|split]].
  - unfold parseCookies.
    change (name ++ "=" ++ value)%string with (name ++ String "="%char value)%string.
    destruct (String.eqb_spec (name ++ String "="%char value) "") as [Hempty|_].
    { by destruct name. }
    rewrite split_absent by (by apply Hsemi). simpl.
    rewrite parseCookie_pair, eqb_proto by done. by rewrite lookup_insert_eq.
  - unfold parseCookies.
    change (before ++ "; " ++ name ++ "=" ++ value)%string
      with (before ++ String ";"%char (String " "%char (name ++ String "="%char value)))%string.
    destruct (String.eqb_spec
                (before ++ String ";"%char (String " "%char (name ++ String "="%char value)))
                "") as [Hempty|_].
    { by destruct before. }
    rewrite split_app, foldl_app.
    rewrite (split_absent ";"%char (String " "%char _)).
    2:{ simpl. intros Hin. apply elem_of_cons in Hin as [?|Hin]; [done|].
        by apply (Hsemi name). }
    simpl. rewrite Hlast, parseCookie_pair, eqb_proto by done.
    by rewrite lookup_insert_eq.
  - unfold parseCookies.
    change (before ++ "; __proto__=" ++ value)%string
      with (before ++ String ";"%char
              (String " "%char ("__proto__" ++ String "="%char value)))%string.
    destruct (String.eqb_spec
                (before ++ String ";"%char
                   (String " "%char ("__proto__" ++ String "="%char value))) "")
      as [Hempty|_].
    { by destruct before. }
    rewrite split_app, foldl_app.
    rewrite (split_absent ";"%char (String " "%char _)).
    2:{ simpl. intros Hin. apply elem_of_cons in Hin as [?|Hin]; [done|].
        by apply (Hsemi "__proto__"%string). }
    simpl. rewrite Hlast, parseCookie_pair by done. simpl.
    by destruct (String.eqb_spec before "") as [->|_].
  - unfold parseCookies.
    change ("__proto__=" ++ value)%string
      with ("__proto__" ++ String "="%char value)%string.
    simpl String.eqb. cbv iota.
    rewrite split_absent by (by apply (Hsemi "__proto__"%string)). simpl.
    by rewrite parseCookie_pair by done.
Qed.

(** The session cookie after another cookie, with equals signs in its
    value. *)
Lemma last_cookie_is_read_witness :
  parseCookies "theme=dark; connect.sid=s:live.c2ln=="
    !! "connect.sid"%string = Some "s:live.c2ln=="%string.
Proof.
  refine (proj1 (proj2 (last_cookie_is_read "theme=dark" "connect.sid" "s:live.c2ln=="
                          _ _ _ _ _))).
  - discriminate.
  - discriminate.
  - apply (bool_decide_unpack _). vm_compute. exact I.
  - apply (bool_decide_unpack _). vm_compute. exact I.
  - apply (bool_decide_unpack _). vm_compute. exact I.
Defined.

End CookieHeader.

(* ===================================================================== *)
(** * Progress goes to the owner: an invariant of the server *)
(* ===================================================================== *)

Section Owners.
Import WebSocketService ConnectionHandlers.

Lemma ownerOf_stable w w' ws jobId :
  sockets w' = sockets w →
  (∀ id, Job.userId <$> Storage.findJob id (jobs w')
         = Job.userId <$> Storage.findJob id (jobs w)) →
  ownerOf w ws jobId ↔ ownerOf w' ws jobId.
Proof.
  intros Hsock Hjobs. unfold ownerOf. rewrite Hsock. specialize (Hjobs jobId).
  split; intros [Hchk (job & Hjob & Hu)]; (split; [done|]); rewrite Hjob in Hjobs.
  - destruct (Storage.findJob jobId (jobs w')) as [job'|]; [|done].
    exists job'. split; [done|]. simpl in Hjobs. congruence.
  - destruct (Storage.findJob jobId (jobs w)) as [job'|]; [|done].
    exists job'. split; [done|]. simpl in Hjobs. congruence.
Qed.

Lemma guarded_refl w : guarded w w.
Proof.
  split; [done|]. split; [done|]. split; [by left|].
  exists []. split; [by rewrite app_nil_r|]. intros e jobId Hin.
  by apply not_elem_of_nil in Hin.
Qed.

Lemma guarded_trans w1 w2 w3 : guarded w1 w2 → guarded w2 w3 → guarded w1 w3.
Proof.
  intros (Hs1 & Hj1 & Hsub1 & n1 & Hw1 & Hn1) (Hs2 & Hj2 & Hsub2 & n2 & Hw2 & Hn2).
  assert (Hback : ∀ ws jobId,
            ws ∈ subscribersOf jobId w2 ∨ ownerOf w2 ws jobId →
            ws ∈ subscribersOf jobId w1 ∨ ownerOf w1 ws jobId).
  { intros ws jobId [Hin|Hown]; [by apply Hsub1|].
    right. by apply (ownerOf_stable w1 w2). }
  split; [congruence|]. split; [intros id; by rewrite Hj2|]. split.
  - intros jobId ws Hin. by apply Hback, Hsub2.
  - exists (n1 ++ n2). split; [by rewrite Hw2, Hw1, app_assoc|].
    intros e jobId Hin Hp. apply elem_of_app in Hin as [Hin|Hin]; [by eapply Hn1|].
    by apply Hback, (Hn2 e jobId).
Qed.

(** A step that rewrites the registry and writes messages. *)
Lemma guarded_rewire subs (new : list SendEvent) w :
  (∀ jobId ws, ws ∈ default [] (subs !! JS.toString jobId) →
               ws ∈ subscribersOf jobId w ∨ ownerOf w ws jobId) →
  (∀ e jobId, e ∈ new → progressFor (payload e) = Some jobId →
              target e ∈ subscribersOf jobId w ∨ ownerOf w (target e) jobId) →
  guarded w (rewire subs new w).
Proof.
  intros Hsubs Hnew. split; [done|]. split; [done|]. split; [exact Hsubs|].
  by exists new.
Qed.

Lemma guarded_send ws (m : Message) w :
  progressFor m = None → guarded w (exec (send ws m) w).
Proof.
  intros Hm.
  replace (exec (send ws m) w)
    with (rewire (subscriptions w)
                 [mkSend ws m (negb (Socket.sendThrows (sockets w ws)))] w)
    by done.
  apply guarded_rewire; [intros jobId ws' Hin; by left|].
  intros e jobId Hin Hp. apply list_elem_of_singleton in Hin as ->. simpl in Hp.
  congruence.
Qed.

Lemma guarded_try_catch_send (m : Run World unit) ws (msg : Message) w :
  progressFor msg = None →
  guarded w (exec m w) →
  guarded w (exec (try_catch m (λ _, send ws msg)) w).
Proof.
  intros Hmsg Hm. unfold exec, try_catch in *.
  destruct (m w) as [[a|e] w'] eqn:Hrun; simpl in *; [done|].
  eapply guarded_trans; [exact Hm|]. by apply guarded_send.
Qed.

Lemma withoutSocket_subset ws (subs : gmap string (list nat)) key ws' :
  ws' ∈ default [] (subs !! key ≫= withoutSocket ws) → ws' ∈ default [] (subs !! key).
Proof.
  destruct (subs !! key) as [s|]; simpl; [|done].
  destruct (withoutSocket ws s) as [s'|] eqn:Hs; simpl.
  - apply withoutSocket_lookup in Hs as [-> _]. rewrite elem_of_set_delete. tauto.
  - intros Hin. by apply not_elem_of_nil in Hin.
Qed.

Lemma checked_authenticated w ws :
  notAuthenticated (sockets w ws) = false → ∃ U, authenticatedAs w ws U.
Proof.
  unfold notAuthenticated, authenticatedAs.
  destruct (Socket.isAuthenticated (sockets w ws)) as [[]|]; simpl; try done.
  destruct (Socket.userId (sockets w ws)) as [u|]; simpl; [|done].
  destruct (String.eqb_spec u ""); simpl; [done|]. intros _. by exists u.
Qed.

(** A subscribe request that is not the owner's leaves the registry
    alone and is answered with errors only. *)
Lemma handleSubscription_refused ws jobId w :
  ¬ ownerOf w ws jobId ∨ dbFails w (OpGetJob jobId) = true →
  ∃ new, exec (handleSubscription ws jobId) w = rewire (subscriptions w) new w
         ∧ ∀ e, e ∈ new → progressFor (payload e) = None.
Proof.
  intros Hnot. unfold handleSubscription, Storage.getJob, send. run_unfold.
  destruct (notAuthenticated (sockets w ws)) eqn:Hchk; simpl.
  { destruct (Socket.sendThrows (sockets w ws)) eqn:Hs; simpl; rewrite ?Hs; simpl;
      unfold rewire, with_wire; simpl; rewrite <- ?app_assoc;
      eexists; (split; [reflexivity|]); intros e Hin;
      repeat (apply elem_of_cons in Hin as [->|Hin]; [done|]);
      by apply not_elem_of_nil in Hin. }
  destruct (dbFails w (OpGetJob jobId)) eqn:Hdb; simpl.
  { unfold rewire, with_wire; simpl.
    eexists; (split; [reflexivity|]); intros e Hin;
      repeat (apply elem_of_cons in Hin as [->|Hin]; [done|]);
      by apply not_elem_of_nil in Hin. }
  destruct (Storage.findJob jobId (jobs w)) as [job|] eqn:Hjob; simpl.
  2:{ destruct (Socket.sendThrows (sockets w ws)) eqn:Hs; simpl; rewrite ?Hs; simpl;
      unfold rewire, with_wire; simpl; rewrite <- ?app_assoc;
      eexists; (split; [reflexivity|]); intros e Hin;
      repeat (apply elem_of_cons in Hin as [->|Hin]; [done|]);
      by apply not_elem_of_nil in Hin. }
  case_bool_decide as Hown; simpl.
  { destruct (Socket.sendThrows (sockets w ws)) eqn:Hs; simpl; rewrite ?Hs; simpl;
      unfold rewire, with_wire; simpl; rewrite <- ?app_assoc;
      eexists; (split; [reflexivity|]); intros e Hin;
      repeat (apply elem_of_cons in Hin as [->|Hin]; [done|]);
      by apply not_elem_of_nil in Hin. }
  exfalso. destruct Hnot as [Hnot|?]; [|done]. apply Hnot.
  split; [done|]. exists job. by split.
Qed.

Lemma ownerOf_dec w ws jobId : ownerOf w ws jobId ∨ ¬ ownerOf w ws jobId.
Proof.
  unfold ownerOf.
  destruct (notAuthenticated (sockets w ws)); [right; by intros [? _]|].
  destruct (Storage.findJob jobId (jobs w)) as [job|];
    [|right; by intros [_ (job & ? & _)]].
  destruct (decide (Socket.userId (sockets w ws) = Some (Job.userId job))) as [Hu|Hu].
  - left. split; [done|]. by exists job.
  - right. intros [_ (job' & [= <-] & ?)]. done.
Qed.

Lemma handleSubscription_guarded ws jobId w :
  guarded w (exec (handleSubscription ws jobId) w).
Proof.
  destruct (dbFails w (OpGetJob jobId)) eqn:Hdb.
  { destruct (handleSubscription_refused ws jobId w) as (new & -> & Hnew); [by right|].
    apply guarded_rewire; [intros jobId' ws' Hin; by left|].
    intros e jobId' Hin Hp. rewrite (Hnew e Hin) in Hp. done. }
  destruct (ownerOf_dec w ws jobId) as [Hown|Hnot].
  2:{ destruct (handleSubscription_refused ws jobId w) as (new & -> & Hnew); [by left|].
      apply guarded_rewire; [intros jobId' ws' Hin; by left|].
      intros e jobId' Hin Hp. rewrite (Hnew e Hin) in Hp. done. }
  destruct Hown as [Hchk (job & Hjob & Hu)].
  destruct (checked_authenticated w ws Hchk) as [U Hauth].
  assert (HU : Job.userId job = U).
  { destruct Hauth as (_ & Hu' & _). congruence. }
  destruct (handleSubscription_owner ws jobId U job w Hauth Hdb Hjob HU)
    as (Hsubs & Hwire & _).
  destruct (handleSubscription_frame ws jobId w) as (Hsock & Hjobs & _).
  assert (Howner : ownerOf w ws jobId).
  { split; [done|]. by exists job. }
  split; [done|]. split; [intros id; by rewrite Hjobs|]. split.
  - intros jobId' ws' Hin. unfold subscribersOf in Hin at 1. rewrite Hsubs in Hin.
    destruct (decide (jobId' = jobId)) as [->|Hne].
    + rewrite lookup_insert_eq in Hin. simpl in Hin.
      apply elem_of_set_add in Hin as [->|Hin]; [by right|by left].
    + rewrite lookup_insert_ne in Hin; [by left|].
      intros Heq. apply Hne. symmetry. by apply (inj JS.toString).
  - eexists. split; [exact Hwire|]. intros e jobId' Hin Hp.
    assert (Hid : Job.id job = jobId) by (by apply findJob_id in Hjob).
    destruct (Socket.sendThrows (sockets w ws));
      [|destruct (dbFails w (OpGetDocument (Job.documentId job)))];
      repeat (apply elem_of_cons in Hin as [->|Hin];
              [simpl in Hp; try done; right; simplify_eq; exact Howner|]);
      by apply not_elem_of_nil in Hin.
Qed.

Lemma handleUnsubscription_guarded ws jobId w :
  guarded w (exec (handleUnsubscription ws jobId) w).
Proof.
  unfold exec.
  destruct (notAuthenticated (sockets w ws)) eqn:Hchk.
  - rewrite handleUnsubscription_unauthenticated by done. simpl.
    apply guarded_rewire; [intros jobId' ws' Hin; by left|].
    intros e jobId' Hin Hp.
    destruct (Socket.sendThrows (sockets w ws));
      repeat (apply elem_of_cons in Hin as [->|Hin]; [done|]);
      by apply not_elem_of_nil in Hin.
  - rewrite handleUnsubscription_spec by done. simpl.
    apply guarded_rewire.
    + intros jobId' ws' Hin. left. rewrite unsubscribed_lookup in Hin.
      case_decide; [|done]. by apply withoutSocket_subset in Hin.
    + intros e jobId' Hin Hp.
      destruct (Socket.sendThrows (sockets w ws));
        repeat (apply elem_of_cons in Hin as [->|Hin]; [done|]);
        by apply not_elem_of_nil in Hin.
Qed.

Lemma cleanupSubscriptions_guarded ws w :
  guarded w (exec (cleanupSubscriptions ws) w).
Proof.
  unfold exec. rewrite cleanupSubscriptions_spec. simpl.
  apply guarded_rewire.
  - intros jobId ws' Hin. left. rewrite lookup_omap in Hin.
    by apply withoutSocket_subset in Hin.
  - intros e jobId Hin. by apply not_elem_of_nil in Hin.
Qed.

Lemma updateJobProgress_guarded jobId progress currentStep error w :
  guarded w (exec (VideoProcessor.updateJobProgress jobId progress currentStep error) w).
Proof.
  unfold exec. rewrite updateJobProgress_spec. simpl.
  destruct (dbFails w (OpUpdateJob jobId)); [apply guarded_refl|].
  set (stored := persisted jobId progress currentStep error w).
  set (event := VideoProcessor.progressEvent jobId progress currentStep error).
  destruct (broadcastProgress_effect jobId event stored)
    as (Hwire & Hset & Hsock & Hother).
  split; [by rewrite Hsock|]. split; [|split].
  - intros id. rewrite broadcastProgress_jobs. unfold stored, persisted. simpl.
    destruct (decide (id = jobId)) as [->|Hne].
    + rewrite findJob_updateRows. by destruct (Storage.findJob jobId (jobs w)).
    + by rewrite findJob_updateRows_ne.
  - intros jobId' ws Hin. left.
    destruct (decide (jobId' = jobId)) as [->|Hne].
    + rewrite Hset in Hin. by apply list_elem_of_filter in Hin as [_ Hin].
    + unfold subscribersOf in *. rewrite Hother in Hin; [done|].
      intros Heq. apply Hne. by apply (inj JS.toString).
  - eexists. split; [exact Hwire|]. intros e jobId' Hin Hp. left.
    unfold attempts in Hin. apply list_elem_of_fmap in Hin as (ws & -> & Hin).
    apply list_elem_of_filter in Hin as [_ Hin]. simpl in *. by simplify_eq.
Qed.

Lemma serverStep_guarded (e : ServerEvent) w : guarded w (exec (serverStep e) w).
Proof.
  destruct e as [ws message|ws|ws|jobId progress currentStep error]; simpl.
  - unfold onMessage. apply guarded_try_catch_send; [done|].
    destruct message as [|type jobId]; [apply guarded_refl|].
    destruct (bool_decide (type = Some "subscribe"%string) && JS.truthy_num jobId);
      [apply handleSubscription_guarded|].
    destruct (bool_decide (type = Some "unsubscribe"%string) && JS.truthy_num jobId);
      [apply handleUnsubscription_guarded|].
    destruct (bool_decide (type = Some "ping"%string));
      [by apply guarded_send|apply guarded_refl].
  - apply cleanupSubscriptions_guarded.
  - apply cleanupSubscriptions_guarded.
  - apply updateJobProgress_guarded.
Qed.

Lemma serverRun_guarded (events : list ServerEvent) w : guarded w (serverRun events w).
Proof.
  revert w. induction events as [|e events IH]; intros w; [apply guarded_refl|].
  eapply guarded_trans; [apply (serverStep_guarded e)|apply IH].
Qed.

(** X23.  Progress goes to the owner.  Take a server in which every
    subscriber of a job is an authenticated connection of the job's
    owner, such as one with an empty registry, and let any sequence of
    events happen: messages of any content on any connection, closes,
    failures and progress reports, each handled to its end.  Then every
    subscriber of a job is still a connection of its owner, and every
    progress message that was sent, snapshot or update, went to a
    connection authenticated as the owner of the job it reports. *)
Theorem progress_reaches_owners_only (events : list ServerEvent) w :
  ownersOnly w →
  let w' := serverRun events w in
  ownersOnly w'
  ∧ (∀ e jobId, e ∈ emitted w w' → progressFor (payload e) = Some jobId →
                ownerOf w (target e) jobId).
Proof.
  intros Hown w'.
  destruct (serverRun_guarded events w) as (Hsock & Hjobs & Hsubs & new & Hwire & Hnew).
  fold w' in Hsock, Hjobs, Hsubs, Hwire. split.
  - intros jobId ws Hin. apply (ownerOf_stable w w'); [done..|].
    destruct (Hsubs jobId ws Hin) as [Hold|?]; [by apply Hown|done].
  - intros e jobId Hin Hp. rewrite (emitted_app w w' new Hwire) in Hin.
    destruct (Hnew e jobId Hin Hp) as [Hold|?]; [by apply Hown|done].
Qed.

(** Alice's socket 1 and Bob's socket 2 both ask for Alice's job 7,
    and the job moves on: the update goes to socket 1. *)
Lemma progress_reaches_owners_only_witness :
  let events := [Incoming 1 (Parsed (Some "subscribe"%string) (Some 7%Z));
                 Incoming 2 (Parsed (Some "subscribe"%string) (Some 7%Z));
                 Reported 7 30 "Extracting video captions..." None] in
  let update := mkSend 1 (MProgress 7 PROCESSING 30 "Extracting video captions..." None)
                       true in
  update ∈ emitted Scenario.fresh (serverRun events Scenario.fresh)
  ∧ ownerOf Scenario.fresh 1 7.
Proof.
  intros events update.
  assert (Hsent : update ∈ emitted Scenario.fresh (serverRun events Scenario.fresh)).
  { by apply (list_elem_of_lookup_2 _ 3). }
  split; [exact Hsent|].
  assert (Hfresh : ownersOnly Scenario.fresh).
  { intros jobId ws Hin. unfold subscribersOf in Hin. simpl in Hin.
    rewrite lookup_empty in Hin. by apply not_elem_of_nil in Hin. }
  destruct (progress_reaches_owners_only events Scenario.fresh Hfresh) as [_ Hto].
  exact (Hto update 7%Z Hsent eq_refl).
Defined.

End Owners.

(* ===================================================================== *)
(** * Giving up, and the message handlers *)
(* ===================================================================== *)

Section GivingUp.
Import Client.

Lemma failedReconnect_spec (code : Z) (s : State) :
  code ≠ 1000%Z →
  let s' := failedReconnect code s in
  (if decide (reconnectAttempts s < maxReconnectAttempts)
   then reconnectAttempts s' = S (reconnectAttempts s)
        ∧ reconnectTimeout s' = Some (reconnectDelay (S (reconnectAttempts s)))
   else reconnectAttempts s' = reconnectAttempts s ∧ reconnectTimeout s' = None)
  ∧ sent s' = sent s
  ∧ connectionReady s' = false
  ∧ ∀ j, tracked j s' ↔ tracked j s.
Proof.
  intros Hcode s'. subst s'. unfold failedReconnect, onclose, connect. simpl.
  rewrite bool_decide_true by done. simpl.
  split; [|split; [done|split; [done|]]].
  - case_decide as Hlt.
    + by rewrite bool_decide_true by done.
    + by rewrite bool_decide_false by done.
  - intros j. unfold tracked. simpl. rewrite elem_of_foldl_set_add.
    split; [|tauto]. intros [?|Hnil]; [done|]. by apply not_elem_of_nil in Hnil.
Qed.

(** X24.  The client gives up after five attempts.  Starting from a
    client whose attempt counter is 0, let the connection close with a
    code other than 1000 and let every reconnect fail in the same way.
    After the close and [k] failed reconnects with [k < 5], the counter is
    [k + 1] and the reconnect timer is armed with 1000 * 2^(k+1) ms, at
    most 30000 ms; after the fifth failed reconnect the counter is 5 and
    no timer is armed, so no further attempt is made.  Throughout,
    nothing is written to the socket and every job id the client held
    stays held. *)
Theorem reconnect_gives_up (code : Z) (k : nat) (s : State) :
  code ≠ 1000%Z →
  reconnectAttempts s = 0 →
  k ≤ 5 →
  let s' := Nat.iter k (failedReconnect code) (onclose code s) in
  reconnectAttempts s' = Nat.min (S k) 5
  ∧ reconnectTimeout s'
    = (if decide (k < 5) then Some (Z.min (1000 * 2 ^ Z.of_nat (S k)) 30000) else None)
  ∧ sent s' = sent s
  ∧ connectionReady s' = false
  ∧ (∀ j, tracked j s → tracked j s').
Proof.
  intros Hcode Hzero Hk. induction k as [|k IH]; intros s'; subst s'.
  - simpl. unfold onclose. rewrite Hzero. simpl.
    rewrite bool_decide_true by done. simpl.
    split; [done|]. split; [done|]. split; [done|]. split; [done|].
    intros j Htracked. unfold tracked in *. simpl. rewrite elem_of_foldl_set_add. tauto.
  - destruct IH as (Hatt & Htimer & Hsent & Hready & Htracked); [lia|].
    simpl Nat.iter.
    set (prev := Nat.iter k (failedReconnect code) (onclose code s)) in *.
    destruct (failedReconnect_spec code prev Hcode) as (Hstep & Hsent' & Hready' & Hkeep).
    rewrite Hatt in Hstep. unfold maxReconnectAttempts in Hstep.
    split; [|split; [|split; [congruence|split; [done|]]]].
    + case_decide; destruct Hstep as [-> _]; lia.
    + case_decide as Hlt; destruct Hstep as [_ ->].
      * rewrite decide_True by lia. unfold reconnectDelay.
        by replace (Nat.min (S k) 5) with (S k) by lia.
      * by rewrite decide_False by lia.
    + intros j Hj. by apply Hkeep, Htracked.
Qed.

(** The client that follows jobs 7 and 9: the fifth failed reconnect is
    the last. *)
Lemma reconnect_gives_up_witness :
  let at_ k := Nat.iter k (failedReconnect 1006) (onclose 1006 Scenario.following) in
  reconnectTimeout (at_ 4) = Some 30000%Z
  ∧ reconnectTimeout (at_ 5) = None
  ∧ reconnectAttempts (at_ 5) = 5.
Proof.
  intros at_.
  destruct (reconnect_gives_up 1006 4 Scenario.following) as (_ & Hfour & _);
    [discriminate|reflexivity|lia|].
  destruct (reconnect_gives_up 1006 5 Scenario.following) as (Hcount & Hfive & _);
    [discriminate|reflexivity|lia|].
  split; [exact Hfour|]. split; [exact Hfive|exact Hcount].
Defined.

End GivingUp.

Section HandlerRegistry.
Import MessageHandlers.
Context {Handler : Type}.

(** X25.  One handler for each message type.  A handler registered
    with [onMessage] is the one called for the messages of its type, and
    the handlers of the other types stay as they were; a second
    registration for the same type replaces the first.  The cleanup
    function a registration returns removes whatever handler the type has
    when it runs: run after a later registration for the same type, the
    cleanup of the earlier one leaves messages of this type without a
    handler, although the later handler was never cleaned up. *)
Theorem one_handler_per_type (type : string) (first second : Handler)
    (m : Message) (handlers : @Registry Handler) :
  let r1 := onMessage type first handlers in
  let r2 := onMessage type second r1.1 in
  (messageType m = type →
   handlerFor m r1.1 = Some first
   ∧ handlerFor m r2.1 = Some second
   ∧ handlerFor m (r1.2 r2.1) = None
   ∧ handlerFor m (r2.2 (r1.2 r2.1)) = None)
  ∧ (messageType m ≠ type →
     handlerFor m r1.1 = handlerFor m handlers
     ∧ handlerFor m (r1.2 r2.1) = handlerFor m handlers)
  ∧ r1.2 r1.1 = delete type handlers.
Proof.
  intros r1 r2. subst r1 r2. unfold onMessage, handlerFor, Registry in *. simpl.
  split; [|split].
  - intros ->. by rewrite !lookup_delete_eq, !lookup_insert_eq.
  - intros Hne. by rewrite lookup_delete_ne, !lookup_insert_ne.
  - by rewrite delete_insert_eq.
Qed.

End HandlerRegistry.

(** Two components register a progress handler; the first one
    unmounts. *)
Lemma one_handler_per_type_witness :
  let update := MProgress 7 PROCESSING 30 "Extracting video captions..." None in
  let r1 := MessageHandlers.onProgressUpdate 1 (∅ : gmap string nat) in
  let r2 := MessageHandlers.onProgressUpdate 2 r1.1 in
  MessageHandlers.handlerFor update r2.1 = Some 2
  ∧ MessageHandlers.handlerFor update (r1.2 r2.1) = None.
Proof.
  intros update r1 r2.
  destruct (one_handler_per_type "progress" 1 2 update (∅ : gmap string nat))
    as [Hsame _].
  destruct (Hsame eq_refl) as (_ & Hsecond & Hgone & _).
  split; [exact Hsecond|exact Hgone].
Defined.
